(** * A maze race: generator, collision test, session state machine and relay

    Shallow embedding of the TypeScript sources
    - [src/types.ts]        ([generateMaze] and the game constants),
    - the client component  ([initGame], the timer effect, the movement tick,
      [checkCollision]),
    - the relay server      (the [message] / [close] handlers and
      [broadcastToRoom]).

    JavaScript numbers that only ever hold integers (grid indices, sizes,
    coin counts) are [Z]; numbers that hold fractions (timers, the
    difficulty, world coordinates) are rationals [Q].  The trap count and
    the steps of the timers and of the clock are rounded to doubles as the
    code rounds them ([Double.round64]); world coordinates are kept exact,
    and [Collision.exactCorners] says when the corner sums of the
    collision test are exact in doubles too.  Code that can throw returns
    a [Res]; loops whose bound is not syntactic carry fuel and are shown
    never to exhaust it. *)

From Stdlib Require Import ZArith QArith Qround Lia Lqa.
From stdpp Require Import base option list gmap strings pretty.

Local Open Scope Z_scope.

(** ** Results of code that may throw *)

Inductive JsError := TypeError | RangeError | SyntaxError.

Inductive Res (A : Type) :=
| Ok (a : A)
| Throw (e : JsError)
| OutOfFuel.
Arguments Ok {A} a.
Arguments Throw {A} e.
Arguments OutOfFuel {A}.

#[global] Instance Res_ret : MRet Res := fun _ a => Ok a.
#[global] Instance Res_bind : MBind Res := fun _ _ f r =>
  match r with
  | Ok a => f a
  | Throw e => Throw e
  | OutOfFuel => OutOfFuel
  end.

(** [for (const d of ds) body] over an accumulator, stopping at the first
    throw. *)
Fixpoint forEach {A S : Type} (body : S -> A -> Res S) (ds : list A) (s : S) : Res S :=
  match ds with
  | [] => Ok s
  | d :: ds' => s' ← body s d; forEach body ds' s'
  end.

(** ** Doubles

    A JavaScript number is a binary64 value.  [round64] rounds a rational
    to the nearest one (ties to the even significand), as every arithmetic
    operation of the language does with its exact result, and as a decimal
    literal does with the number it writes.  Overflow to an infinity is
    not represented: the magnitudes here stay far below [2 ^ 1024]. *)

Module Double.

(** [floor (log2 q)] for a positive [q] *)
Definition ilog2 (q : Q) : Z :=
  let e := Z.log2 (Qnum q) - Z.log2 (Z.pos (Qden q)) in
  if Qle_bool (2 ^ e) q then e else e - 1.

(** the nearest integer, the even one of two that are equally near *)
Definition roundHalfEven (q : Q) : Z :=
  let f := Qfloor q in
  match (q - inject_Z f ?= 1 # 2)%Q with
  | Lt => f
  | Gt => f + 1
  | Eq => if Z.even f then f else f + 1
  end.

(** the nearest multiple of the unit in the last place: a significand of
    53 bits, an exponent of at least -1022 *)
Definition roundPos (q : Q) : Q :=
  let u := (2 ^ (Z.max (ilog2 q) (-1022) - 52))%Q in
  Qred (inject_Z (roundHalfEven (q / u)) * u).

Definition round64 (q : Q) : Q :=
  match Qnum q with
  | 0 => 0
  | Z.pos _ => roundPos q
  | Z.neg _ => - roundPos (- q)
  end.

(** [a + b], [a - b], [a * b] on doubles *)
Definition add (a b : Q) : Q := round64 (a + b).
Definition sub (a b : Q) : Q := round64 (a - b).
Definition mul (a b : Q) : Q := round64 (a * b).

End Double.

(** ** The random source

    [Math.random] is an oracle: a list of draws consumed from the head
    (an exhausted list keeps answering [0]). *)

Definition Rng := list nat.

Definition draw (rng : Rng) : nat * Rng :=
  match rng with
  | [] => (O, [])
  | n :: rest => (n, rest)
  end.

(** [Math.floor(Math.random() * w)]: for [w >= 1] any of [0 .. w-1]; for
    [w <= 0] any of [w .. 0]. *)
Definition randBelow (w : Z) (rng : Rng) : Z * Rng :=
  let '(n, rng') := draw rng in
  (if 0 <? w then Z.of_nat n mod w else - (Z.of_nat n mod (1 - w)), rng').

(** [Math.random() > 0.5] *)
Definition randCoin (rng : Rng) : bool * Rng :=
  let '(n, rng') := draw rng in (Nat.odd n, rng').

(** [l.sort(() => Math.random() - 0.5)]: the comparator ignores its
    arguments, so the outcome is whichever permutation of [l] the random
    source selects; one draw [k] picks it (selection by [k mod n], then
    [k / n] on the rest). *)
Fixpoint permute {A : Type} (n k : nat) (l : list A) : list A :=
  match n with
  | O => []
  | S n' =>
      let i := (k mod length l)%nat in
      match l !! i with
      | Some a => a :: permute n' (k / length l)%nat (delete i l)
      | None => []
      end
  end.

Definition shuffle {A : Type} (l : list A) (rng : Rng) : list A * Rng :=
  let '(k, rng') := draw rng in (permute (length l) k l, rng').

(** ** Two-dimensional arrays ([number[][]], [boolean[][]])

    A row is a list; reading past the end of a row gives [undefined]
    ([None]); indexing a missing row throws [TypeError].  Writing past the end
    of a row extends it, the gap being holes. *)

Section Arr2.
Context {A : Type}.
(** the value a hole is represented by: one that answers every test in the
    source the way [undefined] does *)
Variable hole : A.

Definition getRow (g : list (list A)) (y : Z) : Res (list A) :=
  if y <? 0 then Throw TypeError
  else match g !! Z.to_nat y with
       | Some row => Ok row
       | None => Throw TypeError
       end.

Definition readCell (g : list (list A)) (x y : Z) : Res (option A) :=
  row ← getRow g y;
  Ok (if x <? 0 then None else row !! Z.to_nat x).

Definition setRow (row : list A) (x : Z) (v : A) : list A :=
  if x <? 0 then row
  else
    let i := Z.to_nat x in
    if (i <? length row)%nat then <[i:=v]> row
    else row ++ replicate (i - length row) hole ++ [v].

Definition writeCell (g : list (list A)) (x y : Z) (v : A) : Res (list (list A)) :=
  row ← getRow g y;
  Ok (<[Z.to_nat y := setRow row x v]> g).
End Arr2.

(** [Array(height).fill(0).map(() => Array(width).fill(v))]; a negative
    length throws [RangeError]. *)
Definition newArr2 {A : Type} (width height : Z) (v : A) : Res (list (list A)) :=
  if height <? 0 then Throw RangeError
  else if (0 <? height) && (width <? 0) then Throw RangeError
  else Ok (replicate (Z.to_nat height) (replicate (Z.to_nat width) v)).

(** ** Maze data ([src/types.ts]) *)

Record Point := mkPoint { px : Z; py : Z }.

#[global] Instance Point_eq_dec : EqDecision Point.
Proof. solve_decision. Defined.

#[global] Instance Point_inhabited : Inhabited Point := populate (mkPoint 0 0).

Inductive TrapState := safe | warning | collapsed.

Record TrapSquare := mkTrap { trapX : Z; trapY : Z; trapId : string; trapState : TrapState }.

Record MazeData := mkMaze {
  grid : list (list Z);
  width : Z;
  height : Z;
  start : Point;
  end_ : Point;
  traps : list TrapSquare;
  safeZones : list Point
}.

Definition CELL_SIZE : Z := 40.
Definition PLAYER_RADIUS : Z := 10.
Definition TRAP_CYCLE_TIME : Z := 8.
Definition PHASE_DURATION : Z := 300.
Definition SHOP_DURATION : Z := 30.
Definition DISTRACTOR_DURATION : Z := 120.
Definition PRACTICE_DURATION : Z := 30.

(** a hole in a [number[][]] is [undefined]: neither [=== 0] nor [=== 1] *)
Definition gridHole : Z := -1.

(** [grid[y][x] === v] *)
Definition cellIs (g : list (list Z)) (x y v : Z) : Res bool :=
  c ← readCell g x y; Ok (bool_decide (c = Some v)).

Definition inBounds (w h x y : Z) : bool :=
  (0 <=? x) && (x <? w) && (0 <=? y) && (y <? h).

Module Maze.

Definition directions : list (Z * Z) := [(0, -2); (0, 2); (-2, 0); (2, 0)].

(** One pass of the [for (const [dx, dy] of directions)] body of [walk],
    given the recursive call. *)
Definition walkStep (rec : Z -> Z -> list (list Z) * Rng -> Res (list (list Z) * Rng))
    (w h x y : Z) (st : list (list Z) * Rng) (d : Z * Z) : Res (list (list Z) * Rng) :=
  let '(dx, dy) := d in
  let nx := x + dx in
  let ny := y + dy in
  if inBounds w h nx ny then
    b ← cellIs st.1 nx ny 1;
    if (b : bool) then
      g ← writeCell gridHole st.1 (x + dx / 2) (y + dy / 2) 0;
      rec nx ny (g, st.2)
    else Ok st
  else Ok st.

(** [walk(x, y)]: the recursive carve.  [fuel] bounds the recursion depth. *)
Fixpoint walk (fuel : nat) (w h x y : Z) (st : list (list Z) * Rng)
    : Res (list (list Z) * Rng) :=
  match fuel with
  | O => OutOfFuel
  | S fuel' =>
      g ← writeCell gridHole st.1 x y 0;
      let '(dirs, rng) := shuffle directions st.2 in
      forEach (walkStep (walk fuel' w h) w h x y) dirs (g, rng)
  end.

(** *** The end cell: rings growing from the bottom-right corner *)

(** the values [hi, hi-1, ..., lo] of a descending [for] loop *)
Definition downFrom (hi lo : Z) : list Z :=
  (fun i => hi - i) <$> seqZ 0 (hi - lo + 1).

(** a loop left by [break] at the first hit *)
Fixpoint findFirst {A B : Type} (f : A -> Res (option B)) (l : list A) : Res (option B) :=
  match l with
  | [] => Ok None
  | a :: l' =>
      r ← f a;
      match r with
      | Some b => Ok (Some b)
      | None => findFirst f l'
      end
  end.

Definition scanRow (g : list (list Z)) (w d ty : Z) : Res (option Point) :=
  findFirst (fun tx => b ← cellIs g tx ty 0;
                       Ok (if (b : bool) then Some (mkPoint tx ty) else None))
            (downFrom (w - 1) (Z.max 0 (w - 1 - d))).

Definition scanRing (g : list (list Z)) (w h d : Z) : Res (option Point) :=
  findFirst (scanRow g w d) (downFrom (h - 1) (Z.max 0 (h - 1 - d))).

Definition findEnd (g : list (list Z)) (w h : Z) : Res Point :=
  r ← findFirst (scanRing g w h) (seqZ 0 (Z.max w h));
  Ok (default (mkPoint (w - 1) (h - 1)) r).

(** *** Traps *)

(** [Math.floor((width * height) * 0.05 * difficulty)]: the literal is the
    double nearest to 0.05 and each product is rounded *)
Definition trapCountOf (w h : Z) (difficulty : Q) : Z :=
  Qfloor (Double.mul (Double.mul (Double.round64 (inject_Z (w * h)))
                                 (Double.round64 (5 # 100)))
                     difficulty).

Definition trapAt (x y : Z) (t : TrapSquare) : bool :=
  (trapX t =? x) && (trapY t =? y).

Definition newTrap (x y : Z) : TrapSquare :=
  mkTrap x y (pretty x +:+ "-" +:+ pretty y) safe.

(** the [while (traps.length < trapCount && attempts < 100)] loop; the
    result carries the final value of [attempts] *)
Fixpoint trapLoop (fuel : nat) (g : list (list Z)) (w h : Z) (e : Point)
    (trapCount : Z) (ts : list TrapSquare) (attempts : Z) (rng : Rng)
    : Res (list TrapSquare * Z * Rng) :=
  if (Z.of_nat (length ts) <? trapCount) && (attempts <? 100) then
    match fuel with
    | O => OutOfFuel
    | S fuel' =>
        let '(tx, rng) := randBelow w rng in
        let '(ty, rng) := randBelow h rng in
        b ← cellIs g tx ty 0;
        let ts' :=
          if (b : bool) && negb ((tx =? 0) && (ty =? 0))
             && negb ((tx =? px e) && (ty =? py e))
             && negb (existsb (trapAt tx ty) ts)
          then ts ++ [newTrap tx ty] else ts in
        trapLoop fuel' g w h e trapCount ts' (attempts + 1) rng
    end
  else Ok (ts, attempts, rng).

(** *** Breadth-first search for the safe-zone path *)

(** The source keys [parent] by the string [`${x},${y}`], which is
    injective on integer pairs; the pair itself is the key here. *)
Definition key (p : Point) : Z * Z := (px p, py p).

Record Bfs := mkBfs {
  visited : list (list bool);
  parent : gmap (Z * Z) Point;
  queue : list Point
}.

Definition dirs4 : list (Z * Z) := [(0, 1); (1, 0); (0, -1); (-1, 0)].

(** [visited[y][x]] as a condition: [undefined] is falsy *)
Definition isVisited (v : list (list bool)) (x y : Z) : Res bool :=
  c ← readCell v x y; Ok (default false c).

Definition bfsVisit (g : list (list Z)) (w h : Z) (curr : Point) (s : Bfs) (d : Z * Z)
    : Res Bfs :=
  let nx := px curr + d.1 in
  let ny := py curr + d.2 in
  if inBounds w h nx ny then
    b ← cellIs g nx ny 0;
    if (b : bool) then
      seen ← isVisited (visited s) nx ny;
      if (seen : bool) then Ok s
      else
        v ← writeCell false (visited s) nx ny true;
        Ok (mkBfs v (<[(nx, ny) := curr]> (parent s)) (queue s ++ [mkPoint nx ny]))
    else Ok s
  else Ok s.

(** the [while (queue.length > 0)] loop *)
Fixpoint bfsLoop (fuel : nat) (g : list (list Z)) (w h : Z) (e : Point) (s : Bfs)
    : Res Bfs :=
  match queue s with
  | [] => Ok s
  | curr :: rest =>
      match fuel with
      | O => OutOfFuel
      | S fuel' =>
          let s := mkBfs (visited s) (parent s) rest in
          if (px curr =? px e) && (py curr =? py e) then Ok s
          else
            s' ← forEach (bfsVisit g w h curr) dirs4 s;
            bfsLoop fuel' g w h e s'
      end
  end.

(** the [while (curr)] loop following the parent pointers; the list is
    [path] before [path.reverse()] *)
Fixpoint chain (fuel : nat) (par : gmap (Z * Z) Point) (curr : Point) : Res (list Point) :=
  match fuel with
  | O => OutOfFuel
  | S fuel' =>
      match par !! key curr with
      | None => Ok [curr]
      | Some p => rest ← chain fuel' par p; Ok (curr :: rest)
      end
  end.

Definition bfsPath (g : list (list Z)) (w h : Z) (e : Point) : Res (list Point) :=
  v ← newArr2 w h false;
  v ← writeCell false v 0 0 true;
  s ← bfsLoop (S (S (Z.to_nat (w * h)))) g w h e (mkBfs v ∅ [mkPoint 0 0]);
  c ← chain (S (size (parent s))) (parent s) e;
  Ok (reverse c).

(** *** Safe zones *)

(** [Math.max(1, 4 - Math.floor(difficulty / 3))] *)
Definition safeZoneCountOf (difficulty : Q) : Z :=
  Z.max 1 (4 - Qfloor (difficulty / inject_Z 3)).

(** [Math.min(i * step, path.length - 1)] *)
Definition safeIdx (len count i : Z) : Z :=
  Z.min (i * (len / (count + 1))) (len - 1).

Definition safeZonesOnPath (path : list Point) (count : Z) : list Point :=
  (fun i => path !!! Z.to_nat (safeIdx (Z.of_nat (length path)) count i)) <$> seqZ 1 count.

Definition pointAt (x y : Z) (p : Point) : bool := (px p =? x) && (py p =? y).

(** the [while (!found)] loop of the fallback: it has no attempt bound *)
Fixpoint fallbackPick (fuel : nat) (g : list (list Z)) (w h : Z)
    (zs : list Point) (rng : Rng) : Res (list Point * Rng) :=
  match fuel with
  | O => OutOfFuel
  | S fuel' =>
      let '(sx, rng) := randBelow w rng in
      let '(sy, rng) := randBelow h rng in
      b ← cellIs g sx sy 0;
      if (b : bool) && negb (existsb (pointAt sx sy) zs)
      then Ok (zs ++ [mkPoint sx sy], rng)
      else fallbackPick fuel' g w h zs rng
  end.

Definition safeZonesFallback (fuel : nat) (g : list (list Z)) (w h count : Z) (rng : Rng)
    : Res (list Point * Rng) :=
  forEach (fun st (_ : Z) => fallbackPick fuel g w h st.1 st.2) (seqZ 0 count) ([], rng).

(** *** [generateMaze]

    [fuel] bounds only the fallback's [while (!found)] loop; every other
    loop gets a bound computed from the dimensions. *)
Definition generateMaze (fuel : nat) (rng : Rng) (w h : Z) (difficulty : Q)
    : Res MazeData :=
  g ← newArr2 w h 1;
  '(g, rng) ← walk (S (Z.to_nat (w * h))) w h 0 0 (g, rng);
  e ← findEnd g w h;
  '(ts, _, rng) ← trapLoop 100 g w h e (trapCountOf w h difficulty) [] 0 rng;
  path ← bfsPath g w h e;
  let count := safeZoneCountOf difficulty in
  zs ← (if (0 <? length path)%nat then Ok (safeZonesOnPath path count)
        else '(zs, _) ← safeZonesFallback fuel g w h count rng; Ok zs);
  Ok (mkMaze g w h (mkPoint 0 0) e ts zs).

End Maze.

(** ** The collision test ([checkCollision]) *)

Module Collision.

Definition margin : Z := PLAYER_RADIUS + 2.

(** [Math.floor(c / CELL_SIZE)] *)
Definition cellOf (c : Q) : Z := Qfloor (c / inject_Z CELL_SIZE).

(** the four corners, their coordinates taken exactly *)
Definition corners (x y : Q) : list (Q * Q) :=
  let m := inject_Z margin in
  [(x - m, y - m); (x + m, y - m); (x - m, y + m); (x + m, y + m)]%Q.

(** the code rounds each of the four sums to a double; its corners are
    those of [corners] when the sums are doubles already *)
Definition exactCorners (x y : Q) : Prop :=
  let m := inject_Z margin in
  (Double.sub x m == x - m /\ Double.add x m == x + m /\
   Double.sub y m == y - m /\ Double.add y m == y + m)%Q.

(** the condition of the [if] inside the loop over the corners *)
Definition cornerBlocked (m : MazeData) (p : Q * Q) : Res bool :=
  let gx := cellOf p.1 in
  let gy := cellOf p.2 in
  if (gx <? 0) || (gy <? 0) || (gx >=? width m) || (gy >=? height m) then Ok true
  else cellIs (grid m) gx gy 1.

(** a loop left by [return true] at the first hit *)
Fixpoint anyCorner (m : MazeData) (ps : list (Q * Q)) : Res bool :=
  match ps with
  | [] => Ok false
  | p :: ps' =>
      b ← cornerBlocked m p;
      if (b : bool) then Ok true else anyCorner m ps'
  end.

Definition checkCollision (x y : Q) (m : MazeData) : Res bool :=
  anyCorner m (corners x y).

End Collision.

(** ** The session state machine (the client component)

    One [Session] holds the React state of the component that the timers,
    the movement tick and the handlers read and write.  State that only
    feeds rendering, audio and telemetry (headings, the pursuer's position,
    the roster of remote players, latencies) is left out; where the source
    derives a value from it (the displacement from the heading, whether the
    pursuer is within reach) the value is an input of the event.  The two
    [setTimeout] one-shots are pending entries that fire as events of their
    own.  Within one event the [set...] calls apply in source order, and a
    value read through a ref or a closure is the one of the state the event
    started from. *)

Module Game.

Inductive GameState :=
| lobby | tutorial | practice | playing | shop | distractor
| won | lost | respawning | gameover.

Inductive TutorialStep := stepIntro | stepExample | stepPractice | stepPhase2 | stepPhase3.

Inductive Flash := red | yellow.

#[global] Instance GameState_eq_dec : EqDecision GameState.
Proof. solve_decision. Defined.

Record Session := mkSession {
  gameState : GameState;
  tutorialStep : TutorialStep;
  phase : Z;
  phaseTime : Q;
  shopTimer : Q;
  distractorTimer : Q;
  practiceTimer : Q;
  trapTimer : Q;
  wipeTimer : Q;
  time : Q;
  coins : Z;
  difficulty : Q;
  maze : option MazeData;
  myPos : Q * Q;
  phase2FlashType : Flash;
  shopChoiceTime : bool;
  mazesCompleted : Z;
  phaseMazes : Z;
  surveyData : bool;
  subjectId : string;
  pendingRespawns : list (GameState * (Q * Q));
  pendingShopConfirms : nat
}.
Definition set_gameState (v : GameState) (s : Session) : Session :=
  mkSession v (tutorialStep s) (phase s) (phaseTime s) (shopTimer s) (distractorTimer s) (practiceTimer s) (trapTimer s) (wipeTimer s) (time s) (coins s) (difficulty s) (maze s) (myPos s) (phase2FlashType s) (shopChoiceTime s) (mazesCompleted s) (phaseMazes s) (surveyData s) (subjectId s) (pendingRespawns s) (pendingShopConfirms s).
Definition set_tutorialStep (v : TutorialStep) (s : Session) : Session :=
  mkSession (gameState s) v (phase s) (phaseTime s) (shopTimer s) (distractorTimer s) (practiceTimer s) (trapTimer s) (wipeTimer s) (time s) (coins s) (difficulty s) (maze s) (myPos s) (phase2FlashType s) (shopChoiceTime s) (mazesCompleted s) (phaseMazes s) (surveyData s) (subjectId s) (pendingRespawns s) (pendingShopConfirms s).
Definition set_phase (v : Z) (s : Session) : Session :=
  mkSession (gameState s) (tutorialStep s) v (phaseTime s) (shopTimer s) (distractorTimer s) (practiceTimer s) (trapTimer s) (wipeTimer s) (time s) (coins s) (difficulty s) (maze s) (myPos s) (phase2FlashType s) (shopChoiceTime s) (mazesCompleted s) (phaseMazes s) (surveyData s) (subjectId s) (pendingRespawns s) (pendingShopConfirms s).
Definition set_phaseTime (v : Q) (s : Session) : Session :=
  mkSession (gameState s) (tutorialStep s) (phase s) v (shopTimer s) (distractorTimer s) (practiceTimer s) (trapTimer s) (wipeTimer s) (time s) (coins s) (difficulty s) (maze s) (myPos s) (phase2FlashType s) (shopChoiceTime s) (mazesCompleted s) (phaseMazes s) (surveyData s) (subjectId s) (pendingRespawns s) (pendingShopConfirms s).
Definition set_shopTimer (v : Q) (s : Session) : Session :=
  mkSession (gameState s) (tutorialStep s) (phase s) (phaseTime s) v (distractorTimer s) (practiceTimer s) (trapTimer s) (wipeTimer s) (time s) (coins s) (difficulty s) (maze s) (myPos s) (phase2FlashType s) (shopChoiceTime s) (mazesCompleted s) (phaseMazes s) (surveyData s) (subjectId s) (pendingRespawns s) (pendingShopConfirms s).
Definition set_distractorTimer (v : Q) (s : Session) : Session :=
  mkSession (gameState s) (tutorialStep s) (phase s) (phaseTime s) (shopTimer s) v (practiceTimer s) (trapTimer s) (wipeTimer s) (time s) (coins s) (difficulty s) (maze s) (myPos s) (phase2FlashType s) (shopChoiceTime s) (mazesCompleted s) (phaseMazes s) (surveyData s) (subjectId s) (pendingRespawns s) (pendingShopConfirms s).
Definition set_practiceTimer (v : Q) (s : Session) : Session :=
  mkSession (gameState s) (tutorialStep s) (phase s) (phaseTime s) (shopTimer s) (distractorTimer s) v (trapTimer s) (wipeTimer s) (time s) (coins s) (difficulty s) (maze s) (myPos s) (phase2FlashType s) (shopChoiceTime s) (mazesCompleted s) (phaseMazes s) (surveyData s) (subjectId s) (pendingRespawns s) (pendingShopConfirms s).
Definition set_trapTimer (v : Q) (s : Session) : Session :=
  mkSession (gameState s) (tutorialStep s) (phase s) (phaseTime s) (shopTimer s) (distractorTimer s) (practiceTimer s) v (wipeTimer s) (time s) (coins s) (difficulty s) (maze s) (myPos s) (phase2FlashType s) (shopChoiceTime s) (mazesCompleted s) (phaseMazes s) (surveyData s) (subjectId s) (pendingRespawns s) (pendingShopConfirms s).
Definition set_wipeTimer (v : Q) (s : Session) : Session :=
  mkSession (gameState s) (tutorialStep s) (phase s) (phaseTime s) (shopTimer s) (distractorTimer s) (practiceTimer s) (trapTimer s) v (time s) (coins s) (difficulty s) (maze s) (myPos s) (phase2FlashType s) (shopChoiceTime s) (mazesCompleted s) (phaseMazes s) (surveyData s) (subjectId s) (pendingRespawns s) (pendingShopConfirms s).
Definition set_time (v : Q) (s : Session) : Session :=
  mkSession (gameState s) (tutorialStep s) (phase s) (phaseTime s) (shopTimer s) (distractorTimer s) (practiceTimer s) (trapTimer s) (wipeTimer s) v (coins s) (difficulty s) (maze s) (myPos s) (phase2FlashType s) (shopChoiceTime s) (mazesCompleted s) (phaseMazes s) (surveyData s) (subjectId s) (pendingRespawns s) (pendingShopConfirms s).
Definition set_coins (v : Z) (s : Session) : Session :=
  mkSession (gameState s) (tutorialStep s) (phase s) (phaseTime s) (shopTimer s) (distractorTimer s) (practiceTimer s) (trapTimer s) (wipeTimer s) (time s) v (difficulty s) (maze s) (myPos s) (phase2FlashType s) (shopChoiceTime s) (mazesCompleted s) (phaseMazes s) (surveyData s) (subjectId s) (pendingRespawns s) (pendingShopConfirms s).
Definition set_difficulty (v : Q) (s : Session) : Session :=
  mkSession (gameState s) (tutorialStep s) (phase s) (phaseTime s) (shopTimer s) (distractorTimer s) (practiceTimer s) (trapTimer s) (wipeTimer s) (time s) (coins s) v (maze s) (myPos s) (phase2FlashType s) (shopChoiceTime s) (mazesCompleted s) (phaseMazes s) (surveyData s) (subjectId s) (pendingRespawns s) (pendingShopConfirms s).
Definition set_maze (v : option MazeData) (s : Session) : Session :=
  mkSession (gameState s) (tutorialStep s) (phase s) (phaseTime s) (shopTimer s) (distractorTimer s) (practiceTimer s) (trapTimer s) (wipeTimer s) (time s) (coins s) (difficulty s) v (myPos s) (phase2FlashType s) (shopChoiceTime s) (mazesCompleted s) (phaseMazes s) (surveyData s) (subjectId s) (pendingRespawns s) (pendingShopConfirms s).
Definition set_myPos (v : Q * Q) (s : Session) : Session :=
  mkSession (gameState s) (tutorialStep s) (phase s) (phaseTime s) (shopTimer s) (distractorTimer s) (practiceTimer s) (trapTimer s) (wipeTimer s) (time s) (coins s) (difficulty s) (maze s) v (phase2FlashType s) (shopChoiceTime s) (mazesCompleted s) (phaseMazes s) (surveyData s) (subjectId s) (pendingRespawns s) (pendingShopConfirms s).
Definition set_phase2FlashType (v : Flash) (s : Session) : Session :=
  mkSession (gameState s) (tutorialStep s) (phase s) (phaseTime s) (shopTimer s) (distractorTimer s) (practiceTimer s) (trapTimer s) (wipeTimer s) (time s) (coins s) (difficulty s) (maze s) (myPos s) v (shopChoiceTime s) (mazesCompleted s) (phaseMazes s) (surveyData s) (subjectId s) (pendingRespawns s) (pendingShopConfirms s).
Definition set_shopChoiceTime (v : bool) (s : Session) : Session :=
  mkSession (gameState s) (tutorialStep s) (phase s) (phaseTime s) (shopTimer s) (distractorTimer s) (practiceTimer s) (trapTimer s) (wipeTimer s) (time s) (coins s) (difficulty s) (maze s) (myPos s) (phase2FlashType s) v (mazesCompleted s) (phaseMazes s) (surveyData s) (subjectId s) (pendingRespawns s) (pendingShopConfirms s).
Definition set_mazesCompleted (v : Z) (s : Session) : Session :=
  mkSession (gameState s) (tutorialStep s) (phase s) (phaseTime s) (shopTimer s) (distractorTimer s) (practiceTimer s) (trapTimer s) (wipeTimer s) (time s) (coins s) (difficulty s) (maze s) (myPos s) (phase2FlashType s) (shopChoiceTime s) v (phaseMazes s) (surveyData s) (subjectId s) (pendingRespawns s) (pendingShopConfirms s).
Definition set_phaseMazes (v : Z) (s : Session) : Session :=
  mkSession (gameState s) (tutorialStep s) (phase s) (phaseTime s) (shopTimer s) (distractorTimer s) (practiceTimer s) (trapTimer s) (wipeTimer s) (time s) (coins s) (difficulty s) (maze s) (myPos s) (phase2FlashType s) (shopChoiceTime s) (mazesCompleted s) v (surveyData s) (subjectId s) (pendingRespawns s) (pendingShopConfirms s).
Definition set_surveyData (v : bool) (s : Session) : Session :=
  mkSession (gameState s) (tutorialStep s) (phase s) (phaseTime s) (shopTimer s) (distractorTimer s) (practiceTimer s) (trapTimer s) (wipeTimer s) (time s) (coins s) (difficulty s) (maze s) (myPos s) (phase2FlashType s) (shopChoiceTime s) (mazesCompleted s) (phaseMazes s) v (subjectId s) (pendingRespawns s) (pendingShopConfirms s).
Definition set_subjectId (v : string) (s : Session) : Session :=
  mkSession (gameState s) (tutorialStep s) (phase s) (phaseTime s) (shopTimer s) (distractorTimer s) (practiceTimer s) (trapTimer s) (wipeTimer s) (time s) (coins s) (difficulty s) (maze s) (myPos s) (phase2FlashType s) (shopChoiceTime s) (mazesCompleted s) (phaseMazes s) (surveyData s) v (pendingRespawns s) (pendingShopConfirms s).
Definition set_pendingRespawns (v : list (GameState * (Q * Q))) (s : Session) : Session :=
  mkSession (gameState s) (tutorialStep s) (phase s) (phaseTime s) (shopTimer s) (distractorTimer s) (practiceTimer s) (trapTimer s) (wipeTimer s) (time s) (coins s) (difficulty s) (maze s) (myPos s) (phase2FlashType s) (shopChoiceTime s) (mazesCompleted s) (phaseMazes s) (surveyData s) (subjectId s) v (pendingShopConfirms s).
Definition set_pendingShopConfirms (v : nat) (s : Session) : Session :=
  mkSession (gameState s) (tutorialStep s) (phase s) (phaseTime s) (shopTimer s) (distractorTimer s) (practiceTimer s) (trapTimer s) (wipeTimer s) (time s) (coins s) (difficulty s) (maze s) (myPos s) (phase2FlashType s) (shopChoiceTime s) (mazesCompleted s) (phaseMazes s) (surveyData s) (subjectId s) (pendingRespawns s) v.
Definition initial : Session :=
  mkSession lobby stepIntro 1
    (inject_Z PHASE_DURATION) (inject_Z SHOP_DURATION) (inject_Z DISTRACTOR_DURATION)
    (inject_Z PRACTICE_DURATION) (inject_Z TRAP_CYCLE_TIME) 30 0 0 1
    None (0, 0)%Q yellow false 0 0 false EmptyString [] 0.

Definition isRunning (g : GameState) : bool :=
  match g with playing | practice => true | _ => false end.

(** [maze.start.x * CELL_SIZE + CELL_SIZE / 2] and the same for [y] *)
Definition startPos (m : MazeData) : Q * Q :=
  (inject_Z (px (start m) * CELL_SIZE + CELL_SIZE / 2),
   inject_Z (py (start m) * CELL_SIZE + CELL_SIZE / 2)).

(** the fuel handed to the generator's unbounded fallback loop; the loop
    is never entered ([GenFacts.generateMaze_fuel_irrelevant]) *)
Definition fallbackFuel : nat := 0.

(** [initGame(undefined, targetState)]: every call site passes
    [undefined] for [newDifficulty]. *)
Definition initGame (rng : Rng) (targetState : GameState) (s : Session) : Session :=
  let d := difficulty s in
  let size := 12 + Qfloor (d * (15 # 10)) in
  match Maze.generateMaze fallbackFuel rng size size d with
  | Ok newMaze =>
      set_wipeTimer (inject_Z (10 + Qfloor (d / 2)))
      (set_distractorTimer (inject_Z DISTRACTOR_DURATION)
      (set_shopChoiceTime false
      (set_trapTimer (inject_Z (TRAP_CYCLE_TIME + Qfloor (d / 2)))
      (set_time 0
      (set_gameState targetState
      (set_myPos (startPos newMaze)
      (set_maze (Some newMaze) s)))))))
  | _ => s
  end.

(** [respawn()]; [ref] is [gameStateRef.current] *)
Definition respawn (ref : GameState) (s : Session) : Session :=
  match maze s with
  | None => s
  | Some m =>
      let targetState := if decide (ref = practice) then practice else playing in
      set_pendingRespawns (pendingRespawns s ++ [(targetState, startPos m)])
        (set_gameState respawning s)
  end.

(** the literal [0.1]: the double nearest to one tenth *)
Definition tenth : Q := Eval vm_compute in Double.round64 (1 # 10).

(** [a < b] on numbers *)
Definition Qlt_bool (a b : Q) : bool := negb (Qle_bool b a).

Definition gridCell (p : Q * Q) : Z * Z := (Collision.cellOf p.1, Collision.cellOf p.2).

Definition inSafeZone (s : Session) : bool :=
  match maze s with
  | None => false
  | Some m =>
      let '(gx, gy) := gridCell (myPos s) in
      existsb (Maze.pointAt gx gy) (safeZones m)
  end.

(** *** The 100 ms timer *)

Definition tickWipe (s0 s : Session) : Session :=
  if phase s0 =? 3 then
    if Qle_bool (wipeTimer s) tenth then
      set_wipeTimer (inject_Z (10 + Qfloor (difficulty s0 / 2)))
        (if inSafeZone s0 then s else respawn (gameState s0) s)
    else set_wipeTimer (Double.sub (wipeTimer s) tenth) s
  else s.

Definition tickTrap (rng : Rng) (s0 s : Session) : Session * Rng :=
  if Qle_bool (trapTimer s) tenth then
    let '(s, rng) :=
      if phase s0 =? 2 then
        let '(c, rng) := randCoin rng in
        (set_phase2FlashType (if c then red else yellow) s, rng)
      else (s, rng) in
    (set_trapTimer (inject_Z (TRAP_CYCLE_TIME + Qfloor (difficulty s0 / 2))) s, rng)
  else (set_trapTimer (Double.sub (trapTimer s) tenth) s, rng).

Definition tickPhaseClock (s0 s : Session) : Session :=
  if Qle_bool (phaseTime s) tenth then
    if phase s0 <? 3 then
      set_phaseTime (inject_Z PHASE_DURATION)
        (set_shopTimer (inject_Z SHOP_DURATION) (set_gameState shop s))
    else set_phaseTime 0 (set_gameState gameover s)
  else set_phaseTime (Double.sub (phaseTime s) tenth) s.

Definition tickPractice (rng : Rng) (s : Session) : Session :=
  if Qle_bool (practiceTimer s) tenth then
    set_practiceTimer 0 (initGame rng playing s)
  else set_practiceTimer (Double.sub (practiceTimer s) tenth) s.

Definition tickShop (s : Session) : Session :=
  if Qle_bool (shopTimer s) tenth then
    set_shopTimer 0 (set_gameState distractor s)
  else set_shopTimer (Double.sub (shopTimer s) tenth) s.

(** [initGame] itself calls [setDistractorTimer]; that nested update is
    queued behind the updater's own result [0] *)
Definition tickDistractor (rng : Rng) (s0 s : Session) : Session :=
  if Qle_bool (distractorTimer s) tenth then
    let nextPhase := phase s0 + 1 in
    let s := set_phaseMazes 0 (set_phase nextPhase (set_distractorTimer 0 s)) in
    if nextPhase =? 2 then set_tutorialStep stepPhase2 (set_gameState tutorial s)
    else if nextPhase =? 3 then set_tutorialStep stepPhase3 (set_gameState tutorial s)
    else initGame rng playing s
  else set_distractorTimer (Double.sub (distractorTimer s) tenth) s.

(** the body of the [setInterval(..., 100)] callback; the interval exists
    only in the four states tested first *)
Definition tick (rng : Rng) (s0 : Session) : Session :=
  match gameState s0 with
  | playing =>
      let '(s, _) := tickTrap rng s0 (tickWipe s0 s0) in
      tickPhaseClock s0 (set_time (Double.add (time s) tenth) s)
  | practice =>
      let '(s, rng) := tickTrap rng s0 (tickWipe s0 s0) in
      tickPractice rng s
  | shop => tickShop s0
  | distractor => tickDistractor rng s0 s0
  | _ => s0
  end.

(** *** The 16 ms movement tick *)

(** [Math.max(1, Math.min(5, Math.floor(30 / (timeRef.current + 1))))] *)
Definition earned (elapsed : Q) : Z :=
  Z.max 1 (Z.min 5 (Qfloor (30 / (elapsed + 1)))).

(** [timeRef.current < 20 ? 1.0 : 0.5] *)
Definition bonus (elapsed : Q) : Q :=
  if Qlt_bool elapsed 20 then 1 else 1 # 2.

Definition freezeThreshold (f : Flash) : Q :=
  match f with yellow => 3 | red => 1 end.

(** [Math.min(d + b, 10)] *)
Definition raiseDifficulty (b d : Q) : Q :=
  if Qle_bool (d + b) 10 then (d + b)%Q else 10.

Definition winCheck (s0 : Session) (m : MazeData) (next : Q * Q) (s : Session) : Session :=
  let '(gx, gy) := gridCell next in
  if (gx =? px (end_ m)) && (gy =? py (end_ m)) then
    match gameState s0 with
    | practice => respawn practice s
    | playing =>
        set_difficulty (raiseDifficulty (bonus (time s0)) (difficulty s))
        (set_gameState won
        (set_phaseMazes (phaseMazes s + 1)
        (set_mazesCompleted (mazesCompleted s + 1)
        (set_coins (coins s + earned (time s0)) s))))
    | _ => s
    end
  else s.

(** the body of the [setInterval(..., 16)] callback.  [dx], [dy] are
    [Math.sin(targetAngle) * speed] and [-Math.cos(targetAngle) * speed];
    [isMoving] says whether a direction key is held.  The interval exists
    only in [playing] and [practice].  The sums [x + dx] and [y + dy] are
    taken exactly. *)
Definition moveTick (isMoving : bool) (dx dy : Q) (s0 : Session) : Session :=
  if isRunning (gameState s0) then
    match maze s0 with
    | Some m =>
        if isMoving then
          let '(x, y) := myPos s0 in
          match Collision.checkCollision (x + dx) y m, Collision.checkCollision x (y + dy) m with
          | Ok bx, Ok by_ =>
              let nextX := if bx then x else (x + dx)%Q in
              let nextY := if by_ then y else (y + dy)%Q in
              if (phase s0 =? 2) && Qle_bool (trapTimer s0) (freezeThreshold (phase2FlashType s0))
              then respawn (gameState s0) s0
              else set_myPos (nextX, nextY) (winCheck s0 m (nextX, nextY) s0)
          | _, _ => s0
          end
        else s0
    | None => s0
    end
  else s0.

(** *** Pursuer, traps, one-shot timers, handlers *)

(** the pursuer's 50 ms tick; [caught] is [dist < 10] *)
Definition aiTick (caught : bool) (s0 : Session) : Session :=
  if isRunning (gameState s0) && bool_decide (maze s0 <> None) && caught then
    if decide (gameState s0 = practice) then respawn practice s0
    else set_gameState lost s0
  else s0.

(** the phase-1 trap effect *)
Definition trapCheck (s0 : Session) : Session :=
  match maze s0 with
  | Some m =>
      if isRunning (gameState s0) && (phase s0 =? 1) then
        let '(gx, gy) := gridCell (myPos s0) in
        if existsb (Maze.trapAt gx gy) (traps m) && Qlt_bool (trapTimer s0) (1 # 2)
        then respawn (gameState s0) s0 else s0
      else s0
  | None => s0
  end.

(** the callback of [respawn]'s [setTimeout(..., 1000)] *)
Definition respawnFire (s : Session) : Session :=
  match pendingRespawns s with
  | [] => s
  | (targetState, pos) :: rest =>
      set_gameState targetState (set_myPos pos (set_pendingRespawns rest s))
  end.

(** the callback of the shop buttons' [setTimeout(..., 500)] *)
Definition shopConfirmFire (s : Session) : Session :=
  match pendingShopConfirms s with
  | O => s
  | S n => set_gameState distractor (set_pendingShopConfirms n s)
  end.

Definition shopFixed (s : Session) : Session :=
  if bool_decide (gameState s = shop) && (2 <=? coins s) && negb (shopChoiceTime s) then
    set_pendingShopConfirms (S (pendingShopConfirms s))
      (set_coins (coins s - 2) (set_shopChoiceTime true s))
  else s.

Definition shopGamble (rng : Rng) (s : Session) : Session :=
  if bool_decide (gameState s = shop) && (5 <=? coins s) && negb (shopChoiceTime s) then
    let '(win, _) := randCoin rng in
    set_pendingShopConfirms (S (pendingShopConfirms s))
      (set_coins (if win then coins s * 2 else 0) (set_shopChoiceTime true s))
  else s.

Definition startSession (s : Session) : Session :=
  if bool_decide (gameState s = lobby) && negb (String.eqb (subjectId s) EmptyString) then
    set_tutorialStep stepIntro (set_gameState tutorial s)
  else s.

Definition tutorialButton (rng : Rng) (s : Session) : Session :=
  if bool_decide (gameState s = tutorial) then
    match tutorialStep s with
    | stepIntro => set_tutorialStep stepExample s
    | stepExample | stepPhase2 | stepPhase3 =>
        set_practiceTimer (inject_Z PRACTICE_DURATION) (initGame rng practice s)
    | stepPractice => initGame rng playing s
    end
  else s.

Definition surveyComplete (rng : Rng) (s : Session) : Session :=
  if negb (surveyData s) && negb (bool_decide (gameState s = lobby)) then
    initGame rng practice
      (set_practiceTimer (inject_Z PRACTICE_DURATION) (set_surveyData true s))
  else s.

Definition nextIteration (rng : Rng) (s : Session) : Session :=
  if bool_decide (gameState s = won) || bool_decide (gameState s = lost)
  then initGame rng playing s else s.

(** [socket.onmessage], case [GAME_OVER] *)
Definition netGameOver (winnerIsMe : bool) (s : Session) : Session :=
  let s := set_gameState (if winnerIsMe then won else lost) s in
  if winnerIsMe then set_difficulty (raiseDifficulty (1 # 2) (difficulty s)) s else s.

(** [socket.onmessage], case [PLAYER_JOINED] *)
Definition netPlayerJoined (m : option MazeData) (s : Session) : Session :=
  match m, maze s with
  | Some m', None => set_maze (Some m') s
  | _, _ => s
  end.

(** Ctrl+Shift+S *)
Definition debugSkip (s : Session) : Session :=
  match gameState s with
  | playing => set_phaseTime tenth s
  | shop => set_shopTimer tenth s
  | practice => set_practiceTimer tenth s
  | distractor => set_distractorTimer tenth s
  | _ => s
  end.

(** Ctrl+Shift+C *)
Definition debugCoins (s : Session) : Session := set_coins (coins s + 10) s.

(** the host page's [SKIP_PHASE] command *)
Definition externalSkip (s : Session) : Session :=
  match gameState s with
  | playing => set_phaseTime tenth s
  | shop => set_shopTimer tenth s
  | _ => s
  end.

Definition setSubjectId (id : string) (s : Session) : Session :=
  if bool_decide (gameState s = lobby) then set_subjectId id s else s.

Inductive Event :=
| Tick (rng : Rng)
| MoveTick (isMoving : bool) (dx dy : Q)
| AiTick (caught : bool)
| TrapCheck
| RespawnFire
| ShopConfirmFire
| ShopFixed
| ShopGamble (rng : Rng)
| SetSubjectId (id : string)
| StartSession
| TutorialButton (rng : Rng)
| SurveyComplete (rng : Rng)
| NextIteration (rng : Rng)
| NetGameOver (winnerIsMe : bool)
| NetPlayerJoined (m : option MazeData)
| DebugSkip
| DebugCoins
| ExternalSkip.

Definition step (s : Session) (e : Event) : Session :=
  match e with
  | Tick rng => tick rng s
  | MoveTick isMoving dx dy => moveTick isMoving dx dy s
  | AiTick caught => aiTick caught s
  | TrapCheck => trapCheck s
  | RespawnFire => respawnFire s
  | ShopConfirmFire => shopConfirmFire s
  | ShopFixed => shopFixed s
  | ShopGamble rng => shopGamble rng s
  | SetSubjectId id => setSubjectId id s
  | StartSession => startSession s
  | TutorialButton rng => tutorialButton rng s
  | SurveyComplete rng => surveyComplete rng s
  | NextIteration rng => nextIteration rng s
  | NetGameOver winnerIsMe => netGameOver winnerIsMe s
  | NetPlayerJoined m => netPlayerJoined m s
  | DebugSkip => debugSkip s
  | DebugCoins => debugCoins s
  | ExternalSkip => externalSkip s
  end.

Definition run (s : Session) (es : list Event) : Session := foldl step s es.

Inductive reachable : Session -> Prop :=
| reach_initial : reachable initial
| reach_step s e : reachable s -> reachable (step s e).

End Game.

(** ** The relay server

    [rooms] is the server's [Map]; the two variables of each connection's
    closure ([currentRoomId], [playerId]) are kept with the connection.  A
    handler returns the new server state and the list of messages it sent,
    each with the connection it was sent to.  The fields of an incoming
    message are typed as in the wire protocol. *)

Module Relay.

Record PlayerEntry := mkEntry {
  entryId : string;
  entryX : Q;
  entryY : Q;
  entryAngle : Q;
  entryColor : string
}.

(** [room.players] is a plain object used as a map: [players] holds its
    own properties (what [Object.keys] counts, [delete] removes and
    [JSON.stringify] sends); [playersProto] is its prototype once an
    assignment under the name ["__proto__"] has replaced
    [Object.prototype] by an entry. *)
Record Room := mkRoom {
  players : gmap string PlayerEntry;
  playersProto : option PlayerEntry;
  roomMaze : option MazeData
}.

Record Conn := mkConn {
  connId : nat;
  currentRoomId : option string;
  playerId : option string;
  isOpen : bool            (* [readyState === WebSocket.OPEN] *)
}.

(** [objectProto]: the [x], [y], [angle] that an UPDATE_POSITION under
    the name ["__proto__"] has written onto [Object.prototype] *)
Record Server := mkServer {
  rooms : gmap string Room;
  clients : list Conn;     (* [wss.clients] *)
  objectProto : option (Q * Q * Q)
}.

Inductive ServerMsg :=
| PLAYER_JOINED (ps : gmap string PlayerEntry) (m : option MazeData)
| STATE_UPDATE (ps : gmap string PlayerEntry)
| PLAYER_LEFT (p : option string)
| GAME_OVER (winnerId : option string) (time : Q).

(** what [JSON.parse(data)] yielded: nothing (it threw), [null], or a value
    with its [type] property (absent on a non-object) and the fields the
    handler reads *)
Record Fields := mkFields {
  fRoomId : string;
  fPlayerId : string;
  fMaze : option MazeData;
  fX : Q;
  fY : Q;
  fAngle : Q;
  fColor : string;
  fTime : Q
}.

Inductive Parsed :=
| JNull
| JValue (type : option string) (f : Fields).

(** a string used as a condition: the empty string is falsy *)
Definition truthy (o : option string) : bool :=
  match o with
  | Some s => negb (String.eqb s EmptyString)
  | None => false
  end.

(** a number used as a condition: zero is falsy *)
Definition truthyNumber (q : Q) : bool := negb (Qeq_bool q 0).

(** the function-valued properties of [Object.prototype] *)
Definition objectMethods : list string :=
  ["constructor"; "__defineGetter__"; "__defineSetter__"; "hasOwnProperty";
   "__lookupGetter__"; "__lookupSetter__"; "isPrototypeOf"; "propertyIsEnumerable";
   "toString"; "valueOf"; "toLocaleString"].

(** what [room.players[playerId]] evaluates to *)
Inductive Slot :=
| OwnEntry (e : PlayerEntry)      (* an own property: the player's entry *)
| ProtoEntry (e : PlayerEntry)    (* the entry that serves as prototype *)
| ObjectProto                     (* [Object.prototype] itself *)
| Method                          (* a function of [Object.prototype] *)
| Primitive (isTruthy : bool)     (* an inherited number or string *)
| Absent.                         (* [undefined] *)

(** a property read goes to the own properties, then to those of the
    prototype entry, then to [Object.prototype], whose ["__proto__"] is
    an accessor that answers the prototype of the object read from *)
Definition getPlayer (srv : Server) (room : Room) (pid : string) : Slot :=
  match players room !! pid with
  | Some e => OwnEntry e
  | None =>
      let inherited :=
        match playersProto room with
        | Some e =>
            if String.eqb pid "id" then Some (Primitive (truthy (Some (entryId e))))
            else if String.eqb pid "x" then Some (Primitive (truthyNumber (entryX e)))
            else if String.eqb pid "y" then Some (Primitive (truthyNumber (entryY e)))
            else if String.eqb pid "angle" then Some (Primitive (truthyNumber (entryAngle e)))
            else if String.eqb pid "color" then Some (Primitive (truthy (Some (entryColor e))))
            else None
        | None => None
        end in
      match inherited with
      | Some v => v
      | None =>
          if String.eqb pid "__proto__" then
            match playersProto room with
            | Some e => ProtoEntry e
            | None => ObjectProto
            end
          else if bool_decide (pid ∈ objectMethods) then Method
          else
            match objectProto srv with
            | Some (x, y, angle) =>
                if String.eqb pid "x" then Primitive (truthyNumber x)
                else if String.eqb pid "y" then Primitive (truthyNumber y)
                else if String.eqb pid "angle" then Primitive (truthyNumber angle)
                else Absent
            | None => Absent
            end
      end
  end.

(** [broadcastToRoom(roomId, message, excludeWs)] *)
Definition broadcastToRoom (srv : Server) (roomId : string) (message : ServerMsg)
    (excludeWs : option nat) : list (nat * ServerMsg) :=
  omap (fun client =>
          if isOpen client && negb (bool_decide (Some (connId client) = excludeWs))
          then Some (connId client, message) else None)
       (clients srv).

Definition findConn (srv : Server) (ws : nat) : option Conn :=
  List.find (fun c => Nat.eqb (connId c) ws) (clients srv).

Definition updConn (ws : nat) (f : Conn -> Conn) (srv : Server) : Server :=
  mkServer (rooms srv)
           ((fun c => if Nat.eqb (connId c) ws then f c else c) <$> clients srv)
           (objectProto srv).

(** [room.players[playerId] = {...}]: an own property, except under the
    name ["__proto__"], where the setter of [Object.prototype] makes the
    entry the prototype of [room.players] and no property is added *)
Definition setPlayer (room : Room) (pid : string) (e : PlayerEntry) : Room :=
  if String.eqb pid "__proto__" then mkRoom (players room) (Some e) (roomMaze room)
  else mkRoom (<[pid := e]> (players room)) (playersProto room) (roomMaze room).

Definition joinRoom (ws : nat) (f : Fields) (srv : Server) : Server * list (nat * ServerMsg) :=
  let srv := updConn ws (fun c => mkConn (connId c) (Some (fRoomId f)) (Some (fPlayerId f)) (isOpen c)) srv in
  let room := default (mkRoom ∅ None (fMaze f)) (rooms srv !! fRoomId f) in
  let room := setPlayer room (fPlayerId f)
                (mkEntry (fPlayerId f) (fX f) (fY f) 0 (fColor f)) in
  let srv := mkServer (<[fRoomId f := room]> (rooms srv)) (clients srv) (objectProto srv) in
  (srv, broadcastToRoom srv (fRoomId f) (PLAYER_JOINED (players room) (roomMaze room)) None).

(** the three assignments [room.players[playerId].x = message.x], [.y],
    [.angle] and the broadcast that follows them.  On an entry they
    update it; on a function they leave the relay as it is; on an
    inherited number or string the first one throws (module code is
    strict). *)
Definition updatePosition (ws : nat) (c : Conn) (f : Fields) (srv : Server)
    : Res (Server * list (nat * ServerMsg)) :=
  match currentRoomId c, playerId c with
  | Some rid, Some pid =>
      if truthy (Some rid) && truthy (Some pid) then
        match rooms srv !! rid with
        | Some room =>
            let moved e := mkEntry (entryId e) (fX f) (fY f) (fAngle f) (entryColor e) in
            let send srv room :=
              Ok (srv, broadcastToRoom srv rid (STATE_UPDATE (players room)) (Some ws)) in
            match getPlayer srv room pid with
            | OwnEntry e =>
                let room := mkRoom (<[pid := moved e]> (players room))
                                   (playersProto room) (roomMaze room) in
                send (mkServer (<[rid := room]> (rooms srv)) (clients srv) (objectProto srv))
                     room
            | ProtoEntry e =>
                let room := mkRoom (players room) (Some (moved e)) (roomMaze room) in
                send (mkServer (<[rid := room]> (rooms srv)) (clients srv) (objectProto srv))
                     room
            | ObjectProto =>
                send (mkServer (rooms srv) (clients srv) (Some (fX f, fY f, fAngle f))) room
            | Method => send srv room
            | Primitive true => Throw TypeError
            | Primitive false | Absent => Ok (srv, [])
            end
        | None => Ok (srv, [])
        end
      else Ok (srv, [])
  | _, _ => Ok (srv, [])
  end.

Definition win (c : Conn) (f : Fields) (srv : Server) : Server * list (nat * ServerMsg) :=
  match currentRoomId c with
  | Some rid =>
      if truthy (Some rid)
      then (srv, broadcastToRoom srv rid (GAME_OVER (playerId c) (fTime f)) None)
      else (srv, [])
  | None => (srv, [])
  end.

(** [ws.on("message", ...)] on connection [ws] *)
Definition onMessage (srv : Server) (ws : nat) (data : option Parsed)
    : Res (Server * list (nat * ServerMsg)) :=
  match findConn srv ws with
  | None => Ok (srv, [])
  | Some c =>
      match data with
      | None => Throw SyntaxError
      | Some JNull => Throw TypeError
      | Some (JValue type f) =>
          if bool_decide (type = Some "JOIN_ROOM") then Ok (joinRoom ws f srv)
          else if bool_decide (type = Some "UPDATE_POSITION") then updatePosition ws c f srv
          else if bool_decide (type = Some "WIN") then Ok (win c f srv)
          else Ok (srv, [])
      end
  end.

(** [ws.on("close", ...)]: the socket is no longer open when the handler
    runs *)
Definition onClose (srv : Server) (ws : nat) : Server * list (nat * ServerMsg) :=
  match findConn srv ws with
  | None => (srv, [])
  | Some c =>
      let srv := updConn ws (fun c => mkConn (connId c) (currentRoomId c) (playerId c) false) srv in
      match currentRoomId c, playerId c with
      | Some rid, Some pid =>
          if truthy (Some rid) && truthy (Some pid) then
            match rooms srv !! rid with
            | Some room =>
                let ps := delete pid (players room) in
                if bool_decide (size ps = O) then
                  (mkServer (delete rid (rooms srv)) (clients srv) (objectProto srv), [])
                else
                  let srv := mkServer (<[rid := mkRoom ps (playersProto room) (roomMaze room)]> (rooms srv))
                                      (clients srv) (objectProto srv) in
                  (srv, broadcastToRoom srv rid (PLAYER_LEFT (Some pid)) None)
            | None => (srv, [])
            end
          else (srv, [])
      | _, _ => (srv, [])
      end
  end.

(** [wss.on("connection", ...)] *)
Definition onConnection (srv : Server) (ws : nat) : Server :=
  mkServer (rooms srv) (clients srv ++ [mkConn ws None None true]) (objectProto srv).

Definition empty : Server := mkServer ∅ [] None.

(** connection [ws] has joined room [rid] *)
Definition joined (srv : Server) (ws : nat) (rid : string) : Prop :=
  exists c, c ∈ clients srv /\ connId c = ws /\ currentRoomId c = Some rid.

End Relay.

(** ** Specification-level views of the arrays *)

(** the element at column [x] of row [y], if there is one *)
Definition cell {A : Type} (g : list (list A)) (x y : Z) : option A :=
  if (x <? 0) || (y <? 0) then None
  else g !! Z.to_nat y ≫= fun row => row !! Z.to_nat x.

(** [h] rows, each at least [w] long *)
Definition dims {A : Type} (g : list (list A)) (w h : Z) : Prop :=
  length g = Z.to_nat h /\ Forall (fun row => (Z.to_nat w <= length row)%nat) g.

Definition b2n (b : bool) : nat := if b then 1%nat else 0%nat.

Fixpoint countRow {A : Type} (P : A -> bool) (row : list A) : nat :=
  match row with
  | [] => O
  | a :: row' => ((if P a then 1 else 0) + countRow P row')%nat
  end.

Fixpoint count2 {A : Type} (P : A -> bool) (g : list (list A)) : nat :=
  match g with
  | [] => O
  | row :: g' => (countRow P row + count2 P g')%nat
  end.

(** floor cells and 4-directional reachability from a source cell *)
Definition isFloor (g : list (list Z)) (p : Z * Z) : Prop := cell g p.1 p.2 = Some 0.

Definition adjacent (p q : Z * Z) : Prop :=
  Z.abs (p.1 - q.1) + Z.abs (p.2 - q.2) = 1.

Inductive reach (g : list (list Z)) (src : Z * Z) : Z * Z -> Prop :=
| reach_src : isFloor g src -> reach g src src
| reach_next p q : reach g src p -> adjacent p q -> isFloor g q -> reach g src q.

Definition connected (g : list (list Z)) (src : Z * Z) : Prop :=
  forall p, isFloor g p -> reach g src p.

Definition isOne (c : Z) : bool := c =? 1.

(** the number of wall cells *)
Definition walls (g : list (list Z)) : nat := count2 isOne g.

(** there are no cells outside the announced dimensions *)
Definition bounded {A : Type} (g : list (list A)) (w h : Z) : Prop :=
  forall x y c, cell g x y = Some c -> inBounds w h x y = true.

(** every cell holds 0 or 1 *)
Definition binary (g : list (list Z)) : Prop :=
  forall x y c, cell g x y = Some c -> c = 0 \/ c = 1.

(** a trap that is neither on the start cell nor on the end cell [e] *)
Definition trapOk (e : Point) (t : TrapSquare) : Prop :=
  (trapX t, trapY t) <> (0, 0) /\ (trapX t, trapY t) <> (px e, py e).

Definition isVisitedCell (v : list (list bool)) (c : Z * Z) : Prop :=
  cell v c.1 c.2 = Some true.

Definition unvisited (v : list (list bool)) : nat := count2 negb v.

(** the floor neighbours of [c] in the directions [ds] that lie inside the
    grid have been visited *)
Definition expanded (g : list (list Z)) (w h : Z) (v : list (list bool)) (c : Z * Z)
    (ds : list (Z * Z)) : Prop :=
  forall d, d ∈ ds -> inBounds w h (c.1 + d.1) (c.2 + d.2) = true ->
            isFloor g (c.1 + d.1, c.2 + d.2) -> isVisitedCell v (c.1 + d.1, c.2 + d.2).

Definition closedAt (g : list (list Z)) (w h : Z) (v : list (list bool)) (c : Z * Z) : Prop :=
  expanded g w h v c Maze.dirs4.

(** the invariant of the search: [live] are the cells still to be expanded *)
Record bfsInv (g : list (list Z)) (w h : Z) (s : Maze.Bfs) (live : list Point) : Prop := mkBfsInv {
  bi_dims : dims (Maze.visited s) w h;
  bi_parent : forall k p, Maze.parent s !! k = Some p ->
    isVisitedCell (Maze.visited s) k /\ isVisitedCell (Maze.visited s) (Maze.key p);
  bi_live : forall q, q ∈ live -> isVisitedCell (Maze.visited s) (Maze.key q);
  bi_rank : exists rank : Z * Z -> nat,
    (forall k p, Maze.parent s !! k = Some p ->
       (rank (Maze.key p) < rank k <= size (Maze.parent s))%nat) /\
    (forall q, q ∈ live -> (rank (Maze.key q) <= size (Maze.parent s))%nat);
  bi_root : isVisitedCell (Maze.visited s) (0, 0) /\ Maze.parent s !! (0, 0) = None;
  bi_dom : forall c, isVisitedCell (Maze.visited s) c ->
    c = (0, 0) \/ is_Some (Maze.parent s !! c);
  bi_closed : forall c, isVisitedCell (Maze.visited s) c ->
    (exists q, q ∈ live /\ Maze.key q = c) \/ closedAt g w h (Maze.visited s) c
}.

(** the measure that one pass of the search loop lowers by one *)
Definition budget (s : Maze.Bfs) : nat :=
  (unvisited (Maze.visited s) + length (Maze.queue s))%nat.

(** the invariant while the neighbours of [curr] are being visited, [seen]
    being the directions already tried *)
Definition visiting (g : list (list Z)) (w h : Z) (curr : Point) (M : nat)
    (seen : list (Z * Z)) (s : Maze.Bfs) : Prop :=
  bfsInv g w h s (curr :: Maze.queue s) /\ (budget s <= M)%nat /\
  expanded g w h (Maze.visited s) (Maze.key curr) seen.

(** ** Specification-level views of the collision test *)

(** the corner [p] lies in a wall cell or outside the grid *)
Definition cornerHits (m : MazeData) (p : Q * Q) : Prop :=
  let gx := Collision.cellOf p.1 in
  let gy := Collision.cellOf p.2 in
  gx < 0 \/ gy < 0 \/ gx >= width m \/ gy >= height m \/ cell (grid m) gx gy = Some 1.



(** the grid has the dimensions the maze announces *)
Definition wellFormed (m : MazeData) : Prop := dims (grid m) (width m) (height m).

(** ** Specification-level views of the session *)

(** a maze as the generator makes them for the game: it starts at the
    origin and ends elsewhere *)
Definition goodMaze (m : MazeData) : Prop :=
  start m = mkPoint 0 0 /\ (px (end_ m), py (end_ m)) <> (0, 0).

(** what every reachable session satisfies, as a property of the fields it
    depends on *)
Definition coreInv (gs : Game.GameState) (mz : option MazeData) (pos : Q * Q) (d : Q)
    (pend : list (Game.GameState * (Q * Q))) : Prop :=
  (1 <= d <= 10)%Q /\
  (pend <> [] \/ Game.isRunning gs = true -> exists m, mz = Some m /\ goodMaze m) /\
  Forall (fun r => Game.isRunning r.1 = true /\ Game.gridCell r.2 = (0, 0)) pend /\
  (Game.isRunning gs = true -> forall m, mz = Some m ->
     Game.gridCell pos <> (px (end_ m), py (end_ m))).

Definition sessionInv (s : Game.Session) : Prop :=
  coreInv (Game.gameState s) (Game.maze s) (Game.myPos s) (Game.difficulty s)
          (Game.pendingRespawns s).

(** the events that are ticks of one of the three intervals *)
Definition isTick (e : Game.Event) : Prop :=
  match e with
  | Game.Tick _ | Game.MoveTick _ _ _ | Game.AiTick _ => True
  | _ => False
  end.

(** ** Sample sessions *)

Module GameSamples.
Import Game.

(** a session brought into practice with the practice timer about to
    expire *)
Definition practiceEnding : Session :=
  run initial [SetSubjectId "s1"; StartSession; SurveyComplete [3%nat]; DebugSkip].

(** the second shop choice is confirmed by its one-shot timer only after
    the skip key has already ended the shop and the distractor *)
Definition lateShopConfirm : list Event :=
  [SetSubjectId "s1"; StartSession; SurveyComplete [];
   DebugSkip; Tick []; DebugCoins;
   DebugSkip; Tick []; DebugSkip; Tick []; DebugSkip; Tick [];
   TutorialButton []; DebugSkip; Tick []; DebugSkip; Tick [];
   ShopFixed; DebugSkip; Tick []; DebugSkip; Tick [];
   ShopConfirmFire; Tick [];
   DebugSkip; Tick []].

(** twenty-two GAME_OVER notices naming this player *)
Definition manyWins : list Event := replicate 22 (NetGameOver true).
End GameSamples.

(** the message types the relay's [switch] has a case for *)
Definition knownType (type : option string) : Prop :=
  type = Some "JOIN_ROOM" \/ type = Some "UPDATE_POSITION" \/ type = Some "WIN".

(** ** Sample inputs of the relay *)

Module RelaySamples.
Import Relay.

Definition joinA : Fields := mkFields "A" "p1" None 20 20 0 "red" 0.
Definition joinB : Fields := mkFields "B" "p2" None 20 20 0 "blue" 0.

(** two connections; the first has joined room ["A"] *)
Definition twoClients : Server := onConnection (onConnection empty 0) 1.
Definition afterJoinA : Server := (joinRoom 0 joinA twoClients).1.
Definition afterJoinB : Server := (joinRoom 1 joinB afterJoinA).1.

Definition playersOfB : gmap string PlayerEntry :=
  {[ "p2" := mkEntry "p2" 20 20 0 "blue" ]}.
End RelaySamples.

(** ** Sample mazes and races *)

Module MazeSamples.
(** a grid whose only floor cell is walled in on every side *)
Definition island : MazeData :=
  mkMaze [[1; 1; 1]; [1; 0; 1]; [1; 1; 1]] 3 3 (mkPoint 1 1) (mkPoint 1 1) [] [].

(** a stream of random draws long enough for the carve and the traps of a
    13 x 13 maze *)
Definition draws : Rng := (fun i => (i * 7 + 3) mod 24)%nat <$> seq 0 90.
End MazeSamples.

Module RaceSamples.
Import Game.

(** from the lobby to the first race, the practice being skipped *)
Definition toPlaying : list Event :=
  [SetSubjectId "s1"; StartSession; SurveyComplete []; DebugSkip; Tick []].

(** [n] movement ticks with a key held, at the base speed *)
Definition moves (n : nat) (dx dy : Q) : list Event := replicate n (MoveTick true dx dy).

(** down one corridor, across, up the next one, across *)
Definition lap : list Event :=
  moves 120 0 4 ++ moves 20 4 0 ++ moves 120 0 (-4) ++ moves 20 4 0.

(** ninety ticks of the 100 ms timer (the clock then reads
    8.999999999999984), then the run through the maze that
    the empty stream of draws generates, up to one step before its end
    cell *)
Definition approach : list Event :=
  toPlaying ++ replicate 90 (Tick []) ++ lap ++ lap ++ lap ++ moves 114 0 4.
End RaceSamples.

(** ** Runs of the relay *)

Module RelayRun.
Import Relay.

(** the states the relay goes through: connections are accepted under
    fresh identities, messages arrive on open connections and are
    handled without an exception, open connections close *)
Inductive reachable : Server -> Prop :=
| reach_start : reachable empty
| reach_connection srv ws :
    reachable srv -> (forall c, c ∈ clients srv -> connId c <> ws) ->
    reachable (onConnection srv ws)
| reach_message srv ws c data r :
    reachable srv -> findConn srv ws = Some c -> isOpen c = true ->
    onMessage srv ws data = Ok r -> reachable r.1
| reach_close srv ws c :
    reachable srv -> findConn srv ws = Some c -> isOpen c = true ->
    reachable (onClose srv ws).1.
End RelayRun.

(** ** Further specification-level views of the maze *)

(** a trap as the sampling loop makes it: on a floor cell inside the grid,
    named after its cell, in state [safe] *)
Definition trapPlaced (g : list (list Z)) (w h : Z) (t : TrapSquare) : Prop :=
  inBounds w h (trapX t) (trapY t) = true /\ cell g (trapX t) (trapY t) = Some 0 /\
  trapId t = pretty (trapX t) +:+ "-" +:+ pretty (trapY t) /\ trapState t = safe.

(** consecutive cells of the list are neighbours *)
Definition linked (l : list Point) : Prop :=
  forall i a b, l !! i = Some a -> l !! S i = Some b -> adjacent (Maze.key a) (Maze.key b).

(** the ring of the end-cell scan on which a cell lies: its distance from
    the bottom-right corner, the larger of the two coordinate distances *)
Definition ringOf (w h : Z) (c : Z * Z) : Z := Z.max (w - 1 - c.1) (h - 1 - c.2).

(** the cells the carve steps on: both coordinates even *)
Definition onLattice (c : Z * Z) : Prop := Z.even c.1 = true /\ Z.even c.2 = true.

(** the cells two steps from [c] that lie inside the grid are floor *)
Definition carvedAround (g : list (list Z)) (w h : Z) (c : Z * Z) : Prop :=
  forall d, d ∈ Maze.directions -> inBounds w h (c.1 + d.1) (c.2 + d.2) = true ->
            isFloor g (c.1 + d.1, c.2 + d.2).

(** the parent pointers of the search lead from a floor cell inside the
    grid to a neighbour *)
Definition parentsLinked (g : list (list Z)) (w h : Z) (par : gmap (Z * Z) Point) : Prop :=
  forall k p, par !! k = Some p ->
    adjacent (Maze.key p) k /\ isFloor g k /\ inBounds w h k.1 k.2 = true.

Definition isZero (c : Z) : bool := c =? 0.

(** the number of floor cells *)
Definition floors (g : list (list Z)) : nat := count2 isZero g.

(** the lattice cells inside a [w] by [h] grid *)
Definition latticeCells (w h : Z) : list (Z * Z) :=
  y ← seqZ 0 ((h + 1) / 2); (fun x => (2 * x, 2 * y)) <$> seqZ 0 ((w + 1) / 2).

(** how many of them are floor *)
Definition latticeFloors (g : list (list Z)) (w h : Z) : nat :=
  length (filter (fun c => cell g c.1 c.2 = Some 0) (latticeCells w h)).

(** a carved cell between two lattice cells has both of them carved *)
Definition corridors (g : list (list Z)) : Prop :=
  forall c d, onLattice c -> d ∈ Maze.directions ->
    isFloor g (c.1 + d.1 / 2, c.2 + d.2 / 2) ->
    isFloor g c /\ isFloor g (c.1 + d.1, c.2 + d.2).

(** ** Further specification-level views of the session *)

(** the cell the position lies in is a floor cell of the grid *)
Definition onFloor (m : MazeData) (pos : Q * Q) : Prop :=
  inBounds (width m) (height m) (Game.gridCell pos).1 (Game.gridCell pos).2 = true /\
  cell (grid m) (Game.gridCell pos).1 (Game.gridCell pos).2 = Some 0.

(** a maze as [initGame] has them generated: square, with a side between
    13 and 27 *)
Definition sessionMaze (m : MazeData) : Prop :=
  exists fuel rng n d, 13 <= n <= 27 /\ Maze.generateMaze fuel rng n n d = Ok m.

(** a movement tick that displaces by at most the margin of the collision
    test along one of the axes; the speed of the client is
    [4 * (1 + (difficulty - 1) * 0.05)], at most 5.8 *)
Definition gentle (e : Game.Event) : Prop :=
  match e with
  | Game.MoveTick _ dx dy => (-12 <= dx /\ dx <= 12)%Q \/ (-12 <= dy /\ dy <= 12)%Q
  | _ => True
  end.

(** while the session runs, or a respawn is pending, the maze is a
    generated one; a pending respawn leads to the centre of the cell
    (0, 0); while the session runs the player is on a floor cell *)
Definition arenaCore (gs : Game.GameState) (mz : option MazeData) (pos : Q * Q)
    (pend : list (Game.GameState * (Q * Q))) : Prop :=
  (pend <> [] \/ Game.isRunning gs = true -> exists m, mz = Some m /\ sessionMaze m) /\
  Forall (fun r => r.2 = (inject_Z 20, inject_Z 20)) pend /\
  (Game.isRunning gs = true -> forall m, mz = Some m -> onFloor m pos).

Definition arenaInv (s : Game.Session) : Prop :=
  arenaCore (Game.gameState s) (Game.maze s) (Game.myPos s) (Game.pendingRespawns s).

(** ** The stems of the music (the updater of [setPhaseMazes] in the win
    check) *)

(** [phaseRef.current === 1 ? 4 : phaseRef.current === 2 ? 2 : 1] *)
Definition stemThreshold (phase : Z) : Z :=
  if phase =? 1 then 4 else if phase =? 2 then 2 else 1.

(** [Math.min(4, Math.floor(next * stemsPerMaze))] with
    [stemsPerMaze = 4 / threshold], which is 1, 2 or 4 *)
Definition activeStems (phase next : Z) : Z :=
  Z.min 4 (next * (4 / stemThreshold phase)).

(** [next >= threshold] *)
Definition triggerFlow (phase next : Z) : bool := stemThreshold phase <=? next.

(** * The audio survey (src/src/components/AudioSurvey.tsx) *)

Module Survey.

(** [type Genre = 'Rap' | 'Country' | 'Rock' | 'Classical' | 'Pop' | 'EDM'] *)
Inductive Genre := Rap | Country | Rock | Classical | Pop | EDM.

#[export] Instance Genre_eq_dec : EqDecision Genre.
Proof. solve_decision. Defined.

Definition GENRES : list Genre := [Rap; Country; Rock; Classical; Pop; EDM].

(** a [Record<Genre, number>]: it always has the six keys, in the order
    of the literal it starts from *)
Definition Scores := Genre -> Z.

(** [{ Rap: 0, Country: 0, Rock: 0, Classical: 0, Pop: 0, EDM: 0 }] *)
Definition unset : Scores := fun _ => 0.

(** [{ ...prev, [genre]: v }] *)
Definition assign (prev : Scores) (genre : Genre) (v : Z) : Scores :=
  fun g => if decide (g = genre) then v else prev g.

Definition handleRank (prev : Scores) (genre : Genre) (rank : Z) : Scores :=
  assign prev genre rank.

Definition handleRate (prev : Scores) (genre : Genre) (rating : Z) : Scores :=
  assign prev genre rating.

(** [Object.values] *)
Definition values (r : Scores) : list Z := r <$> GENRES.

(** [Object.values(rankings).every(r => r > 0) &&
     new Set(Object.values(rankings)).size === GENRES.length] *)
Definition isRankingComplete (rankings : Scores) : bool :=
  forallb (fun r => 0 <? r) (values rankings) &&
  (length (remove_dups (values rankings)) =? length GENRES)%nat.

(** [Object.values(ratings).every(r => r > 0)] *)
Definition isRatingComplete (ratings : Scores) : bool :=
  forallb (fun r => 0 <? r) (values ratings).

(** [Array.prototype.sort] with a comparator: a stable sort, an element
    stays before the later ones it does not compare greater than *)
Fixpoint insertBy {A} (cmp : A -> A -> Z) (x : A) (l : list A) : list A :=
  match l with
  | [] => [x]
  | y :: l' => if cmp x y <=? 0 then x :: l else y :: insertBy cmp x l'
  end.

Definition sort {A} (cmp : A -> A -> Z) (l : list A) : list A :=
  foldr (insertBy cmp) [] l.

(** [Array.prototype.reduce] without an initial value: the first element
    starts the accumulator; on an empty array it throws *)
Definition reduce {A} (f : A -> A -> A) (l : list A) : option A :=
  match l with
  | [] => None
  | x :: l' => Some (foldl f x l')
  end.

(** [AudioSurveyData]; a genre read from an array by index may be
    [undefined] *)
Record AudioSurveyData := mkData {
  rankings : Scores;
  ratings : Scores;
  best : option Genre;
  worst : option Genre;
  neutral : option Genre;
}.

(** [finalize], the value handed to [onComplete] *)
Definition finalize (rankings ratings : Scores) : AudioSurveyData :=
  let sortedByRank := sort (fun a b => rankings a - rankings b) GENRES in
  let best := sortedByRank !! 0%nat in
  let worst := sortedByRank !! (length GENRES - 1)%nat in
  let median := 3 in
  let neutral :=
    reduce (fun prev curr =>
              if Z.abs (ratings curr - median) <? Z.abs (ratings prev - median)
              then curr else prev) GENRES in
  mkData rankings ratings best worst neutral.

(** the state of the component: the step shown and the two records *)
Inductive Step := ranking | rating.

#[export] Instance Step_eq_dec : EqDecision Step.
Proof. solve_decision. Defined.

Record Form := mkForm {
  step : Step;
  rankingsOf : Scores;
  ratingsOf : Scores;
}.

Definition initialForm : Form := mkForm ranking unset unset.

(** the buttons of the component: the rank buttons [1..6] of a genre and
    the continue button on the ranking step, the stars [1..5] of a genre
    and the initialize button on the rating step *)
Inductive Click :=
| RankButton (genre : Genre) (r : Z)
| ContinueButton
| StarButton (genre : Genre) (star : Z)
| InitializeButton.

(** a click: the next state and what [onComplete] receives.  A button
    that is not rendered, or is disabled, does nothing. *)
Definition click (f : Form) (c : Click) : Form * option AudioSurveyData :=
  match c with
  | RankButton genre r =>
      if bool_decide (step f = ranking) && bool_decide (r ∈ [1; 2; 3; 4; 5; 6]) then
        (mkForm (step f) (handleRank (rankingsOf f) genre r) (ratingsOf f), None)
      else (f, None)
  | ContinueButton =>
      if bool_decide (step f = ranking) && isRankingComplete (rankingsOf f) then
        (mkForm rating (rankingsOf f) (ratingsOf f), None)
      else (f, None)
  | StarButton genre star =>
      if bool_decide (step f = rating) && bool_decide (star ∈ [1; 2; 3; 4; 5]) then
        (mkForm (step f) (rankingsOf f) (handleRate (ratingsOf f) genre star), None)
      else (f, None)
  | InitializeButton =>
      if bool_decide (step f = rating) && isRatingComplete (ratingsOf f) then
        (f, Some (finalize (rankingsOf f) (ratingsOf f)))
      else (f, None)
  end.

(** the clicks up to the first completion: [onComplete] sets
    [surveyData], which unmounts the component *)
Fixpoint session (f : Form) (cs : list Click) : option AudioSurveyData :=
  match cs with
  | [] => None
  | c :: cs' =>
      match click f c with
      | (_, Some d) => Some d
      | (f', None) => session f' cs'
      end
  end.

(** what the buttons keep: ranks within 0..6, ratings within 0..5, and the
    rating step is shown only with a complete ranking *)
Definition formInv (f : Form) : Prop :=
  (forall g, 0 <= rankingsOf f g <= 6) /\
  (forall g, 0 <= ratingsOf f g <= 5) /\
  (step f = rating -> isRankingComplete (rankingsOf f) = true).

(** a list in ascending order of a key *)
Fixpoint ordered {A} (key : A -> Z) (l : list A) : Prop :=
  match l with
  | [] => True
  | x :: l' => Forall (fun y => key x <= key y) l' /\ ordered key l'
  end.

(** a full run through the form *)
Definition sampleClicks : list Click :=
  [RankButton Rap 3; RankButton Country 6; RankButton Rock 1;
   RankButton Classical 2; RankButton Pop 5; RankButton EDM 4;
   ContinueButton;
   StarButton Rap 5; StarButton Country 1; StarButton Rock 4;
   StarButton Classical 2; StarButton Pop 4; StarButton EDM 1;
   InitializeButton].

End Survey.

(** * Facts *)

(** ** The result monad and the random source *)

Lemma bind_Ok {A B : Type} (r : Res A) (f : A -> Res B) (b : B) :
  r ≫= f = Ok b -> exists a, r = Ok a /\ f a = Ok b.
Proof. destruct r; simpl; intros H; try discriminate. eauto. Qed.

Lemma mbind_Ok {A B : Type} (a : A) (f : A -> Res B) : Ok a ≫= f = f a.
Proof. done. Qed.

Lemma bind_fuel {A B : Type} (r : Res A) (f : A -> Res B) :
  r <> OutOfFuel -> (forall a, r = Ok a -> f a <> OutOfFuel) -> r ≫= f <> OutOfFuel.
Proof. destruct r; simpl; intros H1 H2; auto. Qed.

Lemma permute_Permutation {A : Type} (n k : nat) (l : list A) :
  n = length l -> permute n k l ≡ₚ l.
Proof.
  revert k l. induction n as [|n IH]; intros k l Hn.
  - destruct l; [reflexivity | discriminate].
  - simpl. destruct l as [|a l]; [discriminate|].
    assert (Hlt : (k mod length (a :: l) < length (a :: l))%nat)
      by (apply Nat.mod_upper_bound; simpl; lia).
    destruct (lookup_lt_is_Some_2 _ _ Hlt) as [b Hb]. rewrite Hb.
    etrans; [|symmetry; apply (delete_Permutation _ _ _ Hb)]. constructor.
    apply IH. rewrite length_delete by eauto. simpl in *. lia.
Qed.

Lemma shuffle_Permutation {A : Type} (l : list A) (rng : Rng) :
  (shuffle l rng).1 ≡ₚ l.
Proof.
  unfold shuffle. destruct (draw rng) as [k rng']. simpl.
  by apply permute_Permutation.
Qed.

(** ** Two-dimensional arrays *)

Section Arr2Facts.
Context {A : Type} (hole : A).
Implicit Types (g : list (list A)) (row : list A) (x y : Z).

Lemma readCell_fuel g x y : readCell g x y <> OutOfFuel.
Proof.
  unfold readCell, getRow. destruct (y <? 0); [discriminate|].
  destruct (g !! Z.to_nat y); discriminate.
Qed.

Lemma readCell_Ok g x y c :
  readCell g x y = Ok c -> c = cell g x y /\ 0 <= y /\ is_Some (g !! Z.to_nat y).
Proof.
  unfold readCell, getRow, cell. destruct (Z.ltb_spec y 0); [discriminate|].
  destruct (g !! Z.to_nat y) as [row|] eqn:E; [|discriminate]. simpl.
  intros [= <-]. rewrite orb_false_r. split; [|eauto].
  by destruct (x <? 0).
Qed.

Lemma readCell_in g x y :
  0 <= y -> (Z.to_nat y < length g)%nat -> readCell g x y = Ok (cell g x y).
Proof.
  intros Hy Hlt. unfold readCell, getRow, cell.
  destruct (Z.ltb_spec y 0); [lia|].
  destruct (lookup_lt_is_Some_2 _ _ Hlt) as [row ->]. simpl.
  rewrite orb_false_r. by destruct (x <? 0).
Qed.

Lemma writeCell_fuel g x y v : writeCell hole g x y v <> OutOfFuel.
Proof.
  unfold writeCell, getRow. destruct (y <? 0); [discriminate|].
  destruct (g !! Z.to_nat y); discriminate.
Qed.

Lemma writeCell_Ok g x y v g' :
  writeCell hole g x y v = Ok g' ->
  exists row, 0 <= y /\ g !! Z.to_nat y = Some row /\
              g' = <[Z.to_nat y := setRow hole row x v]> g.
Proof.
  unfold writeCell, getRow. destruct (Z.ltb_spec y 0); [discriminate|].
  destruct (g !! Z.to_nat y) as [row|] eqn:E; [|discriminate]. simpl.
  intros [= <-]. eauto.
Qed.

Lemma writeCell_in g x y v row :
  0 <= y -> g !! Z.to_nat y = Some row ->
  writeCell hole g x y v = Ok (<[Z.to_nat y := setRow hole row x v]> g).
Proof.
  intros Hy E. unfold writeCell, getRow.
  destruct (Z.ltb_spec y 0); [lia|]. by rewrite E.
Qed.

Lemma setRow_length row x v : (length row <= length (setRow hole row x v))%nat.
Proof.
  unfold setRow. destruct (x <? 0); [lia|].
  destruct (Nat.ltb_spec (Z.to_nat x) (length row)).
  - by rewrite length_insert.
  - rewrite length_app. lia.
Qed.

Lemma setRow_same row x v : 0 <= x -> setRow hole row x v !! Z.to_nat x = Some v.
Proof.
  intros Hx. unfold setRow. destruct (Z.ltb_spec x 0); [lia|].
  destruct (Nat.ltb_spec (Z.to_nat x) (length row)).
  - by apply list_lookup_insert_eq.
  - rewrite lookup_app_r by lia. rewrite lookup_app_r; rewrite length_replicate; [|lia].
    by replace (Z.to_nat x - length row - (Z.to_nat x - length row))%nat with O by lia.
Qed.

Lemma setRow_keeps row x v i a :
  (0 <= x -> i <> Z.to_nat x) -> row !! i = Some a -> setRow hole row x v !! i = Some a.
Proof.
  intros Hi Ha. unfold setRow. destruct (Z.ltb_spec x 0); [done|].
  destruct (Nat.ltb_spec (Z.to_nat x) (length row)).
  - rewrite list_lookup_insert_ne; [done|]. intros ?. apply Hi; lia.
  - by apply lookup_app_l_Some.
Qed.

Lemma setRow_in row x v i :
  0 <= x -> (Z.to_nat x < length row)%nat -> i <> Z.to_nat x ->
  setRow hole row x v !! i = row !! i.
Proof.
  intros Hx Hlt Hi. unfold setRow. destruct (Z.ltb_spec x 0); [lia|].
  destruct (Nat.ltb_spec (Z.to_nat x) (length row)); [|lia].
  by rewrite list_lookup_insert_ne.
Qed.

Lemma cell_Some g x y a :
  cell g x y = Some a <->
  0 <= x /\ 0 <= y /\ exists row, g !! Z.to_nat y = Some row /\ row !! Z.to_nat x = Some a.
Proof.
  unfold cell. destruct (Z.ltb_spec x 0); simpl.
  { split; [discriminate | lia]. }
  destruct (Z.ltb_spec y 0); simpl.
  { split; [discriminate | lia]. }
  destruct (g !! Z.to_nat y) as [row|]; simpl.
  - split; [eauto 6|]. by intros (_ & _ & row' & [= <-] & ?).
  - split; [discriminate|]. by intros (_ & _ & row' & ? & _).
Qed.

(** a successful write leaves every other existing element in place *)
Lemma cell_write_keeps g x y v g' x' y' a :
  writeCell hole g x y v = Ok g' -> (x', y') <> (x, y) ->
  cell g x' y' = Some a -> cell g' x' y' = Some a.
Proof.
  intros (row & Hy & Hrow & ->)%writeCell_Ok Hne.
  rewrite !cell_Some. intros (Hx' & Hy' & row' & Hr' & Ha).
  split; [done|]. split; [done|].
  destruct (decide (Z.to_nat y = Z.to_nat y')) as [E|E].
  - rewrite <- E in *. rewrite Hrow in Hr'. injection Hr' as <-.
    exists (setRow hole row x v). split.
    + apply list_lookup_insert_eq. by eapply lookup_lt_Some.
    + apply setRow_keeps; [|done]. intros Hx ?. apply Hne. f_equal; lia.
  - exists row'. by rewrite list_lookup_insert_ne.
Qed.

Lemma cell_write_same g x y v g' :
  writeCell hole g x y v = Ok g' -> 0 <= x -> cell g' x y = Some v.
Proof.
  intros (row & Hy & Hrow & ->)%writeCell_Ok Hx. rewrite cell_Some.
  split; [done|]. split; [done|]. exists (setRow hole row x v). split.
  - apply list_lookup_insert_eq. by eapply lookup_lt_Some.
  - by apply setRow_same.
Qed.

(** writing over an existing element: the write succeeds and changes
    exactly that element *)
Lemma write_in_range g x y v :
  is_Some (cell g x y) ->
  exists g', writeCell hole g x y v = Ok g' /\
    forall x' y', cell g' x' y' =
      if decide (x' = x /\ y' = y) then Some v else cell g x' y'.
Proof.
  intros [a (Hx & Hy & row & Hrow & Ha)%cell_Some].
  eexists. split; [by apply writeCell_in|].
  intros x' y'. case_decide as E.
  - destruct E as [-> ->]. eapply cell_write_same; [by apply writeCell_in | done].
  - unfold cell. destruct ((x' <? 0) || (y' <? 0)) eqn:Eb; [done|].
    apply orb_false_iff in Eb as [Hx'%Z.ltb_ge Hy'%Z.ltb_ge].
    destruct (decide (Z.to_nat y = Z.to_nat y')) as [Ey|Ey].
    + rewrite <- Ey. rewrite list_lookup_insert_eq by (by eapply lookup_lt_Some).
      rewrite Hrow. simpl. apply setRow_in; [done | by eapply lookup_lt_Some |].
      intros ?. apply E. lia.
    + by rewrite list_lookup_insert_ne.
Qed.

Lemma dims_cell g w h x y :
  dims g w h -> inBounds w h x y = true -> is_Some (cell g x y).
Proof.
  intros [Hlen Hrows] Hb. unfold inBounds in Hb.
  apply andb_true_iff in Hb as [Hb Hy2%Z.ltb_lt].
  apply andb_true_iff in Hb as [Hb Hy1%Z.leb_le].
  apply andb_true_iff in Hb as [Hx1%Z.leb_le Hx2%Z.ltb_lt].
  assert (Hlt : (Z.to_nat y < length g)%nat) by lia.
  destruct (lookup_lt_is_Some_2 _ _ Hlt) as [row Hrow].
  assert (Hw : (Z.to_nat w <= length row)%nat).
  { rewrite Forall_forall in Hrows. apply Hrows. by eapply list_elem_of_lookup_2. }
  assert (Hlt' : (Z.to_nat x < length row)%nat) by lia.
  destruct (lookup_lt_is_Some_2 _ _ Hlt') as [a Ha].
  exists a. apply cell_Some. eauto 6.
Qed.

Lemma dims_write g w h x y v g' :
  dims g w h -> writeCell hole g x y v = Ok g' -> dims g' w h.
Proof.
  intros [Hlen Hrows] (row & Hy & Hrow & ->)%writeCell_Ok. split.
  - by rewrite length_insert.
  - apply Forall_insert; [done|].
    rewrite Forall_forall in Hrows.
    pose proof (Hrows row (list_elem_of_lookup_2 _ _ _ Hrow)).
    pose proof (setRow_length row x v). lia.
Qed.

Lemma dims_newArr2 w h (v : A) g :
  newArr2 w h v = Ok g -> dims g w h.
Proof.
  unfold newArr2. destruct (h <? 0); [discriminate|].
  destruct ((0 <? h) && (w <? 0)); [discriminate|]. intros [= <-]. split.
  - by rewrite length_replicate.
  - apply Forall_replicate. by rewrite length_replicate.
Qed.

(** *** Counting elements *)

Lemma countRow_app P row1 row2 :
  countRow P (row1 ++ row2) = (countRow P row1 + countRow P row2)%nat.
Proof. induction row1 as [|a r IH]; simpl; [done|]. rewrite IH. lia. Qed.

Lemma countRow_replicate P n (a : A) :
  countRow P (replicate n a) = (n * b2n (P a))%nat.
Proof. induction n as [|n IH]; simpl; [done|]. rewrite IH. unfold b2n. lia. Qed.

Lemma countRow_insert P row i a v :
  row !! i = Some a ->
  (countRow P (<[i:=v]> row) + b2n (P a) = countRow P row + b2n (P v))%nat.
Proof.
  revert i. induction row as [|b r IH]; intros [|i] Hi; simplify_eq/=.
  - unfold b2n. lia.
  - specialize (IH _ Hi). lia.
Qed.

Lemma count2_insert P g i row row' :
  g !! i = Some row ->
  (count2 P (<[i:=row']> g) + countRow P row = count2 P g + countRow P row')%nat.
Proof.
  revert i. induction g as [|r g IH]; intros [|i] Hi; simplify_eq/=.
  - lia.
  - specialize (IH _ Hi). lia.
Qed.

Lemma count2_replicate P n row :
  count2 P (replicate n row) = (n * countRow P row)%nat.
Proof. induction n as [|n IH]; simpl; [done|]. rewrite IH. lia. Qed.

(** overwriting an existing element *)
Lemma count2_write_in P g x y v g' a :
  cell g x y = Some a -> writeCell hole g x y v = Ok g' ->
  (count2 P g' + b2n (P a) = count2 P g + b2n (P v))%nat.
Proof.
  intros (Hx & Hy & row & Hrow & Ha)%cell_Some (row' & _ & Hrow' & ->)%writeCell_Ok.
  rewrite Hrow in Hrow'. injection Hrow' as <-.
  pose proof (count2_insert P g _ _ (setRow hole row x v) Hrow) as Hc.
  unfold setRow in *. destruct (Z.ltb_spec x 0); [lia|].
  destruct (Nat.ltb_spec (Z.to_nat x) (length row)).
  - pose proof (countRow_insert P _ _ _ v Ha). lia.
  - apply lookup_lt_Some in Ha. lia.
Qed.

(** a write of an uncounted value, holes being uncounted, never raises the
    count *)
Lemma count2_write_le P g x y v g' :
  P hole = false -> P v = false -> writeCell hole g x y v = Ok g' ->
  (count2 P g' <= count2 P g)%nat.
Proof.
  intros Hh Hv (row & Hy & Hrow & ->)%writeCell_Ok.
  pose proof (count2_insert P g _ _ (setRow hole row x v) Hrow) as Hc.
  enough (countRow P (setRow hole row x v) <= countRow P row)%nat by lia.
  unfold setRow. destruct (x <? 0); [done|].
  destruct (Nat.ltb_spec (Z.to_nat x) (length row)) as [Hlt|Hge].
  - destruct (lookup_lt_is_Some_2 _ _ Hlt) as [a Ha].
    pose proof (countRow_insert P _ _ _ v Ha). rewrite Hv in *. simpl in *. lia.
  - rewrite !countRow_app, countRow_replicate. simpl. rewrite Hh, Hv. simpl. lia.
Qed.
End Arr2Facts.

(** ** Rounding to doubles *)

Module DoubleFacts.
Import Double.

(** the rounding at literals and sums whose doubles are well known: 0.1,
    0.1 + 0.2 = 0.30000000000000004, the tie at 2^53 + 1 (to the even
    significand), the next odd integer, half of the least positive
    double, and a negative number *)
Lemma round64_examples :
  (round64 (1 # 10) == 3602879701896397 # 36028797018963968 /\
   add (round64 (1 # 10)) (round64 (2 # 10))
     == round64 (30000000000000004 # 100000000000000000) /\
   ~ add (round64 (1 # 10)) (round64 (2 # 10)) == round64 (3 # 10) /\
   round64 (inject_Z (2 ^ 53 + 1)) == inject_Z (2 ^ 53) /\
   round64 (inject_Z (2 ^ 53 + 3)) == inject_Z (2 ^ 53 + 4) /\
   round64 (2 ^ (-1075)) == 0 /\
   round64 (- (1 # 3)) == - round64 (1 # 3))%Q.
Proof.
  split_and!; by vm_compute.
Qed.

(** a number that is a double already is left as it is: integers, halves,
    and the sums of the collision test at a position on a grid line *)
Lemma round64_exact_examples :
  (round64 40 == 40 /\ round64 (1 # 2) == 1 # 2 /\ round64 (inject_Z (2 ^ 53)) == inject_Z (2 ^ 53) /\
   round64 (round64 (1 # 10)) == round64 (1 # 10))%Q.
Proof. split_and!; by vm_compute. Qed.
End DoubleFacts.

(** ** Loops *)

Lemma forEach_total {A S : Type} (I : S -> Prop) (body : S -> A -> Res S) (ds : list A) s :
  (forall s a, a ∈ ds -> I s -> exists s', body s a = Ok s' /\ I s') ->
  I s -> exists s', forEach body ds s = Ok s' /\ I s'.
Proof.
  revert s. induction ds as [|d ds IH]; intros s Hbody Hs; simpl; [eauto|].
  destruct (Hbody s d) as (s1 & -> & Hs1); [left | done |]. simpl.
  apply IH; [|done]. intros s2 a Ha. apply Hbody. by right.
Qed.

(** the same with an invariant that also sees the elements already
    processed *)
Lemma forEach_total_prefix {A S : Type} (I : list A -> S -> Prop)
    (body : S -> A -> Res S) (ds : list A) s :
  (forall seen s a, a ∈ ds -> I seen s -> exists s', body s a = Ok s' /\ I (seen ++ [a]) s') ->
  I [] s -> exists s', forEach body ds s = Ok s' /\ I ds s'.
Proof.
  enough (Hgen : forall rest seen s,
    (forall seen s a, a ∈ rest -> I seen s -> exists s', body s a = Ok s' /\ I (seen ++ [a]) s') ->
    I seen s -> exists s', forEach body rest s = Ok s' /\ I (seen ++ rest) s').
  { intros Hbody Hs. by apply (Hgen ds [] s). }
  clear ds s. induction rest as [|d rest IH]; intros seen s Hbody Hs; simpl.
  { rewrite app_nil_r. eauto. }
  destruct (Hbody seen s d) as (s1 & -> & Hs1); [left | done |]. simpl.
  replace (seen ++ d :: rest) with ((seen ++ [d]) ++ rest) by (by rewrite <- app_assoc).
  apply IH; [|done]. intros seen' s' a Ha. apply Hbody. by right.
Qed.

Lemma forEach_fuel {A S : Type} (I : S -> Prop) (body : S -> A -> Res S) (ds : list A) s :
  (forall s a, a ∈ ds -> I s ->
     body s a <> OutOfFuel /\ forall s', body s a = Ok s' -> I s') ->
  I s ->
  forEach body ds s <> OutOfFuel /\ forall s', forEach body ds s = Ok s' -> I s'.
Proof.
  revert s. induction ds as [|d ds IH]; intros s Hbody Hs; simpl.
  { split; [discriminate|]. by intros s' [= <-]. }
  destruct (Hbody s d) as [Hf Hi]; [left | done |].
  destruct (body s d) as [s1| |]; simpl; [|split; discriminate|done].
  apply IH; [|by apply Hi]. intros s2 a Ha. apply Hbody. by right.
Qed.

Lemma forEach_inv {A S : Type} (I : S -> Prop) (body : S -> A -> Res S) (ds : list A) s s' :
  (forall s a s', a ∈ ds -> I s -> body s a = Ok s' -> I s') ->
  I s -> forEach body ds s = Ok s' -> I s'.
Proof.
  revert s. induction ds as [|d ds IH]; intros s Hbody Hs; simpl.
  { by intros [= <-]. }
  intros (s1 & H1 & H2)%bind_Ok. eapply IH; [| |exact H2].
  - intros s2 a s3 Ha. apply Hbody. by right.
  - eapply Hbody; [left | done | done].
Qed.

(** ** Reachability *)

Lemma reach_floor g src p : reach g src p -> isFloor g p.
Proof. by destruct 1. Qed.

Lemma reach_mono g g' src p :
  (forall q, isFloor g q -> isFloor g' q) -> reach g src p -> reach g' src p.
Proof.
  intros Hsub. induction 1 as [Hs|p q _ IH Hadj Hq].
  - apply reach_src. by apply Hsub.
  - eapply reach_next; [exact IH | done | by apply Hsub].
Qed.

(** carving a corridor [a - m - n] off a floor cell [a] keeps the maze
    connected *)
Lemma connected_carve g g' src a m n :
  connected g src -> isFloor g a -> adjacent a m -> adjacent m n ->
  (forall p, isFloor g' p <-> p = m \/ p = n \/ isFloor g p) ->
  connected g' src.
Proof.
  intros Hc Ha Ham Hmn Hfl.
  assert (Hsub : forall q, isFloor g q -> isFloor g' q) by (intros q ?; apply Hfl; auto).
  assert (Hra : reach g' src a) by (eapply reach_mono; [exact Hsub | by apply Hc]).
  assert (Hrm : reach g' src m) by (eapply reach_next; [exact Hra | done | apply Hfl; auto]).
  intros p [->| [->|Hp]]%Hfl; [done | | eapply reach_mono; [exact Hsub | by apply Hc]].
  eapply reach_next; [exact Hrm | done | apply Hfl; auto].
Qed.

(** ** The carve *)

Module MazeFacts.
Import Maze.

Lemma cellIs_fuel g x y v : cellIs g x y v <> OutOfFuel.
Proof.
  unfold cellIs. apply bind_fuel; [apply readCell_fuel | discriminate].
Qed.

Lemma cellIs_Ok g x y v b :
  cellIs g x y v = Ok b -> (b = true <-> cell g x y = Some v).
Proof.
  unfold cellIs. intros (c & [-> _]%readCell_Ok & [= <-])%bind_Ok.
  apply bool_decide_eq_true.
Qed.

Lemma cellIs_in g w h x y v :
  dims g w h -> inBounds w h x y = true ->
  cellIs g x y v = Ok (bool_decide (cell g x y = Some v)).
Proof.
  intros Hd Hb. unfold cellIs.
  destruct (dims_cell g w h x y Hd Hb) as [a (Hx & Hy & row & Hrow & _)%cell_Some].
  rewrite readCell_in; [done | done | by eapply lookup_lt_Some].
Qed.

Lemma inBounds_spec w h x y :
  inBounds w h x y = true <-> 0 <= x < w /\ 0 <= y < h.
Proof. unfold inBounds. rewrite !andb_true_iff, !Z.leb_le, !Z.ltb_lt. lia. Qed.

(** the cell between [(x, y)] and the cell two steps away *)
Lemma directions_mid dx dy :
  (dx, dy) ∈ directions ->
  forall x y,
    adjacent (x, y) (x + dx / 2, y + dy / 2) /\
    adjacent (x + dx / 2, y + dy / 2) (x + dx, y + dy) /\
    (x + dx / 2, y + dy / 2) <> (x + dx, y + dy) /\
    (x + dx / 2, y + dy / 2) <> (x, y) /\
    forall w h, inBounds w h x y = true -> inBounds w h (x + dx) (y + dy) = true ->
                inBounds w h (x + dx / 2) (y + dy / 2) = true.
Proof.
  unfold directions. rewrite !elem_of_cons, elem_of_nil.
  intros [[= -> ->]|[[= -> ->]|[[= -> ->]|[[= -> ->]|[]]]]] x y;
    change (0 / 2) with 0; change (-2 / 2) with (-1); change (2 / 2) with 1;
    unfold adjacent; simpl;
    (repeat split; [lia | lia | intros H; injection H; intros; lia | intros H; injection H; intros; lia |
                    intros w h; rewrite !inBounds_spec; lia]).
Qed.

Lemma isOne_holes : isOne gridHole = false /\ isOne 0 = false.
Proof. done. Qed.

(** the carve never runs out of fuel when it starts with more fuel than
    there are wall cells, whatever the dimensions *)
Lemma walk_fuel w h fuel : forall x y g rng,
  (0 < fuel)%nat ->
  (forall g0, writeCell gridHole g x y 0 = Ok g0 -> (walls g0 < fuel)%nat) ->
  walk fuel w h x y (g, rng) <> OutOfFuel /\
  forall g' rng', walk fuel w h x y (g, rng) = Ok (g', rng') ->
    exists g0, writeCell gridHole g x y 0 = Ok g0 /\ (walls g' <= walls g0)%nat.
Proof.
  induction fuel as [|fuel IH]; intros x y g rng Hpos Hfuel; [lia|].
  simpl. destruct (writeCell gridHole g x y 0) as [g0|e|] eqn:E; simpl;
    [|split; discriminate| by destruct (writeCell_fuel gridHole g x y 0)].
  specialize (Hfuel g0 eq_refl).
  pose proof (shuffle_Permutation directions rng) as Hperm.
  destruct (shuffle directions rng) as [dirs rng1]. simpl in Hperm.
  pose (I := fun st : list (list Z) * Rng => (walls st.1 <= walls g0)%nat).
  destruct (forEach_fuel I (walkStep (walk fuel w h) w h x y) dirs (g0, rng1)) as [Hf Hi];
    [|unfold I; simpl; lia|].
  - intros [gi ri] [dx dy] Hd Hgi. unfold I in Hgi; simpl in Hgi.
    rewrite Hperm in Hd. destruct (directions_mid dx dy Hd x y) as (_ & _ & Hne & _).
    unfold walkStep. simpl.
    destruct (inBounds w h (x + dx) (y + dy)); [|split; [discriminate|by intros s' [= <-]]].
    pose proof (cellIs_fuel gi (x + dx) (y + dy) 1) as Hcf.
    destruct (cellIs gi (x + dx) (y + dy) 1) as [[|]| |] eqn:Ec; simpl;
      [|split; [discriminate|by intros s' [= <-]] |split; discriminate|done].
    apply cellIs_Ok in Ec. destruct Ec as [Ec _]. specialize (Ec eq_refl).
    destruct (writeCell gridHole gi (x + dx / 2) (y + dy / 2) 0) as [g1|e|] eqn:Ew; simpl;
      [|split; discriminate|by destruct (writeCell_fuel gridHole gi (x + dx / 2) (y + dy / 2) 0)].
    pose proof (count2_write_le gridHole isOne gi _ _ 0 g1 eq_refl eq_refl Ew) as Hle.
    assert (Hc1 : cell g1 (x + dx) (y + dy) = Some 1).
    { eapply cell_write_keeps; [exact Ew | | done]. intros [= ? ?]. by apply Hne; f_equal. }
    destruct (write_in_range gridHole g1 (x + dx) (y + dy) 0) as (g2 & Hw2 & _); [by eexists|].
    pose proof (count2_write_in gridHole isOne _ _ _ _ _ _ Hc1 Hw2) as Hc.
    unfold walls in *. simpl in Hc.
    destruct (IH (x + dx) (y + dy) g1 ri) as [Hf1 Hi1]; [lia| |].
    { intros g2' Hw2'. rewrite Hw2 in Hw2'. injection Hw2' as <-. lia. }
    split; [done|]. intros [g' r'] Hr. destruct (Hi1 _ _ Hr) as (g2' & Hw2' & Hle2).
    rewrite Hw2 in Hw2'. injection Hw2' as <-.
    unfold I. simpl. unfold walls. lia.
  - split; [done|]. intros g' rng' Hr. exists g0. split; [done|]. by apply (Hi _ Hr).
Qed.

Lemma floor_written (g g' : list (list Z)) x y :
  (forall x' y', cell g' x' y' = if decide (x' = x /\ y' = y) then Some 0 else cell g x' y') ->
  forall p, isFloor g' p <-> p = (x, y) \/ isFloor g p.
Proof.
  intros Hc [px py]. unfold isFloor. simpl. rewrite Hc. case_decide as E.
  - destruct E as [-> ->]. tauto.
  - split; [tauto|]. intros [[= -> ->]|?]; [tauto | done].
Qed.

Lemma binary_written (g g' : list (list Z)) x y :
  (forall x' y', cell g' x' y' = if decide (x' = x /\ y' = y) then Some 0 else cell g x' y') ->
  binary g -> binary g'.
Proof.
  intros Hc Hb x' y' c. rewrite Hc. case_decide; [intros [= <-]; by left | apply Hb].
Qed.

Lemma bounded_written {A : Type} (g g' : list (list A)) w h x y v :
  (forall x' y', cell g' x' y' = if decide (x' = x /\ y' = y) then Some v else cell g x' y') ->
  inBounds w h x y = true -> bounded g w h -> bounded g' w h.
Proof.
  intros Hc Hxy Hb x' y' c. rewrite Hc. case_decide as E; [|apply Hb].
  by destruct E as [-> ->].
Qed.

(** the carve on a well-formed grid: it returns, and the result is a
    connected grid in which the cell and each of its in-bounds two-step
    neighbours is floor *)
Lemma walk_spec w h fuel : forall x y g rng g0,
  dims g w h -> binary g -> bounded g w h -> inBounds w h x y = true ->
  writeCell gridHole g x y 0 = Ok g0 -> connected g0 (0, 0) -> (walls g0 < fuel)%nat ->
  exists g' rng',
    walk fuel w h x y (g, rng) = Ok (g', rng') /\
    dims g' w h /\ binary g' /\ bounded g' w h /\ connected g' (0, 0) /\
    (forall p, isFloor g0 p -> isFloor g' p) /\
    (walls g' <= walls g0)%nat /\
    (forall d, d ∈ directions -> inBounds w h (x + d.1) (y + d.2) = true ->
               isFloor g' (x + d.1, y + d.2)).
Proof.
  induction fuel as [|fuel IH]; intros x y g rng g0 Hd Hb Hbd Hxy Hw Hc Hfuel; [lia|].
  simpl. rewrite Hw. simpl.
  pose proof (shuffle_Permutation directions rng) as Hperm.
  destruct (shuffle directions rng) as [dirs rng1]. simpl in Hperm.
  destruct (dims_cell g w h x y Hd Hxy) as [c0 Hc0].
  destruct (write_in_range gridHole g x y 0) as (g0' & Hw' & Hcell0); [by eexists|].
  rewrite Hw in Hw'. injection Hw' as <-.
  assert (Hxy0 : isFloor g0 (x, y)) by (apply (floor_written g g0 x y Hcell0); auto).
  pose (I := fun (seen : list (Z * Z)) (st : list (list Z) * Rng) =>
    dims st.1 w h /\ binary st.1 /\ bounded st.1 w h /\ connected st.1 (0, 0) /\
    (forall p, isFloor g0 p -> isFloor st.1 p) /\
    (walls st.1 <= walls g0)%nat /\
    (forall d, d ∈ seen -> inBounds w h (x + d.1) (y + d.2) = true ->
               isFloor st.1 (x + d.1, y + d.2))).
  destruct (forEach_total_prefix I (walkStep (walk fuel w h) w h x y) dirs (g0, rng1))
    as ([g' rng'] & Hrun & HI).
  - intros seen [gi ri] [dx dy] Hdir (Hdi & Hbi & Hbdi & Hci & Hfi & Hwi & Hsi).
    simpl in *. rewrite Hperm in Hdir.
    destruct (directions_mid dx dy Hdir x y) as (Ha1 & Ha2 & Hne & Hne' & Hmid).
    unfold walkStep. simpl.
    destruct (inBounds w h (x + dx) (y + dy)) eqn:Hn.
    2:{ eexists. split; [done|]. split_and!; try done.
        intros d [Hin|Heq%list_elem_of_singleton]%elem_of_app Hin'; [by apply Hsi|subst d].
        simpl in Hin'. congruence. }
    rewrite (cellIs_in gi w h) by done. simpl. case_bool_decide as Hone.
    2:{ eexists. split; [done|]. split_and!; try done.
        intros d [Hin|Heq%list_elem_of_singleton]%elem_of_app Hin'; [by apply Hsi|subst d].
        simpl. destruct (dims_cell gi w h _ _ Hdi Hn) as [c Hcn].
        destruct (Hbi _ _ _ Hcn) as [->| ->]; [done | by destruct Hone]. }
    specialize (Hmid w h Hxy Hn).
    destruct (write_in_range gridHole gi (x + dx / 2) (y + dy / 2) 0)
      as (g1 & Hw1 & Hcell1); [by eapply dims_cell|].
    rewrite Hw1. simpl.
    assert (Hc1 : cell g1 (x + dx) (y + dy) = Some 1).
    { rewrite Hcell1. case_decide as E; [|done]. destruct E as [E1 E2].
      destruct Hne. by rewrite E1, E2. }
    destruct (write_in_range gridHole g1 (x + dx) (y + dy) 0)
      as (g2 & Hw2 & Hcell2); [by eexists|].
    pose proof (count2_write_le gridHole isOne gi _ _ 0 g1 eq_refl eq_refl Hw1) as Hle1.
    pose proof (count2_write_in gridHole isOne _ _ _ _ _ _ Hc1 Hw2) as Hle2.
    simpl in Hle2.
    pose proof (floor_written gi g1 _ _ Hcell1) as Hf1.
    pose proof (floor_written g1 g2 _ _ Hcell2) as Hf2.
    assert (Hfl : forall p, isFloor g2 p <->
              p = (x + dx / 2, y + dy / 2) \/ p = (x + dx, y + dy) \/ isFloor gi p).
    { intros p. rewrite Hf2, Hf1. tauto. }
    destruct (IH (x + dx) (y + dy) g1 ri g2)
      as (g3 & r3 & Hrec & Hd3 & Hb3 & Hbd3 & Hc3 & Hf3 & Hw3 & _).
    + by eapply dims_write.
    + by eapply binary_written.
    + by eapply bounded_written.
    + done.
    + done.
    + eapply (connected_carve gi g2 (0, 0) (x, y)); [done | by apply Hfi | done | done | done].
    + unfold walls in *. lia.
    + rewrite Hrec. eexists. split; [done|]. simpl.
      assert (Hsub : forall p, isFloor gi p -> isFloor g3 p).
      { intros p Hp. apply Hf3, Hfl. auto. }
      split_and!; try done.
      * intros p Hp. by apply Hsub, Hfi.
      * simpl. unfold walls in *. lia.
      * intros d [Hin|Heq%list_elem_of_singleton]%elem_of_app Hin'; [by apply Hsub, Hsi|subst d].
        simpl. apply Hf3, Hfl. auto.
  - unfold I. simpl. split_and!; try done.
    + by eapply dims_write.
    + by eapply binary_written.
    + by eapply bounded_written.
    + intros d Hin. by apply elem_of_nil in Hin.
  - destruct HI as (Hd' & Hb' & Hbd' & Hc' & Hf' & Hw'' & Hs').
    exists g', rng'. split_and!; try done.
    intros d Hin. apply Hs'. by rewrite Hperm.
Qed.
End MazeFacts.

(** ** The end cell *)

Module EndFacts.
Import Maze MazeFacts.

Lemma findFirst_fuel {A B : Type} (f : A -> Res (option B)) l :
  (forall a, a ∈ l -> f a <> OutOfFuel) -> findFirst f l <> OutOfFuel.
Proof.
  induction l as [|a l IH]; intros Hf; simpl; [discriminate|].
  pose proof (Hf a (list_elem_of_here _ _)) as Ha.
  destruct (f a) as [[b|]| |]; simpl; try done.
  apply IH. intros a' ?. apply Hf. by right.
Qed.

Lemma findFirst_total {A B : Type} (f : A -> Res (option B)) l :
  (forall a, a ∈ l -> exists r, f a = Ok r) -> exists r, findFirst f l = Ok r.
Proof.
  induction l as [|a l IH]; intros Hf; simpl; [eauto|].
  destruct (Hf a (list_elem_of_here _ _)) as [[b|] ->]; simpl; [eauto|].
  apply IH. intros a' ?. apply Hf. by right.
Qed.

Lemma findFirst_Some {A B : Type} (f : A -> Res (option B)) l b :
  findFirst f l = Ok (Some b) ->
  exists i a, l !! i = Some a /\ f a = Ok (Some b) /\
    forall j a', (j < i)%nat -> l !! j = Some a' -> f a' = Ok None.
Proof.
  induction l as [|a l IH]; simpl; [discriminate|].
  intros ([b'|] & Ha & Hr)%bind_Ok.
  - injection Hr as ->. exists O, a. split_and!; [done | done | lia].
  - destruct (IH Hr) as (i & a1 & Hi & Ha1 & Hbefore).
    exists (S i), a1. split_and!; [done | done |].
    intros [|j] a' Hj Hl; simpl in Hl; [by injection Hl as <-|].
    eapply Hbefore; [|done]. lia.
Qed.

Lemma findFirst_None {A B : Type} (f : A -> Res (option B)) l :
  findFirst f l = Ok None -> forall a, a ∈ l -> f a = Ok None.
Proof.
  induction l as [|a l IH]; simpl; [by intros _ a' ?%elem_of_nil|].
  intros ([b'|] & Ha & Hr)%bind_Ok; [discriminate|].
  intros a' [->|?]%elem_of_cons; [done | by apply IH].
Qed.

Lemma downFrom_lookup hi lo i v :
  downFrom hi lo !! i = Some v <-> v = hi - Z.of_nat i /\ Z.of_nat i < hi - lo + 1.
Proof.
  unfold downFrom. rewrite list_lookup_fmap, fmap_Some. split.
  - intros (k & [-> ?]%lookup_seqZ & ->). lia.
  - intros [-> ?]. exists (Z.of_nat i). rewrite lookup_seqZ. lia.
Qed.

Lemma elem_of_downFrom hi lo v : v ∈ downFrom hi lo <-> lo <= v <= hi.
Proof.
  rewrite list_elem_of_lookup. split.
  - intros [i [-> ?]%downFrom_lookup]. lia.
  - intros ?. exists (Z.to_nat (hi - v)). apply downFrom_lookup. lia.
Qed.

(** a descending scan stops at the largest value that hits *)
Lemma findFirst_downFrom {A : Type} (f : Z -> Res (option A)) hi lo b :
  findFirst f (downFrom hi lo) = Ok (Some b) ->
  exists a, lo <= a <= hi /\ f a = Ok (Some b) /\
            forall a', a < a' <= hi -> f a' = Ok None.
Proof.
  intros (i & a & Hi & Ha & Hbefore)%findFirst_Some.
  pose proof Hi as [-> ?]%downFrom_lookup.
  exists (hi - Z.of_nat i). split_and!; [lia | lia | done |].
  intros a' Ha'. apply (Hbefore (Z.to_nat (hi - a'))); [lia|].
  apply downFrom_lookup. lia.
Qed.

Lemma scanCell_Some g tx ty (p : Point) :
  (b ← cellIs g tx ty 0; Ok (if (b : bool) then Some (mkPoint tx ty) else None)) = Ok (Some p) ->
  p = mkPoint tx ty /\ cell g tx ty = Some 0.
Proof.
  intros ([|] & Hc & Hr)%bind_Ok; [|discriminate].
  injection Hr as <-. split; [done|]. by apply (cellIs_Ok _ _ _ _ _ Hc).
Qed.

Lemma scanCell_None g tx ty :
  (b ← cellIs g tx ty 0; Ok (if (b : bool) then Some (mkPoint tx ty) else None)) = Ok None ->
  cell g tx ty <> Some 0.
Proof.
  intros ([|] & Hc & Hr)%bind_Ok; [discriminate|].
  intros Hf. by apply (cellIs_Ok _ _ _ _ _ Hc) in Hf.
Qed.

Lemma scanRow_Some g w d ty p :
  scanRow g w d ty = Ok (Some p) ->
  py p = ty /\ Z.max 0 (w - 1 - d) <= px p <= w - 1 /\ cell g (px p) ty = Some 0 /\
  forall tx, px p < tx <= w - 1 -> cell g tx ty <> Some 0.
Proof.
  unfold scanRow. intros (tx & Htx & [-> Hc]%scanCell_Some & Hbefore)%findFirst_downFrom.
  simpl. split_and!; [done | lia | lia | done |].
  intros tx' Htx'. by apply scanCell_None, Hbefore.
Qed.

Lemma scanRow_None g w d ty :
  scanRow g w d ty = Ok None ->
  forall tx, Z.max 0 (w - 1 - d) <= tx <= w - 1 -> cell g tx ty <> Some 0.
Proof.
  unfold scanRow. intros Hn tx Htx. eapply scanCell_None, (findFirst_None _ _ Hn).
  by apply elem_of_downFrom.
Qed.

(** what a hit of a ring says: the cell is floor, inside the ring, and
    everything the ring scans before it is not floor *)
Lemma scanRing_Some g w h d p :
  scanRing g w h d = Ok (Some p) ->
  Z.max 0 (w - 1 - d) <= px p <= w - 1 /\ Z.max 0 (h - 1 - d) <= py p <= h - 1 /\
  cell g (px p) (py p) = Some 0 /\
  forall tx ty, Z.max 0 (w - 1 - d) <= tx <= w - 1 -> py p <= ty <= h - 1 ->
                (py p < ty \/ px p < tx) -> cell g tx ty <> Some 0.
Proof.
  unfold scanRing.
  intros (ty & Hty & (<- & Hpx & Hc & Hrow)%scanRow_Some & Hbefore)%findFirst_downFrom.
  split_and!; [lia | lia | lia | lia | done |].
  intros tx ty Htx Hty' [Hlt|Hlt].
  - eapply scanRow_None; [apply Hbefore; lia | done].
  - destruct (decide (py p = ty)) as [<-|Hne]; [apply Hrow; lia|].
    eapply scanRow_None; [apply Hbefore; lia | done].
Qed.

Lemma scanRing_None g w h d :
  scanRing g w h d = Ok None ->
  forall tx ty, Z.max 0 (w - 1 - d) <= tx <= w - 1 -> Z.max 0 (h - 1 - d) <= ty <= h - 1 ->
                cell g tx ty <> Some 0.
Proof.
  unfold scanRing. intros Hn tx ty Htx Hty.
  eapply scanRow_None; [|done]. apply (findFirst_None _ _ Hn). by apply elem_of_downFrom.
Qed.

Lemma findEnd_fuel g w h : findEnd g w h <> OutOfFuel.
Proof.
  unfold findEnd. apply bind_fuel; [|discriminate].
  apply findFirst_fuel. intros d _. apply findFirst_fuel. intros ty _.
  apply findFirst_fuel. intros tx _. apply bind_fuel; [apply cellIs_fuel | discriminate].
Qed.

Lemma findEnd_total g w h : dims g w h -> exists e, findEnd g w h = Ok e.
Proof.
  intros Hd. unfold findEnd.
  destruct (findFirst_total (scanRing g w h) (seqZ 0 (Z.max w h))) as [r ->]; [|simpl; eauto].
  intros d _. apply findFirst_total. intros ty Hty%elem_of_downFrom.
  apply findFirst_total. intros tx Htx%elem_of_downFrom.
  rewrite (cellIs_in g w h); [simpl; eauto | done | apply inBounds_spec; lia].
Qed.

(** the end cell of a grid whose origin is floor: a floor cell inside the
    grid, and not the origin unless the origin is the only floor cell *)
Lemma findEnd_spec g w h e :
  1 <= w -> 1 <= h -> isFloor g (0, 0) -> findEnd g w h = Ok e ->
  isFloor g (px e, py e) /\ inBounds w h (px e) (py e) = true /\
  forall c, inBounds w h c.1 c.2 = true -> isFloor g c -> c <> (0, 0) ->
            (px e, py e) <> (0, 0).
Proof.
  intros Hw Hh H00. unfold findEnd. intros ([p|] & Hr & [= <-])%bind_Ok; simpl.
  - apply findFirst_Some in Hr as (i & d & [-> Hd]%lookup_seqZ & Hring & _).
    apply scanRing_Some in Hring as (Hx & Hy & Hc & Hbefore).
    split_and!; [done | apply inBounds_spec; lia |].
    intros [cx cy] [Hcx Hcy]%inBounds_spec Hfl Hne [= Hpx Hpy]. simpl in *.
    apply (Hbefore cx cy); [lia | lia | | done].
    destruct (decide (cy = 0)) as [->|?]; [|lia].
    destruct (decide (cx = 0)) as [->|?]; [done | lia].
  - exfalso. apply (scanRing_None g w h (Z.max w h - 1)) with (tx := 0) (ty := 0);
      [|lia|lia|exact H00].
    apply (findFirst_None _ _ Hr). apply elem_of_seqZ. lia.
Qed.
End EndFacts.

(** ** Traps *)

Module TrapFacts.
Import Maze MazeFacts.

Lemma randBelow_range w rng : 0 < w -> 0 <= (randBelow w rng).1 < w.
Proof.
  intros Hw. unfold randBelow. destruct (draw rng) as [n rng']. simpl.
  destruct (Z.ltb_spec 0 w); [|lia]. by apply Z.mod_pos_bound.
Qed.

(** the sampling loop leaves within one hundred attempts *)
Lemma trapLoop_fuel g w h e n fuel : forall ts att rng,
  100 - att <= Z.of_nat fuel -> trapLoop fuel g w h e n ts att rng <> OutOfFuel.
Proof.
  induction fuel as [|fuel IH]; intros ts att rng Hfuel; simpl.
  - destruct (Z.ltb_spec att 100); [lia|]. by rewrite andb_false_r.
  - destruct ((Z.of_nat (length ts) <? n) && (att <? 100)); [|done].
    destruct (randBelow w rng) as [tx rng1]. destruct (randBelow h rng1) as [ty rng2].
    apply bind_fuel; [apply cellIs_fuel|]. intros b _. apply IH. lia.
Qed.

Lemma trapLoop_inv g w h e n fuel : forall ts att rng ts' att' rng',
  trapLoop fuel g w h e n ts att rng = Ok (ts', att', rng') ->
  Forall (trapOk e) ts -> att <= 100 ->
  Forall (trapOk e) ts' /\ att <= att' <= 100.
Proof.
  induction fuel as [|fuel IH]; intros ts att rng ts' att' rng'; simpl.
  - destruct ((Z.of_nat (length ts) <? n) && (att <? 100)); [discriminate|].
    intros [= <- <- <-]. split; [done | lia].
  - destruct ((Z.of_nat (length ts) <? n) && (att <? 100)) eqn:Hc.
    2:{ intros [= <- <- <-]. split; [done | lia]. }
    apply andb_true_iff in Hc as [_ Hatt%Z.ltb_lt].
    destruct (randBelow w rng) as [tx rng1]. destruct (randBelow h rng1) as [ty rng2].
    intros (b & _ & Hrec)%bind_Ok Hts Hle.
    apply IH in Hrec as [Hts' Hatt']; [split; [done | lia] | | lia].
    destruct (b && negb ((tx =? 0) && (ty =? 0)) && negb ((tx =? px e) && (ty =? py e))
              && negb (existsb (trapAt tx ty) ts)) eqn:Hguard; [|done].
    apply Forall_app. split; [done|]. apply Forall_singleton.
    apply andb_true_iff in Hguard as [Hguard _].
    apply andb_true_iff in Hguard as [Hguard He%negb_true_iff].
    apply andb_true_iff in Hguard as [_ H0%negb_true_iff].
    unfold trapOk, newTrap. simpl. split; intros [= -> ->].
    + by rewrite !Z.eqb_refl in H0.
    + by rewrite !Z.eqb_refl in He.
Qed.

Lemma trapLoop_total g w h e n fuel : forall ts att rng,
  dims g w h -> 1 <= w -> 1 <= h -> 100 - att <= Z.of_nat fuel ->
  exists r, trapLoop fuel g w h e n ts att rng = Ok r.
Proof.
  induction fuel as [|fuel IH]; intros ts att rng Hd Hw Hh Hfuel; simpl.
  - destruct (Z.ltb_spec att 100); [lia|]. rewrite andb_false_r. eauto.
  - destruct ((Z.of_nat (length ts) <? n) && (att <? 100)); [|eauto].
    pose proof (randBelow_range w rng ltac:(lia)) as Hx.
    destruct (randBelow w rng) as [tx rng1].
    pose proof (randBelow_range h rng1 ltac:(lia)) as Hy.
    destruct (randBelow h rng1) as [ty rng2]. simpl in *.
    rewrite (cellIs_in g w h) by (done || apply inBounds_spec; lia). simpl.
    apply IH; [done | done | done | lia].
Qed.
End TrapFacts.

(** ** The search *)

Module BfsFacts.
Import Maze MazeFacts.

Lemma adjacent_dirs4 p q :
  adjacent p q -> exists d, d ∈ dirs4 /\ q = (p.1 + d.1, p.2 + d.2).
Proof.
  destruct p as [p1 p2], q as [q1 q2]. unfold adjacent. simpl. intros H.
  assert ((q1 = p1 /\ q2 = p2 + 1) \/ (q1 = p1 + 1 /\ q2 = p2) \/
          (q1 = p1 /\ q2 = p2 - 1) \/ (q1 = p1 - 1 /\ q2 = p2))
    as [[-> ->]|[[-> ->]|[[-> ->]|[-> ->]]]] by lia.
  - exists (0, 1). split; [set_solver | simpl; f_equal; lia].
  - exists (1, 0). split; [set_solver | simpl; f_equal; lia].
  - exists (0, -1). split; [set_solver | simpl; f_equal; lia].
  - exists (-1, 0). split; [set_solver | simpl; f_equal; lia].
Qed.

Lemma visited_written v v' x y :
  (forall x' y', cell v' x' y' = if decide (x' = x /\ y' = y) then Some true else cell v x' y') ->
  forall c, isVisitedCell v' c <-> c = (x, y) \/ isVisitedCell v c.
Proof.
  intros Hc [cx cy]. unfold isVisitedCell. simpl. rewrite Hc. case_decide as E.
  - destruct E as [-> ->]. tauto.
  - split; [tauto|]. intros [[= -> ->]|?]; [tauto | done].
Qed.

Lemma expanded_mono g w h v v' c ds :
  (forall c', isVisitedCell v c' -> isVisitedCell v' c') ->
  expanded g w h v c ds -> expanded g w h v' c ds.
Proof. intros Hsub He d Hd Hb Hf. by apply Hsub, He. Qed.

Lemma expanded_snoc g w h v c ds d :
  expanded g w h v c ds ->
  (inBounds w h (c.1 + d.1) (c.2 + d.2) = true -> isFloor g (c.1 + d.1, c.2 + d.2) ->
   isVisitedCell v (c.1 + d.1, c.2 + d.2)) ->
  expanded g w h v c (ds ++ [d]).
Proof.
  intros He Hd d' [Hin|Heq%list_elem_of_singleton]%elem_of_app; [by apply He | by subst d'].
Qed.

Lemma bfsVisit_spec g w h curr M seen s d :
  dims g w h -> visiting g w h curr M seen s ->
  exists s', bfsVisit g w h curr s d = Ok s' /\ visiting g w h curr M (seen ++ [d]) s'.
Proof.
  intros Hg (Hinv & HM & Hexp).
  pose proof Hinv as [Hdv Hpar Hlive [rank [Hrk Hrl]] [Hroot Hroot'] Hdom Hclosed].
  unfold bfsVisit. change (px curr) with (key curr).1. change (py curr) with (key curr).2.
  set (nx := (key curr).1 + d.1) in *. set (ny := (key curr).2 + d.2) in *.
  destruct (inBounds w h nx ny) eqn:Hb.
  2:{ eexists. split; [done|]. split_and!; [done | done |].
      apply expanded_snoc; [done|]. fold nx ny. congruence. }
  rewrite (cellIs_in g w h) by done. simpl. case_bool_decide as Hfloor.
  2:{ eexists. split; [done|]. split_and!; [done | done |].
      apply expanded_snoc; [done|]. fold nx ny. by intros _ ?. }
  destruct (dims_cell _ w h nx ny Hdv Hb) as [seenb Hseen].
  pose proof Hseen as (Hx & Hy & row & Hrow & _)%cell_Some.
  unfold isVisited. rewrite readCell_in; [|done|by eapply lookup_lt_Some].
  simpl. rewrite Hseen. simpl. destruct seenb.
  { eexists. split; [done|]. split_and!; [done | done |].
    apply expanded_snoc; [done|]. by fold nx ny. }
  destruct (write_in_range false (visited s) nx ny true) as (v' & Hw & Hcell); [by eexists|].
  rewrite Hw. simpl. eexists. split; [done|].
  pose proof (visited_written _ _ _ _ Hcell) as Hv'.
  assert (Hkeep : forall c, isVisitedCell (visited s) c -> isVisitedCell v' c)
    by (intros c ?; apply Hv'; by right).
  assert (Hnew : isVisitedCell v' (nx, ny)) by (apply Hv'; by left).
  assert (Hfresh : forall c, isVisitedCell (visited s) c -> c <> (nx, ny)).
  { intros c Hc ->. unfold isVisitedCell in Hc. simpl in Hc. congruence. }
  assert (Hnone : parent s !! (nx, ny) = None).
  { destruct (parent s !! (nx, ny)) as [p|] eqn:E; [|done].
    destruct (Hpar _ _ E) as [Hk _]. by destruct (Hfresh _ Hk). }
  assert (Hcurr : isVisitedCell (visited s) (key curr)) by (apply Hlive; left).
  split_and!; [split; simpl| |].
  - by eapply dims_write.
  - intros k p [[<- <-]|[Hne Hold]]%lookup_insert_Some.
    + split; [done | by apply Hkeep].
    + destruct (Hpar _ _ Hold). split; by apply Hkeep.
  - intros q [->|[Hq|Hq%list_elem_of_singleton]%elem_of_app]%elem_of_cons.
    + by apply Hkeep.
    + apply Hkeep, Hlive. by right.
    + by subst q.
  - exists (fun c => if decide (c = (nx, ny)) then S (rank (key curr)) else rank c).
    rewrite map_size_insert_None by done.
    assert (Hrc : (rank (key curr) <= size (parent s))%nat) by (apply Hrl; left).
    split.
    + intros k p [[<- <-]|[Hne Hold]]%lookup_insert_Some.
      * rewrite (decide_False (P := key curr = (nx, ny))) by (by apply Hfresh).
        rewrite decide_True by done. lia.
      * destruct (Hpar _ _ Hold) as [Hk Hp]. specialize (Hrk _ _ Hold).
        rewrite !decide_False by (by apply Hfresh). lia.
    + intros q [->|[Hq|Hq%list_elem_of_singleton]%elem_of_app]%elem_of_cons.
      * rewrite decide_False by (by apply Hfresh). lia.
      * rewrite decide_False by (apply Hfresh, Hlive; by right).
        specialize (Hrl q ltac:(by right)). lia.
      * subst q. change (key (mkPoint nx ny)) with (nx, ny).
        rewrite decide_True by done. lia.
  - split; [by apply Hkeep|]. rewrite lookup_insert_ne; [done|].
    intros E. by apply (Hfresh _ Hroot).
  - intros c [->|Hc]%Hv'.
    + right. rewrite lookup_insert_eq. eauto.
    + destruct (Hdom c Hc) as [->|[p Hp]]; [by left|]. right.
      rewrite lookup_insert_ne by (intros E; by apply (Hfresh _ Hc)). eauto.
  - intros c [->|Hc]%Hv'.
    + left. exists (mkPoint nx ny). split; [|done]. right. apply elem_of_app. right. by left.
    + destruct (Hclosed c Hc) as [(q & Hq & <-)|Hcl].
      * left. exists q. split; [|done].
        apply elem_of_cons in Hq as [->|Hq]; [by left|]. right. apply elem_of_app. by left.
      * right. by eapply expanded_mono.
  - unfold budget in *. simpl. rewrite length_app. simpl.
    pose proof (count2_write_in false negb _ _ _ _ _ _ Hseen Hw) as Hc.
    unfold unvisited in *. simpl in Hc. lia.
  - simpl. apply expanded_snoc; [by eapply expanded_mono|]. by fold nx ny.
Qed.

Lemma bfsLoop_cons g w h e fuel v par curr rest :
  bfsLoop (S fuel) g w h e (mkBfs v par (curr :: rest)) =
  if (px curr =? px e) && (py curr =? py e) then Ok (mkBfs v par rest)
  else s' ← forEach (bfsVisit g w h curr) dirs4 (mkBfs v par rest);
       bfsLoop fuel g w h e s'.
Proof. done. Qed.

(** the search returns within its fuel and keeps its invariant; it stops
    with the end cell visited or with nothing left to expand *)
Lemma bfsLoop_spec g w h e fuel : forall s,
  dims g w h -> bfsInv g w h s (queue s) -> (budget s <= fuel)%nat ->
  exists s', bfsLoop fuel g w h e s = Ok s' /\
    (bfsInv g w h s' [] \/ isVisitedCell (visited s') (key e)) /\
    exists live, bfsInv g w h s' live.
Proof.
  induction fuel as [|fuel IH]; intros [v par q] Hg Hinv Hfuel.
  { destruct q as [|curr rest]; simpl; [eauto 6|]. unfold budget in Hfuel. simpl in Hfuel. lia. }
  destruct q as [|curr rest]; [simpl; eauto 6|]. rewrite bfsLoop_cons.
  assert (Hinv1 : bfsInv g w h (mkBfs v par rest) (curr :: rest)).
  { destruct Hinv as [? ? ? ? ? ? ?]. by split. }
  destruct ((px curr =? px e) && (py curr =? py e)) eqn:Heq.
  { eexists. split; [done|]. split; [|eauto]. right. simpl.
    apply andb_true_iff in Heq as [Hx%Z.eqb_eq Hy%Z.eqb_eq].
    replace (key e) with (key curr) by (unfold key; congruence).
    apply (bi_live _ _ _ _ _ Hinv). by left. }
  destruct (forEach_total_prefix (visiting g w h curr fuel)
              (bfsVisit g w h curr) dirs4 (mkBfs v par rest)) as (s' & -> & Hs' & Hb' & He').
  - intros seen s a _ Hv. by apply bfsVisit_spec.
  - split_and!; [done | | by intros d ?%elem_of_nil].
    unfold budget in *. simpl in *. lia.
  - simpl. apply IH; [done | | done].
    destruct Hs' as [Hd Hp Hl [rank [Hr1 Hr2]] Hroot Hdom Hclosed].
    split; [done | done | | | done | done |].
    + intros q' ?. apply Hl. by right.
    + exists rank. split; [done|]. intros q' ?. apply Hr2. by right.
    + intros c Hc. destruct (Hclosed c Hc) as [(q' & [->|Hq']%elem_of_cons & <-)|Hcl];
        [by right | left; eauto | by right].
Qed.

(** with nothing left to expand, every cell reachable from the origin has
    been visited *)
Lemma closed_reach g w h s p :
  bounded g w h -> bfsInv g w h s [] -> reach g (0, 0) p -> isVisitedCell (visited s) p.
Proof.
  intros Hbd Hinv. induction 1 as [_|p q _ IH Hadj Hq].
  - apply (bi_root _ _ _ _ _ Hinv).
  - destruct (bi_closed _ _ _ _ _ Hinv p IH) as [(q' & []%elem_of_nil & _)|Hcl].
    destruct (adjacent_dirs4 p q Hadj) as (d & Hd & ->).
    apply Hcl; [done | | done]. by eapply Hbd.
Qed.

(** following parent pointers that lower a rank: the walk ends, at a cell
    without parent, and never meets a cell twice *)
Lemma chain_total (par : gmap (Z * Z) Point) (rank : Z * Z -> nat) :
  (forall k p, par !! k = Some p -> (rank (key p) < rank k)%nat) ->
  forall fuel c, (0 < fuel)%nat -> (is_Some (par !! key c) -> (rank (key c) < fuel)%nat) ->
  exists l r, chain fuel par c = Ok (c :: l) /\
    last (c :: l) = Some r /\ par !! key r = None /\
    Forall (fun q => (rank (key q) < rank (key c))%nat /\ exists k, par !! k = Some q) l /\
    NoDup (c :: l).
Proof.
  intros Hrk. induction fuel as [|fuel IH]; intros c Hpos Hc; [lia|]. simpl.
  destruct (par !! key c) as [p|] eqn:E.
  2:{ exists [], c. split_and!; [done | done | done | done |]. apply NoDup_singleton. }
  specialize (Hc ltac:(eauto)). pose proof (Hrk _ _ E) as Hlt.
  destruct (IH p) as (l & r & -> & Hlast & Hr & Hall & Hnd); [lia | intros _; lia |]. simpl.
  exists (p :: l), r. split_and!; [done | done | done | |].
  - constructor; [split; [done | eauto]|].
    eapply Forall_impl; [exact Hall|]. intros q [? ?]. split; [lia | done].
  - constructor; [|done]. intros [->|Hin]%elem_of_cons; [lia|].
    rewrite Forall_forall in Hall. destruct (Hall _ Hin). lia.
Qed.

#[local] Arguments bfsLoop : simpl never.
#[local] Arguments chain : simpl never.

Lemma unvisited_replicate w h :
  unvisited (replicate (Z.to_nat h) (replicate (Z.to_nat w) false))
  = (Z.to_nat h * Z.to_nat w)%nat.
Proof.
  unfold unvisited. rewrite count2_replicate, countRow_replicate. simpl. lia.
Qed.

Lemma chain_nonempty fuel par c l : chain fuel par c = Ok l -> l <> [].
Proof.
  destruct fuel as [|fuel]; [done|]. unfold chain; fold chain.
  destruct (par !! key c); [|by intros [= <-]].
  by intros (rest & _ & [= <-])%bind_Ok.
Qed.

(** the path is never empty, so the test [path.length > 0] always holds *)
Lemma bfsPath_nonempty g w h e path :
  bfsPath g w h e = Ok path -> (0 <? length path)%nat = true.
Proof.
  unfold bfsPath. intros (v & _ & (v' & _ & (s & _ & (c & Hc & [= <-])%bind_Ok)%bind_Ok)%bind_Ok)%bind_Ok.
  apply chain_nonempty in Hc. apply Nat.ltb_lt. rewrite length_reverse.
  destruct c; [done | simpl; lia].
Qed.

Lemma key_inj p q : key p = key q -> p = q.
Proof. destruct p, q. unfold key. simpl. by intros [= -> ->]. Qed.

(** the state the search starts from *)
Lemma bfs_start g w h :
  0 <= w -> 1 <= h ->
  exists v, (v0 ← newArr2 w h false; writeCell false v0 0 0 true) = Ok v /\
            bfsInv g w h (mkBfs v ∅ [mkPoint 0 0]) [mkPoint 0 0] /\
            (unvisited v <= Z.to_nat (w * h))%nat.
Proof.
  intros Hw Hh. unfold newArr2.
  destruct (Z.ltb_spec h 0); [lia|]. destruct (Z.ltb_spec w 0); [lia|].
  rewrite andb_false_r. simpl.
  set (v0 := replicate (Z.to_nat h) (replicate (Z.to_nat w) false)).
  assert (Hd0 : dims v0 w h) by (apply (dims_newArr2 w h false); unfold newArr2;
    destruct (Z.ltb_spec h 0); [lia|]; destruct (Z.ltb_spec w 0); [lia|];
    by rewrite andb_false_r).
  assert (Hrow0 : v0 !! Z.to_nat 0 = Some (replicate (Z.to_nat w) false)).
  { unfold v0. apply lookup_replicate_2. lia. }
  rewrite (writeCell_in false v0 0 0 true _ ltac:(lia) Hrow0).
  set (v1 := <[Z.to_nat 0 := _]> v0).
  assert (Hw1 : writeCell false v0 0 0 true = Ok v1) by (by apply writeCell_in).
  assert (Hv1 : isVisitedCell v1 (0, 0)).
  { unfold isVisitedCell. simpl. by eapply cell_write_same. }
  exists v1. split; [done|]. split; [split; simpl|].
  - by eapply dims_write.
  - intros k p Hk. by rewrite lookup_empty in Hk.
  - intros q Hq%list_elem_of_singleton. by subst q.
  - exists (fun _ => O). split; [|intros; lia].
    intros k p Hk. by rewrite lookup_empty in Hk.
  - done.
  - intros c Hc. destruct (decide (c = (0, 0))) as [|Hne]; [by left|]. exfalso.
    destruct c as [cx cy]. unfold isVisitedCell in Hc. simpl in Hc.
    apply cell_Some in Hc as (Hcx & Hcy & row & Hrow & Hc).
    unfold v1 in Hrow. apply list_lookup_insert_Some in Hrow as [(Hy & <- & _)|[Hy Hrow]].
    + unfold setRow in Hc. simpl in Hc.
      destruct (Z.to_nat w) as [|n] eqn:En; simpl in Hc.
      * destruct (Z.to_nat cx) as [|i] eqn:Ei; [apply Hne; f_equal; lia | done].
      * destruct (Z.to_nat cx) as [|i] eqn:Ei; [apply Hne; f_equal; lia|].
        simpl in Hc. by apply lookup_replicate in Hc as [? _].
    + unfold v0 in Hrow. apply lookup_replicate in Hrow as [-> _].
      by apply lookup_replicate in Hc as [? _].
  - intros c Hc. left. exists (mkPoint 0 0). split; [by left|].
    destruct (decide (c = (0, 0))) as [->|Hne]; [done|]. exfalso.
    destruct c as [cx cy]. unfold isVisitedCell in Hc. simpl in Hc.
    apply cell_Some in Hc as (Hcx & Hcy & row & Hrow & Hc).
    unfold v1 in Hrow. apply list_lookup_insert_Some in Hrow as [(Hy & <- & _)|[Hy Hrow]].
    + unfold setRow in Hc. simpl in Hc.
      destruct (Z.to_nat w) as [|n] eqn:En; simpl in Hc.
      * destruct (Z.to_nat cx) as [|i] eqn:Ei; [apply Hne; f_equal; lia | done].
      * destruct (Z.to_nat cx) as [|i] eqn:Ei; [apply Hne; f_equal; lia|].
        simpl in Hc. by apply lookup_replicate in Hc as [? _].
    + unfold v0 in Hrow. apply lookup_replicate in Hrow as [-> _].
      by apply lookup_replicate in Hc as [? _].
  - pose proof (unvisited_replicate w h) as Hu0. fold v0 in Hu0.
    assert (unvisited v1 <= unvisited v0)%nat; [|rewrite Z2Nat.inj_mul by lia; lia].
    unfold unvisited, v1. pose proof (count2_insert negb v0 _ _
      (setRow false (replicate (Z.to_nat w) false) 0 true) Hrow0) as Hc.
    enough (countRow negb (setRow false (replicate (Z.to_nat w) false) 0 true)
            <= countRow negb (replicate (Z.to_nat w) false))%nat by lia.
    unfold setRow. simpl. destruct (Z.to_nat w) as [|n]; simpl; lia.
Qed.

(** the path is found on every grid of the announced dimensions: the
    search and the walk back along the parent pointers both return, and
    the path ends at the end cell *)
Lemma bfsPath_total g w h e :
  dims g w h -> 0 <= w -> 1 <= h ->
  exists path, bfsPath g w h e = Ok path /\ path <> [] /\ last path = Some e.
Proof.
  intros Hg Hw Hh. unfold bfsPath.
  destruct (bfs_start g w h Hw Hh) as (v1 & Hv1 & Hinv0 & Hu).
  apply bind_Ok in Hv1 as (v0 & -> & Hv1). simpl. rewrite Hv1. simpl.
  destruct (bfsLoop_spec g w h e (S (S (Z.to_nat (w * h)))) (mkBfs v1 ∅ [mkPoint 0 0]))
    as (s & -> & _ & live & Hs); [done | done | unfold budget; simpl; lia |].
  simpl. destruct Hs as [_ _ _ [rank [Hrk _]] _ _ _].
  destruct (chain_total (parent s) rank) with (fuel := S (size (parent s))) (c := e)
    as (l & r & -> & _); [intros k p Hk; specialize (Hrk k p Hk); lia | lia | |].
  - intros [p Hp]. specialize (Hrk _ _ Hp). lia.
  - simpl. eexists. split; [done|]. rewrite reverse_cons. split.
    + by destruct (reverse l).
    + by rewrite last_snoc.
Qed.

(** on a connected grid the path runs from the start cell to the end cell
    and never meets a cell twice *)
Lemma bfsPath_spec g w h e path :
  dims g w h -> bounded g w h -> connected g (0, 0) -> isFloor g (key e) ->
  0 <= w -> 1 <= h ->
  bfsPath g w h e = Ok path ->
  head path = Some (mkPoint 0 0) /\ last path = Some e /\ NoDup path.
Proof.
  intros Hg Hbd Hconn He Hw Hh. unfold bfsPath.
  destruct (bfs_start g w h Hw Hh) as (v1 & Hv1 & Hinv0 & Hu).
  apply bind_Ok in Hv1 as (v0 & -> & Hv1). simpl. rewrite Hv1. simpl.
  destruct (bfsLoop_spec g w h e (S (S (Z.to_nat (w * h)))) (mkBfs v1 ∅ [mkPoint 0 0]))
    as (s & -> & Hend & live & Hs); [done | done | unfold budget; simpl; lia |].
  simpl.
  assert (Hve : isVisitedCell (visited s) (key e)).
  { destruct Hend as [Hcl|?]; [|done]. eapply closed_reach; [done | done | by apply Hconn]. }
  pose proof Hs as [_ Hpar _ [rank [Hrk _]] [_ Hroot] Hdom _].
  destruct (chain_total (parent s) rank) with (fuel := S (size (parent s))) (c := e)
    as (l & r & -> & Hlast & Hr & Hall & Hnd);
    [intros k p Hk; specialize (Hrk k p Hk); lia | lia | |].
  - intros [p Hp]. specialize (Hrk _ _ Hp). lia.
  - simpl. intros [= <-]. split_and!.
    + rewrite head_reverse, Hlast. f_equal. apply key_inj.
      assert (Hvr : isVisitedCell (visited s) (key r)).
      { destruct l as [|p l]; [by injection Hlast as <-|].
        assert (Hin : r ∈ p :: l).
        { change (last (e :: p :: l)) with (last (p :: l)) in Hlast.
          by apply last_Some_elem_of. }
        rewrite Forall_forall in Hall. destruct (Hall _ Hin) as [_ [k Hk]].
        by destruct (Hpar _ _ Hk). }
      destruct (Hdom _ Hvr) as [->|[p Hp]]; [done | congruence].
    + by rewrite last_reverse.
    + by rewrite reverse_Permutation.
Qed.
End BfsFacts.

(** ** The generator as a whole *)

Module GenFacts.
Import Maze MazeFacts EndFacts TrapFacts BfsFacts.

Lemma cell_replicate {A : Type} (n m : nat) (v c : A) x y :
  cell (replicate n (replicate m v)) x y = Some c -> c = v.
Proof.
  intros (_ & _ & row & [-> _]%lookup_replicate & [-> _]%lookup_replicate)%cell_Some.
  done.
Qed.

Lemma newArr2_Ok {A : Type} w h (v : A) g :
  newArr2 w h v = Ok g ->
  g = replicate (Z.to_nat h) (replicate (Z.to_nat w) v) /\ 0 <= h /\ (h = 0 \/ 0 <= w).
Proof.
  unfold newArr2. destruct (Z.ltb_spec h 0); [discriminate|].
  destruct (Z.ltb_spec 0 h); destruct (Z.ltb_spec w 0); simpl; try discriminate;
    intros [= <-]; split; try done; lia.
Qed.

Lemma newArr2_total {A : Type} w h (v : A) :
  0 <= w -> 0 <= h -> newArr2 w h v = Ok (replicate (Z.to_nat h) (replicate (Z.to_nat w) v)).
Proof.
  intros Hw Hh. unfold newArr2. destruct (Z.ltb_spec h 0); [lia|].
  destruct (Z.ltb_spec w 0); [lia|]. by rewrite andb_false_r.
Qed.

Lemma walls_replicate w h :
  walls (replicate (Z.to_nat h) (replicate (Z.to_nat w) 1)) = (Z.to_nat h * Z.to_nat w)%nat.
Proof.
  unfold walls. rewrite count2_replicate, countRow_replicate. simpl. lia.
Qed.

(** any successful run of the carve keeps the dimensions *)
Lemma walk_dims w h fuel : forall x y g rng g' rng',
  walk fuel w h x y (g, rng) = Ok (g', rng') -> dims g w h -> dims g' w h.
Proof.
  induction fuel as [|fuel IH]; intros x y g rng g' rng'; simpl; [discriminate|].
  intros (g0 & Hw & Hrun)%bind_Ok Hd.
  destruct (shuffle directions rng) as [dirs rng1].
  apply (forEach_inv (fun st => dims st.1 w h) _ _ _ _) in Hrun; [done| |by eapply dims_write].
  intros [gi ri] [dx dy] [gj rj] _ Hdi. unfold walkStep. simpl in *.
  destruct (inBounds w h (x + dx) (y + dy)); [|by intros [= <- <-]].
  intros ([|] & _ & Hr)%bind_Ok; [|by injection Hr as <- <-].
  apply bind_Ok in Hr as (g1 & Hw1 & Hrec).
  eapply IH; [exact Hrec | by eapply dims_write].
Qed.

#[local] Arguments walk : simpl never.
#[local] Arguments trapLoop : simpl never.
#[local] Arguments bfsPath : simpl never.
#[local] Arguments findEnd : simpl never.

(** the first two statements of [generateMaze] on positive dimensions *)
Lemma carve_spec w h rng :
  1 <= w -> 1 <= h ->
  exists g g' rng',
    newArr2 w h 1 = Ok g /\
    walk (S (Z.to_nat (w * h))) w h 0 0 (g, rng) = Ok (g', rng') /\
    dims g' w h /\ binary g' /\ bounded g' w h /\ connected g' (0, 0) /\
    isFloor g' (0, 0) /\
    (forall d, d ∈ directions -> inBounds w h d.1 d.2 = true -> isFloor g' d).
Proof.
  intros Hw Hh. set (g := replicate (Z.to_nat h) (replicate (Z.to_nat w) 1)).
  assert (Hnew : newArr2 w h 1 = Ok g) by (apply newArr2_total; lia).
  assert (Hd : dims g w h) by by apply (dims_newArr2 w h 1).
  assert (H00 : inBounds w h 0 0 = true) by (apply inBounds_spec; lia).
  destruct (dims_cell g w h 0 0 Hd H00) as [c0 Hc0].
  destruct (write_in_range gridHole g 0 0 0) as (g0 & Hw0 & Hcell0); [by eexists|].
  pose proof (floor_written g g0 0 0 Hcell0) as Hfl0.
  assert (Hone : forall p, ~ isFloor g p).
  { intros [x y] Hp. by apply cell_replicate in Hp. }
  destruct (walk_spec w h (S (Z.to_nat (w * h))) 0 0 g rng g0)
    as (g' & rng' & Hrun & Hd' & Hb' & Hbd' & Hc' & Hf' & _ & Hn'); try done.
  - intros x y c ->%cell_replicate. by right.
  - intros x y c (Hx & Hy & row & [-> Hlt]%lookup_replicate & [_ Hlt']%lookup_replicate)%cell_Some.
    apply inBounds_spec. lia.
  - intros p [->|Hp]%Hfl0; [|by destruct (Hone p)]. apply reach_src, Hfl0. by left.
  - pose proof (count2_write_in gridHole isOne _ _ _ _ _ _ Hc0 Hw0) as Hc.
    pose proof (walls_replicate w h) as Hwalls.
    unfold walls, g in *. rewrite Z2Nat.inj_mul by lia.
    change (b2n (isOne 0)) with O in Hc. lia.
  - exists g, g', rng'. split_and!; try done.
    apply Hf', Hfl0. by left.
Qed.

(** what [generateMaze] returns on positive dimensions *)
Lemma generateMaze_spec fuel rng w h d :
  1 <= w -> 1 <= h ->
  exists g e ts path,
    generateMaze fuel rng w h d
      = Ok (mkMaze g w h (mkPoint 0 0) e ts (safeZonesOnPath path (safeZoneCountOf d))) /\
    dims g w h /\ binary g /\ bounded g w h /\ connected g (0, 0) /\ isFloor g (0, 0) /\
    isFloor g (px e, py e) /\ inBounds w h (px e) (py e) = true /\
    (3 <= w \/ 3 <= h -> (px e, py e) <> (0, 0)) /\
    Forall (trapOk e) ts /\
    bfsPath g w h e = Ok path /\
    head path = Some (mkPoint 0 0) /\ last path = Some e /\ NoDup path.
Proof.
  intros Hw Hh.
  destruct (carve_spec w h rng Hw Hh)
    as (g0 & g & rng1 & Hnew & Hwalk & Hd & Hb & Hbd & Hc & H00 & Hn).
  destruct (findEnd_total g w h Hd) as [e He].
  destruct (findEnd_spec g w h e Hw Hh H00 He) as (Hfe & Hbe & Hne).
  destruct (trapLoop_total g w h e (trapCountOf w h d) 100 [] 0 rng1 Hd Hw Hh ltac:(lia))
    as [[[ts att] rng2] Hts].
  destruct (trapLoop_inv g w h e (trapCountOf w h d) 100 [] 0 rng1 ts att rng2
              Hts (Forall_nil_2 _) ltac:(lia)) as [Hok _].
  destruct (bfsPath_total g w h e Hd ltac:(lia) Hh) as (path & Hpath & Hnil & _).
  destruct (bfsPath_spec g w h e path Hd Hbd Hc Hfe ltac:(lia) Hh Hpath) as (Hhd & Hlast & Hnd).
  assert (Hlen : (0 <? length path)%nat = true).
  { apply Nat.ltb_lt. destruct path; [done | simpl; lia]. }
  exists g, e, ts, path. split_and!; try done.
  - unfold generateMaze.
    rewrite Hnew, mbind_Ok, Hwalk, mbind_Ok, He, mbind_Ok, Hts, mbind_Ok, Hpath, mbind_Ok.
    by rewrite Hlen, mbind_Ok.
  - intros [H3|H3].
    + apply (Hne (2, 0)); [apply inBounds_spec; simpl; lia | | done].
      apply (Hn (2, 0)); [set_solver | apply inBounds_spec; simpl; lia].
    + apply (Hne (0, 2)); [apply inBounds_spec; simpl; lia | | done].
      apply (Hn (0, 2)); [set_solver | apply inBounds_spec; simpl; lia].
Qed.

(** [generateMaze] never exhausts fuel, whatever its arguments and
    whatever fuel the fallback loop is given *)
Lemma generateMaze_fuel fuel rng w h d : generateMaze fuel rng w h d <> OutOfFuel.
Proof.
  unfold generateMaze.
  destruct (newArr2 w h 1) as [g0|e|] eqn:Hnew; [rewrite mbind_Ok|done|].
  2:{ unfold newArr2 in Hnew. destruct (h <? 0); [done|].
      by destruct ((0 <? h) && (w <? 0)). }
  pose proof (dims_newArr2 _ _ _ _ Hnew) as Hd0.
  apply newArr2_Ok in Hnew as (-> & Hh & Hw).
  destruct (walk_fuel w h (S (Z.to_nat (w * h))) 0 0
              (replicate (Z.to_nat h) (replicate (Z.to_nat w) 1)) rng) as [Hf Hok]; [lia| |].
  { intros g1 Hw1. pose proof (count2_write_le gridHole isOne _ _ _ 0 g1 eq_refl eq_refl Hw1).
    pose proof (walls_replicate w h). unfold walls in *.
    destruct Hw as [->|Hw]; [simpl in *; lia|]. rewrite Z2Nat.inj_mul by lia. lia. }
  destruct (walk _ _ _ _ _ _) as [[g rng1]|e|] eqn:Hwalk; [rewrite mbind_Ok|done|done].
  destruct (Hok _ _ eq_refl) as (g1 & (row & _ & Hrow & _)%writeCell_Ok & _).
  apply lookup_replicate in Hrow as [_ Hrow].
  assert (Hh1 : 1 <= h) by lia. assert (Hw0 : 0 <= w) by lia.
  pose proof (walk_dims _ _ _ _ _ _ _ _ _ Hwalk Hd0) as Hd.
  destruct (findEnd_total g w h Hd) as [e ->]. rewrite mbind_Ok.
  pose proof (trapLoop_fuel g w h e (trapCountOf w h d) 100 [] 0 rng1 ltac:(lia)) as Htf.
  destruct (trapLoop _ _ _ _ _ _ _ _ _) as [[[ts att] rng2]|e'|]; [rewrite mbind_Ok|done|done].
  destruct (bfsPath_total g w h e Hd Hw0 Hh1) as (path & -> & Hnil & _). rewrite mbind_Ok.
  assert (Hlen : (0 <? length path)%nat = true).
  { apply Nat.ltb_lt. destruct path; [done | simpl; lia]. }
  by rewrite Hlen, mbind_Ok.
Qed.

(** the fuel of the fallback loop plays no part: the loop is never entered *)
Lemma generateMaze_fuel_irrelevant fuel fuel' rng w h d :
  generateMaze fuel rng w h d = generateMaze fuel' rng w h d.
Proof.
  unfold generateMaze.
  destruct (newArr2 w h 1) as [g0| |]; [rewrite !mbind_Ok|done..].
  destruct (walk _ _ _ _ _ _) as [[g rng1]| |]; [rewrite !mbind_Ok|done..].
  destruct (findEnd g w h) as [e| |]; [rewrite !mbind_Ok|done..].
  destruct (trapLoop _ _ _ _ _ _ _ _ _) as [[[ts att] rng2]| |]; [rewrite !mbind_Ok|done..].
  destruct (bfsPath g w h e) as [path| |] eqn:Hpath; [rewrite !mbind_Ok|done..].
  by rewrite (bfsPath_nonempty _ _ _ _ _ Hpath).
Qed.

(** *** Safe zones *)

Lemma safeZoneCountOf_pos d : 1 <= safeZoneCountOf d.
Proof. unfold safeZoneCountOf. lia. Qed.

(** the index of a safe zone is always inside the path *)
Lemma safeIdx_range L n i : 1 <= L -> 0 <= n -> 0 <= i -> 0 <= safeIdx L n i <= L - 1.
Proof.
  intros HL Hn Hi. unfold safeIdx.
  assert (0 <= L / (n + 1)) by (apply Z.div_pos; lia). nia.
Qed.

(** on a path of at least [n + 2] cells it is strictly inside *)
Lemma safeIdx_interior L n i :
  1 <= n -> n + 2 <= L -> 1 <= i <= n -> 1 <= safeIdx L n i <= L - 2.
Proof.
  intros Hn HL Hi. unfold safeIdx.
  pose proof (Z.div_mod L (n + 1) ltac:(lia)) as Hdm.
  pose proof (Z.mod_pos_bound L (n + 1) ltac:(lia)) as Hr.
  set (k := L / (n + 1)) in *. set (r := L mod (n + 1)) in *.
  assert (1 <= k) by nia.
  assert (i * k <= n * k) by nia.
  assert (n * k <= L - 2) by nia.
  nia.
Qed.

Lemma safeZonesOnPath_elem path n z :
  z ∈ safeZonesOnPath path n ->
  exists i, 1 <= i <= n /\ z = path !!! Z.to_nat (safeIdx (Z.of_nat (length path)) n i).
Proof.
  unfold safeZonesOnPath. intros (i & -> & Hi%elem_of_seqZ)%list_elem_of_fmap.
  exists i. split; [lia | done].
Qed.

(** every safe zone is a cell of the path *)
Lemma safeZonesOnPath_on_path path n :
  path <> [] -> Forall (fun z => z ∈ path) (safeZonesOnPath path n).
Proof.
  intros Hnil. apply Forall_forall. intros z (i & Hi & ->)%safeZonesOnPath_elem.
  assert (1 <= Z.of_nat (length path)) by (destruct path; [done | simpl; lia]).
  pose proof (safeIdx_range (Z.of_nat (length path)) n i ltac:(lia) ltac:(lia) ltac:(lia)).
  apply list_elem_of_lookup_total_2. lia.
Qed.

(** on a simple path of at least [n + 2] cells no safe zone is an end of
    the path *)
Lemma safeZonesOnPath_interior path n a b :
  NoDup path -> head path = Some a -> last path = Some b ->
  1 <= n -> n + 2 <= Z.of_nat (length path) ->
  Forall (fun z => z <> a /\ z <> b) (safeZonesOnPath path n).
Proof.
  intros Hnd Ha Hb Hn HL. apply Forall_forall. intros z (i & Hi & ->)%safeZonesOnPath_elem.
  pose proof (safeIdx_interior _ n i Hn HL Hi) as Hidx.
  set (k := Z.to_nat (safeIdx (Z.of_nat (length path)) n i)) in *.
  assert (Hk : path !! k = Some (path !!! k)) by (apply list_lookup_lookup_total_lt; lia).
  rewrite head_lookup in Ha. rewrite last_lookup in Hb.
  split; intros E; rewrite E in Hk.
  - pose proof (NoDup_lookup _ _ _ _ Hnd Hk Ha). lia.
  - pose proof (NoDup_lookup _ _ _ _ Hnd Hk Hb). lia.
Qed.
End GenFacts.

(** ** The collision test *)

Module CollisionFacts.
Import Collision MazeFacts.

Lemma cellOf_spec c k :
  cellOf c = k <->
  (inject_Z (CELL_SIZE * k) <= c /\ c < inject_Z (CELL_SIZE * k) + 40)%Q.
Proof.
  unfold cellOf, CELL_SIZE. rewrite inject_Z_mult.
  change (inject_Z 40) with 40%Q. unfold Qdiv. change (/ 40)%Q with (1 # 40)%Q.
  pose proof (Qfloor_le (c * (1 # 40))) as Hlo.
  pose proof (Qlt_floor (c * (1 # 40))) as Hhi.
  rewrite inject_Z_plus in Hhi. change (inject_Z 1) with 1%Q in Hhi.
  split.
  - intros <-. split; lra.
  - intros [H1 H2].
    assert (inject_Z (Qfloor (c * (1 # 40))) < inject_Z (k + 1))%Q
      by (rewrite inject_Z_plus; change (inject_Z 1) with 1%Q; lra).
    assert (inject_Z k < inject_Z (Qfloor (c * (1 # 40)) + 1))%Q
      by (rewrite inject_Z_plus; change (inject_Z 1) with 1%Q; lra).
    rewrite <- Zlt_Qlt in *. lia.
Qed.

Lemma cell_shift (k : Z) : (inject_Z (CELL_SIZE * (k + 1)) == inject_Z (CELL_SIZE * k) + 40)%Q.
Proof.
  unfold CELL_SIZE. rewrite !inject_Z_mult, inject_Z_plus.
  change (inject_Z 40) with 40%Q. change (inject_Z 1) with 1%Q. lra.
Qed.




Lemma cornerBlocked_spec m p :
  wellFormed m ->
  exists b, cornerBlocked m p = Ok b /\ (b = true <-> cornerHits m p).
Proof.
  intros Hwf. unfold cornerBlocked, cornerHits.
  set (gx := cellOf p.1). set (gy := cellOf p.2).
  destruct ((gx <? 0) || (gy <? 0) || (gx >=? width m) || (gy >=? height m)) eqn:Ht.
  - exists true. split; [done|]. split; [intros _|done].
    rewrite !orb_true_iff, !Z.ltb_lt, !Z.geb_le in Ht. lia.
  - rewrite !orb_false_iff, !Z.ltb_ge, Z.geb_leb, Z.geb_leb, !Z.leb_gt in Ht.
    rewrite (cellIs_in (grid m) (width m) (height m)); [|done|apply inBounds_spec; lia].
    eexists. split; [done|]. rewrite bool_decide_eq_true. split; [auto 6|].
    intros [?|[?|[?|[?|?]]]]; [lia..|done].
Qed.

Lemma anyCorner_spec m ps :
  wellFormed m ->
  exists b, anyCorner m ps = Ok b /\ (b = true <-> exists p, p ∈ ps /\ cornerHits m p).
Proof.
  intros Hwf. induction ps as [|p ps (b & Hb & IH)]; simpl.
  - exists false. split; [done|]. split; [done|]. by intros (p & ?%elem_of_nil & _).
  - destruct (cornerBlocked_spec m p Hwf) as ([|] & -> & Hp); simpl.
    + exists true. split; [done|]. split; [|done]. intros _. exists p. split; [by left|].
      by apply Hp.
    + exists b. split; [done|]. rewrite IH. split.
      * intros (q & ? & ?). exists q. split; [by right | done].
      * intros (q & [->|?]%elem_of_cons & Hq); [|eauto].
        apply Hp in Hq. discriminate.
Qed.

(** the test answers, and answers [true] exactly when a corner hits *)
Lemma checkCollision_spec m x y :
  wellFormed m ->
  exists b, checkCollision x y m = Ok b /\
            (b = true <-> exists p, p ∈ corners x y /\ cornerHits m p).
Proof. intros Hwf. by apply anyCorner_spec. Qed.






End CollisionFacts.

(** ** The relay *)

Module RelayFacts.
Import Relay RelaySamples.

(** the room identifier plays no part in who receives a broadcast *)
Lemma broadcastToRoom_any_room srv rid rid' message excludeWs :
  broadcastToRoom srv rid message excludeWs = broadcastToRoom srv rid' message excludeWs.
Proof. done. Qed.

(** every open connection other than the excluded one receives it *)
Lemma broadcastToRoom_all_open srv rid message excludeWs c :
  c ∈ clients srv -> isOpen c = true -> Some (connId c) <> excludeWs ->
  (connId c, message) ∈ broadcastToRoom srv rid message excludeWs.
Proof.
  intros Hc Hopen Hne. unfold broadcastToRoom. apply list_elem_of_omap.
  exists c. split; [done|]. rewrite Hopen. by rewrite bool_decide_eq_false_2.
Qed.

(** C1, at the failing input: connection 0 has joined room "A" only, yet
    the PLAYER_JOINED broadcast for room "B", caused by connection 1
    joining "B", is delivered to connection 0.  The relay sends a room's
    broadcast to every open connection instead of the room's members. *)
Theorem broadcast_reaches_other_room :
  onMessage twoClients 0 (Some (JValue (Some "JOIN_ROOM") joinA))
    = Ok (joinRoom 0 joinA twoClients) /\
  onMessage afterJoinA 1 (Some (JValue (Some "JOIN_ROOM") joinB))
    = Ok (joinRoom 1 joinB afterJoinA) /\
  (0%nat, PLAYER_JOINED playersOfB None) ∈ (joinRoom 1 joinB afterJoinA).2 /\
  joined afterJoinB 0 "A" /\ ~ joined afterJoinB 0 "B".
Proof.
  split_and!.
  - done.
  - done.
  - vm_compute. left.
  - exists (mkConn 0 (Some "A") (Some "p1") true). split; [|done]. vm_compute. left.
  - intros (c & Hc & Hid & Hr). vm_compute in Hc.
    apply elem_of_cons in Hc as [->|Hc]; [done|].
    apply list_elem_of_singleton in Hc as ->. done.
Qed.

(** C8, as stated, fails: a message that does not parse is not ignored;
    [JSON.parse] throws out of the handler. *)
Lemma unparseable_message_throws :
  onMessage twoClients 0 None = Throw SyntaxError.
Proof. done. Qed.

(** C8, amended: a message that parses to a value other than [null] and
    whose type is none of JOIN_ROOM, UPDATE_POSITION, WIN is ignored (the
    handler returns, the server state is unchanged, nothing is sent); a
    message that does not parse, or parses to [null], makes the handler
    throw, before any state is changed or anything is sent. *)
Theorem unknown_type_ignored srv ws type f :
  ~ knownType type ->
  onMessage srv ws (Some (JValue type f)) = Ok (srv, []) /\
  (forall c, findConn srv ws = Some c ->
     onMessage srv ws None = Throw SyntaxError /\
     onMessage srv ws (Some JNull) = Throw TypeError).
Proof.
  intros Hk. unfold knownType in Hk. split.
  - unfold onMessage. destruct (findConn srv ws); [|done].
    rewrite !bool_decide_eq_false_2; [done | tauto..].
  - intros c Hc. unfold onMessage. by rewrite Hc.
Qed.

Lemma unknown_type_ignored_witness :
  ~ knownType (Some "PING") /\
  onMessage afterJoinA 0 (Some (JValue (Some "PING") joinB)) = Ok (afterJoinA, []).
Proof.
  assert (Hk : ~ knownType (Some "PING")) by (intros [H|[H|H]]; discriminate).
  split; [exact Hk|].
  exact (proj1 (unknown_type_ignored afterJoinA 0 (Some "PING") joinB Hk)).
Defined.
End RelayFacts.

(** ** The session state machine *)

Module GameFacts.
Import Game.

Ltac unfold_handlers :=
  unfold step, tick, tickPractice, tickShop, tickDistractor, tickPhaseClock, tickTrap,
    tickWipe, moveTick, winCheck, aiTick, trapCheck, respawnFire, shopConfirmFire,
    shopFixed, shopGamble, startSession, tutorialButton, surveyComplete, nextIteration,
    netGameOver, netPlayerJoined, debugSkip, debugCoins, externalSkip, setSubjectId,
    initGame, respawn in *.

Ltac split_cases := repeat (case_match; simplify_eq/=).

Lemma reachable_run s es : reachable s -> reachable (run s es).
Proof.
  revert s. induction es as [|e es IH]; intros s Hs; simpl; [done|].
  apply IH. by constructor.
Qed.

Lemma raiseDifficulty_bounds b d :
  (0 <= b)%Q -> (1 <= d <= 10)%Q -> (1 <= raiseDifficulty b d <= 10)%Q.
Proof.
  intros Hb Hd. unfold raiseDifficulty.
  destruct (Qle_bool (d + b) 10) eqn:E; [|lra].
  apply Qle_bool_iff in E. lra.
Qed.

(** a step leaves the difficulty alone or raises it through the clamp *)
Lemma step_difficulty s e :
  difficulty (step s e) = difficulty s \/
  exists b, (0 <= b)%Q /\ difficulty (step s e) = raiseDifficulty b (difficulty s).
Proof.
  destruct e; unfold_handlers; split_cases; auto.
  all: right; eexists; split; [|reflexivity]; unfold bonus; try case_match; lra.
Qed.

(** the side of a generated maze *)
Lemma size_bound d : (1 <= d)%Q -> 13 <= 12 + Qfloor (d * (15 # 10)).
Proof.
  intros Hd. assert (1 <= Qfloor (d * (15 # 10))); [|lia].
  change 1 with (Qfloor 1). apply Qfloor_resp_le. lra.
Qed.

Lemma generateMaze_good fuel rng w d m :
  3 <= w -> Maze.generateMaze fuel rng w w d = Ok m -> goodMaze m.
Proof.
  intros Hw Hgen.
  destruct (GenFacts.generateMaze_spec fuel rng w w d ltac:(lia) ltac:(lia))
    as (g & e & ts & path & Hgen' & _ & _ & _ & _ & _ & _ & _ & Hne & _).
  rewrite Hgen in Hgen'. injection Hgen' as ->. split; [done|]. simpl. apply Hne. lia.
Qed.

Lemma startPos_origin m : start m = mkPoint 0 0 -> gridCell (startPos m) = (0, 0).
Proof. unfold startPos. by intros ->. Qed.

Lemma gridCell_eqb p (e : Point) gx gy :
  gridCell p = (gx, gy) -> (gx =? px e) && (gy =? py e) = false ->
  gridCell p <> (px e, py e).
Proof.
  intros -> Hb [= -> ->]. by rewrite !Z.eqb_refl in Hb.
Qed.

(** *** The invariant of reachable sessions *)

(** a handler that touches none of the fields the invariant reads *)
Lemma inv_same_core s s' :
  gameState s' = gameState s -> maze s' = maze s -> myPos s' = myPos s ->
  difficulty s' = difficulty s -> pendingRespawns s' = pendingRespawns s ->
  sessionInv s -> sessionInv s'.
Proof. unfold sessionInv. by intros -> -> -> -> ->. Qed.

Ltac same_core s := apply (inv_same_core s); [reflexivity..|].

(** moving to a state in which no interval moves the player *)
Lemma inv_leave s gs pos d' :
  sessionInv s -> isRunning gs = false -> (1 <= d' <= 10)%Q ->
  coreInv gs (maze s) pos d' (pendingRespawns s).
Proof.
  intros (Hd & Hm & Hp & Hpos) Hgs Hd'. unfold coreInv. rewrite Hgs.
  split_and!; [lra | lra | | done | done].
  intros [?|?]; [auto | done].
Qed.

Lemma inv_leave_state s gs :
  sessionInv s -> isRunning gs = false -> sessionInv (set_gameState gs s).
Proof.
  intros Hinv Hgs. unfold sessionInv. simpl.
  apply inv_leave; [done | done | exact (proj1 Hinv)].
Qed.

Lemma inv_respawn ref s :
  sessionInv s -> isRunning (gameState s) = true -> sessionInv (respawn ref s).
Proof.
  intros Hinv Hrun. pose proof Hinv as (Hd & Hm & Hp & Hpos). unfold respawn.
  destruct (Hm ltac:(by right)) as (m & Hmz & Hstart & Hend). rewrite Hmz.
  unfold sessionInv, coreInv. simpl. rewrite Hmz. split_and!; [lra | lra | | | done].
  - intros _. exists m. by split.
  - apply Forall_app. split; [done|]. apply Forall_singleton. simpl.
    split; [by case_decide | by apply startPos_origin].
Qed.

Lemma inv_initGame rng t s : sessionInv s -> sessionInv (initGame rng t s).
Proof.
  intros Hinv. pose proof Hinv as (Hd & Hm & Hp & Hpos). unfold initGame.
  destruct (Maze.generateMaze _ _ _ _ _) as [m| |] eqn:Hgen; [|done..].
  apply generateMaze_good in Hgen;
    [|pose proof (size_bound (difficulty s) (proj1 Hd)); lia].
  unfold sessionInv, coreInv. simpl. split_and!; [lra | lra | | done |].
  - intros _. by exists m.
  - intros _ m' [= <-]. destruct Hgen as [Hstart Hend].
    by rewrite (startPos_origin _ Hstart).
Qed.

Lemma inv_tickWipe s : sessionInv s -> isRunning (gameState s) = true ->
  sessionInv (tickWipe s s).
Proof.
  intros Hinv Hrun. unfold tickWipe. destruct (phase s =? 3); [|done].
  destruct (Qle_bool _ _); [|by same_core s].
  destruct (inSafeZone s); [by same_core s|].
  apply (inv_same_core (respawn (gameState s) s)); [reflexivity..|].
  by apply inv_respawn.
Qed.

Lemma inv_tickTrap rng s0 s : sessionInv s -> sessionInv (tickTrap rng s0 s).1.
Proof.
  intros Hinv. unfold tickTrap. destruct (Qle_bool _ _); [|by same_core s].
  destruct (phase s0 =? 2); [|by same_core s].
  destruct (randCoin rng) as [c rng']. by same_core s.
Qed.

Lemma inv_tickPhaseClock s0 s : sessionInv s -> sessionInv (tickPhaseClock s0 s).
Proof.
  intros Hinv. unfold tickPhaseClock. destruct (Qle_bool _ _); [|by same_core s].
  destruct (phase s0 <? 3).
  - apply (inv_same_core (set_gameState shop s)); [reflexivity..|]. by apply inv_leave_state.
  - apply (inv_same_core (set_gameState gameover s)); [reflexivity..|].
    by apply inv_leave_state.
Qed.

Lemma inv_tick rng s : sessionInv s -> sessionInv (tick rng s).
Proof.
  intros Hinv. unfold tick. destruct (gameState s) eqn:Hgs; try done.
  - pose proof (inv_tickTrap rng s _ (inv_tickWipe s Hinv ltac:(by rewrite Hgs))) as H1.
    destruct (tickTrap rng s (tickWipe s s)) as [s1 rng1]. simpl in H1.
    unfold tickPractice. destruct (Qle_bool _ _); [|by same_core s1].
    apply (inv_same_core (initGame rng1 playing s1)); [reflexivity..|]. by apply inv_initGame.
  - pose proof (inv_tickTrap rng s _ (inv_tickWipe s Hinv ltac:(by rewrite Hgs))) as H1.
    destruct (tickTrap rng s (tickWipe s s)) as [s1 rng1]. simpl in H1.
    apply inv_tickPhaseClock. by same_core s1.
  - unfold tickShop. destruct (Qle_bool _ _); [|by same_core s].
    apply (inv_same_core (set_gameState distractor s)); [reflexivity..|].
    by apply inv_leave_state.
  - unfold tickDistractor. destruct (Qle_bool _ _); [|by same_core s].
    destruct (phase s + 1 =? 2); [|destruct (phase s + 1 =? 3)].
    + apply (inv_same_core (set_gameState tutorial s)); [reflexivity..|].
      by apply inv_leave_state.
    + apply (inv_same_core (set_gameState tutorial s)); [reflexivity..|].
      by apply inv_leave_state.
    + apply inv_initGame. by same_core s.
Qed.

Lemma inv_moveTick isMoving dx dy s : sessionInv s -> sessionInv (moveTick isMoving dx dy s).
Proof.
  intros Hinv. pose proof Hinv as (Hd & Hm & Hp & Hpos). unfold moveTick.
  destruct (isRunning (gameState s)) eqn:Hrun; [|done].
  destruct (maze s) as [m|] eqn:Hmz; [|done]. destruct isMoving; [|done].
  destruct (myPos s) as [x y] eqn:Hxy.
  destruct (Collision.checkCollision _ _ _) as [bx| |]; [|done..].
  destruct (Collision.checkCollision _ _ _) as [by_| |]; [|done..].
  destruct (_ && _); [by apply inv_respawn|].
  set (next := (if bx then x else (x + dx)%Q, if by_ then y else (y + dy)%Q)).
  unfold winCheck. destruct (gridCell next) as [gx gy] eqn:Hcell.
  destruct ((gx =? px (end_ m)) && (gy =? py (end_ m))) eqn:Hend.
  - destruct (gameState s) eqn:Hgs; try done.
    + pose proof (inv_respawn practice s Hinv ltac:(by rewrite Hgs)) as Hr.
      unfold respawn in *. rewrite Hmz in *.
      unfold sessionInv. simpl.
      exact (inv_leave _ respawning next (difficulty s) Hr eq_refl Hd).
    + unfold sessionInv. simpl. apply inv_leave; [done | done |].
      apply raiseDifficulty_bounds; [unfold bonus; case_match; lra | done].
  - unfold sessionInv, coreInv. simpl.
    split_and!; [lra | lra | apply Hinv | apply Hinv |].
    intros _ m' Hm'. rewrite Hmz in Hm'. injection Hm' as <-.
    by eapply gridCell_eqb.
Qed.

Lemma step_inv s e : sessionInv s -> sessionInv (step s e).
Proof.
  intros Hinv. pose proof Hinv as (Hd & Hm & Hp & Hpos).
  destruct e; simpl.
  - by apply inv_tick.
  - by apply inv_moveTick.
  - unfold aiTick. destruct (_ && _) eqn:Hc; [|done].
    apply andb_true_iff in Hc as [[Hrun _]%andb_true_iff _].
    destruct (decide _); [by apply inv_respawn | by apply inv_leave_state].
  - unfold trapCheck. destruct (maze s); [|done].
    destruct (_ && _) eqn:Hc; [|done]. apply andb_true_iff in Hc as [Hrun _].
    destruct (gridCell (myPos s)). destruct (_ && _); [by apply inv_respawn | done].
  - unfold respawnFire. destruct (pendingRespawns s) as [|[t pos] rest] eqn:Hpend; [done|].
    destruct (Hm ltac:(by left)) as (m & Hmz & Hstart & Hend).
    apply Forall_cons in Hp as [[Hrun0 Hpos0] Hrest]. simpl in Hpos0, Hrun0.
    unfold sessionInv, coreInv. simpl. rewrite Hmz. split_and!; [lra | lra | | done |].
    + intros _. exists m. by split.
    + intros _ m' [= <-]. by rewrite Hpos0.
  - unfold shopConfirmFire. destruct (pendingShopConfirms s); [done|].
    apply (inv_same_core (set_gameState distractor s)); [reflexivity..|].
    by apply inv_leave_state.
  - unfold shopFixed. destruct (_ && _); [by same_core s | done].
  - unfold shopGamble. destruct (_ && _); [|done].
    destruct (randCoin rng). by same_core s.
  - unfold setSubjectId. destruct (bool_decide _); [by same_core s | done].
  - unfold startSession. destruct (_ && _); [|done].
    apply (inv_same_core (set_gameState tutorial s)); [reflexivity..|].
    by apply inv_leave_state.
  - unfold tutorialButton. destruct (bool_decide _); [|done].
    destruct (tutorialStep s); try (by same_core s).
    all: try (apply (inv_same_core (initGame rng practice s)); [reflexivity..|]).
    all: by apply inv_initGame.
  - unfold surveyComplete. destruct (_ && _); [|done]. apply inv_initGame. by same_core s.
  - unfold nextIteration. destruct (_ || _); [by apply inv_initGame | done].
  - unfold netGameOver. destruct winnerIsMe.
    + unfold sessionInv. simpl. apply inv_leave; [done | done |].
      apply raiseDifficulty_bounds; [lra | done].
    + by apply inv_leave_state.
  - unfold netPlayerJoined. destruct m as [m'|]; [|done].
    destruct (maze s) eqn:Hmz; [done|].
    unfold sessionInv, coreInv. simpl. split_and!; [lra | lra | | done |].
    + intros Hpre. destruct (Hm Hpre) as (m & ? & _). congruence.
    + intros Hrun. destruct (Hm ltac:(by right)) as (m & ? & _). congruence.
  - unfold debugSkip. destruct (gameState s); by try same_core s.
  - unfold debugCoins. by same_core s.
  - unfold externalSkip. destruct (gameState s); by try same_core s.
Qed.

Lemma initial_inv : sessionInv initial.
Proof.
  unfold sessionInv, coreInv. simpl. split_and!; [lra | lra | | done | done].
  intros [?|?]; done.
Qed.

Lemma reachable_inv s : reachable s -> sessionInv s.
Proof. induction 1 as [|s e _ IH]; [apply initial_inv | by apply step_inv]. Qed.

Lemma difficulty_bounds s : reachable s -> (1 <= difficulty s <= 10)%Q.
Proof. intros Hs. apply (reachable_inv s Hs). Qed.

(** *** Phase and game over *)

(** the phase changes only when the distractor timer expires, and then by
    one *)
Lemma step_phase s e :
  phase (step s e) = phase s \/
  (exists rng, e = Tick rng) /\ gameState s = distractor /\
  Qle_bool (distractorTimer s) tenth = true /\ phase (step s e) = phase s + 1.
Proof.
  destruct e; unfold_handlers; split_cases; auto.
  all: right; split_and!; eauto.
Qed.

Lemma phase_monotone s es : phase s <= phase (run s es).
Proof.
  revert s. induction es as [|e es IH]; intros s; simpl; [lia|].
  etrans; [|apply IH]. destruct (step_phase s e) as [->|(_ & _ & _ & ->)]; lia.
Qed.

Lemma phase_positive s : reachable s -> 1 <= phase s.
Proof.
  induction 1 as [|s e _ IH]; [done|].
  destruct (step_phase s e) as [->|(_ & _ & _ & ->)]; lia.
Qed.

(** game over is entered only from [playing], by the phase clock running
    out while the phase is at least 3 *)
Lemma gameover_entry s e :
  sessionInv s -> gameState s <> gameover -> gameState (step s e) = gameover ->
  (exists rng, e = Tick rng) /\ gameState s = playing /\
  Qle_bool (phaseTime s) tenth = true /\ 3 <= phase s.
Proof.
  intros (_ & _ & Hp & _) Hne.
  destruct e; unfold_handlers; split_cases; try done.
  all: try (intros Hg; congruence).
  all: try (intros _; split_and!; [eauto | done | done | lia]).
  all: apply Forall_cons in Hp as [[Hrun _] _]; simpl in Hrun; by intros ->.
Qed.

(** *** The practice timer *)

Lemma respawn_frame ref s :
  difficulty (respawn ref s) = difficulty s /\
  practiceTimer (respawn ref s) = practiceTimer s /\
  maze (respawn ref s) = maze s.
Proof. unfold respawn. destruct (maze s) eqn:E; simpl; by rewrite ?E. Qed.

Lemma tick_before_practice rng s :
  let s1 := (tickTrap rng s (tickWipe s s)).1 in
  difficulty s1 = difficulty s /\ practiceTimer s1 = practiceTimer s.
Proof.
  unfold tickTrap, tickWipe. destruct (respawn_frame (gameState s) s) as (Hd & Hp & _).
  split_cases; done.
Qed.

(** *** The win check *)

#[local] Arguments gridCell : simpl never.

Lemma moveTick_win isMoving dx dy s m :
  sessionInv s -> gameState s = playing -> maze s = Some m ->
  gridCell (myPos (moveTick isMoving dx dy s)) = (px (end_ m), py (end_ m)) ->
  gameState (moveTick isMoving dx dy s) = won /\
  coins (moveTick isMoving dx dy s) = coins s + earned (time s).
Proof.
  intros (_ & _ & _ & Hpos) Hgs Hmz. rewrite Hgs in Hpos. specialize (Hpos eq_refl m Hmz).
  unfold moveTick. rewrite Hgs, Hmz. simpl. destruct isMoving; [|done].
  destruct (myPos s) as [x y] eqn:Hxy.
  destruct (Collision.checkCollision _ _ _) as [bx| |]; [|by rewrite Hxy..].
  destruct (Collision.checkCollision _ _ _) as [by_| |]; [|by rewrite Hxy..].
  destruct (_ && _).
  { unfold respawn. rewrite Hmz. simpl. by rewrite Hxy. }
  set (next := (if bx then x else (x + dx)%Q, if by_ then y else (y + dy)%Q)).
  intros Hnext. simpl in Hnext. unfold winCheck. rewrite Hnext. simpl.
  by rewrite !Z.eqb_refl, Hgs.
Qed.

(** in [playing] neither the 100 ms timer nor the pursuer moves the
    player *)
Lemma tick_playing_pos rng s :
  gameState s = playing -> myPos (tick rng s) = myPos s /\ maze (tick rng s) = maze s.
Proof.
  intros Hgs. unfold tick. rewrite Hgs.
  unfold tickPhaseClock, tickTrap, tickWipe, respawn. split_cases; done.
Qed.

Lemma aiTick_pos caught s : myPos (aiTick caught s) = myPos s.
Proof. unfold aiTick, respawn. split_cases; done. Qed.

(** the trap timer takes at most one draw *)
Lemma tickTrap_rng rng s0 s :
  exists k, (k <= 1)%nat /\ (tickTrap rng s0 s).2 = drop k rng.
Proof.
  unfold tickTrap, randCoin, draw. split_cases; first [by exists 0%nat; auto | by exists 1%nat; auto].
Qed.
End GameFacts.

(** * The carve on the lattice of even cells *)

Module CarveMore.
Import Maze MazeFacts GenFacts.

Lemma forEach_inv_prefix {A S : Type} (I : list A -> S -> Prop)
    (body : S -> A -> Res S) (ds : list A) s s' :
  (forall seen s a s', a ∈ ds -> I seen s -> body s a = Ok s' -> I (seen ++ [a]) s') ->
  I [] s -> forEach body ds s = Ok s' -> I ds s'.
Proof.
  enough (Hgen : forall rest seen s,
    (forall seen s a s', a ∈ rest -> I seen s -> body s a = Ok s' -> I (seen ++ [a]) s') ->
    I seen s -> forEach body rest s = Ok s' -> I (seen ++ rest) s').
  { intros Hbody Hs. by apply (Hgen ds [] s). }
  clear ds s. induction rest as [|d rest IH]; intros seen s Hbody Hs; simpl.
  { rewrite app_nil_r. by intros [= <-]. }
  intros (s1 & H1 & H2)%bind_Ok.
  replace (seen ++ d :: rest) with ((seen ++ [d]) ++ rest) by (by rewrite <- app_assoc).
  eapply IH; [| |exact H2].
  - intros seen' s2 a s3 Ha. apply Hbody. by right.
  - eapply Hbody; [left | done | done].
Qed.

Lemma carvedAround_mono g g' w h c :
  (forall p, isFloor g p -> isFloor g' p) -> carvedAround g w h c -> carvedAround g' w h c.
Proof. intros Hsub Hc d Hd Hin. by apply Hsub, Hc. Qed.

(** two steps from a lattice cell is a lattice cell, one step is not *)
Lemma directions_lattice dx dy x y :
  (dx, dy) ∈ directions -> onLattice (x, y) ->
  onLattice (x + dx, y + dy) /\
  ~ onLattice (x + dx / 2, y + dy / 2) /\
  ~ (Z.odd (x + dx / 2) = true /\ Z.odd (y + dy / 2) = true).
Proof.
  unfold directions, onLattice. rewrite !elem_of_cons, elem_of_nil. cbn [fst snd].
  intros [[= -> ->]|[[= -> ->]|[[= -> ->]|[[= -> ->]|[]]]]] [Hx Hy];
    change (0 / 2) with 0; change (-2 / 2) with (-1); change (2 / 2) with 1;
    rewrite ?Z.add_0_r, ?Z.even_add, ?Z.odd_add, <- ?Z.negb_even, ?Hx, ?Hy; cbn;
    (split; [done|]); split; intros [? ?]; done.
Qed.

(** what a successful carve from a lattice cell does to a well-formed
    grid: floor cells stay, no cell with two odd coordinates is carved,
    and around the cell it starts from and around every lattice cell it
    carves the cells two steps away are floor in the end *)
Lemma walk_lattice w h fuel : forall x y g rng g' rng',
  walk fuel w h x y (g, rng) = Ok (g', rng') ->
  dims g w h -> binary g -> inBounds w h x y = true -> onLattice (x, y) ->
  dims g' w h /\ binary g' /\
  (forall p, isFloor g p -> isFloor g' p) /\ isFloor g' (x, y) /\
  (forall p, isFloor g' p -> isFloor g p \/ ~ (Z.odd p.1 = true /\ Z.odd p.2 = true)) /\
  carvedAround g' w h (x, y) /\
  (forall c, onLattice c -> isFloor g' c -> ~ isFloor g c -> carvedAround g' w h c).
Proof.
  induction fuel as [|fuel IH]; intros x y g rng g' rng'; simpl; [discriminate|].
  intros (g0 & Hw & Hrun)%bind_Ok Hd Hb Hxy Hlat.
  pose proof (shuffle_Permutation directions rng) as Hperm.
  destruct (shuffle directions rng) as [dirs rng1]. simpl in Hperm.
  destruct (write_in_range gridHole g x y 0) as (g0' & Hw' & Hcell0); [by eapply dims_cell|].
  rewrite Hw in Hw'. injection Hw' as <-.
  pose proof (floor_written g g0 x y Hcell0) as Hfl0.
  pose (I := fun (seen : list (Z * Z)) (st : list (list Z) * Rng) =>
    dims st.1 w h /\ binary st.1 /\
    (forall p, isFloor g0 p -> isFloor st.1 p) /\
    (forall p, isFloor st.1 p -> isFloor g0 p \/ ~ (Z.odd p.1 = true /\ Z.odd p.2 = true)) /\
    (forall d, d ∈ seen -> inBounds w h (x + d.1) (y + d.2) = true ->
               isFloor st.1 (x + d.1, y + d.2)) /\
    (forall c, onLattice c -> isFloor st.1 c -> ~ isFloor g0 c -> carvedAround st.1 w h c)).
  apply (forEach_inv_prefix I) in Hrun.
  - destruct Hrun as (Hd' & Hb' & Hsub & Hodd & Hseen & Hcl). cbn [fst] in *.
    split_and!; try done.
    + intros p Hp. apply Hsub, Hfl0. by right.
    + apply Hsub, Hfl0. by left.
    + intros p Hp. destruct (Hodd p Hp) as [[->|Hg]%Hfl0|Hn]; [|by left|by right].
      right. destruct Hlat as [Hx Hy]. cbn [fst snd] in *.
      rewrite <- Z.negb_even, Hx. by intros [? _].
    + intros d Hdin. apply Hseen. by rewrite Hperm.
    + intros c Hc Hfc Hng. destruct (decide (c = (x, y))) as [->|Hne].
      * intros d Hdin. apply Hseen. by rewrite Hperm.
      * apply Hcl; [done | done |]. intros [?|?]%Hfl0; done.
  - intros seen [gi ri] [dx dy] [gj rj] Hdir (Hdi & Hbi & Hsub & Hodd & Hseen & Hcl).
    cbn [fst snd] in *. rewrite Hperm in Hdir.
    destruct (directions_mid dx dy Hdir x y) as (_ & _ & Hne & _ & Hmid).
    destruct (directions_lattice dx dy x y Hdir Hlat) as (Hlat' & Hnl & Hno).
    unfold walkStep. cbn [fst snd].
    destruct (inBounds w h (x + dx) (y + dy)) eqn:Hn.
    2:{ intros [= <- <-]. unfold I. cbn [fst]. split_and!; try done.
        intros d [Hin|Heq%list_elem_of_singleton]%elem_of_app Hin'; [by apply Hseen|subst d].
        cbn [fst snd] in Hin'. congruence. }
    rewrite (cellIs_in gi w h) by done. rewrite mbind_Ok. case_bool_decide as Hone.
    2:{ intros [= <- <-]. unfold I. cbn [fst]. split_and!; try done.
        intros d [Hin|Heq%list_elem_of_singleton]%elem_of_app Hin'; [by apply Hseen|subst d].
        cbn [fst snd]. destruct (dims_cell gi w h _ _ Hdi Hn) as [c Hcn].
        destruct (Hbi _ _ _ Hcn) as [->| ->]; [done | by destruct Hone]. }
    specialize (Hmid w h Hxy Hn).
    destruct (write_in_range gridHole gi (x + dx / 2) (y + dy / 2) 0)
      as (g1 & Hw1 & Hcell1); [by eapply dims_cell|].
    rewrite Hw1, mbind_Ok. intros Hrec.
    pose proof (floor_written gi g1 _ _ Hcell1) as Hf1.
    apply IH in Hrec as (Hd3 & Hb3 & Hsub3 & Hroot3 & Hodd3 & Hcl3 & Hnew3);
      [|by eapply dims_write|by eapply binary_written|done|done].
    assert (Hsubi : forall p, isFloor gi p -> isFloor gj p).
    { intros p Hp. apply Hsub3, Hf1. by right. }
    unfold I. cbn [fst]. split_and!; try done.
    + intros p Hp. by apply Hsubi, Hsub.
    + intros p Hp. destruct (Hodd3 p Hp) as [[->|Hgi]%Hf1|Hn']; [by right | | by right].
      by apply Hodd.
    + intros d [Hin|Heq%list_elem_of_singleton]%elem_of_app Hin'; [by apply Hsubi, Hseen|].
      by subst d.
    + intros c Hc Hfc Hng0. destruct (decide (cell gi c.1 c.2 = Some 0)) as [Hgi|Hngi].
      * eapply carvedAround_mono; [exact Hsubi|]. by apply Hcl.
      * apply Hnew3; [done | done |]. intros [->|?]%Hf1; done.
  - unfold I. cbn [fst]. split_and!.
    + by eapply dims_write.
    + by eapply binary_written.
    + done.
    + intros p Hp. by left.
    + intros d Hin. by apply elem_of_nil in Hin.
    + intros c _ Hc Hn. done.
Qed.
End CarveMore.

(** * The parts of a generated maze *)

Module MazeLemmas.
Import Maze MazeFacts EndFacts TrapFacts BfsFacts GenFacts CarveMore.

#[local] Arguments walk : simpl never.
#[local] Arguments trapLoop : simpl never.
#[local] Arguments bfsPath : simpl never.
#[local] Arguments findEnd : simpl never.

(** the statements a successful call went through *)
Lemma generateMaze_inv fuel rng w h d m :
  generateMaze fuel rng w h d = Ok m ->
  exists g0 g rng1 e ts att rng2 path,
    newArr2 w h 1 = Ok g0 /\
    walk (S (Z.to_nat (w * h))) w h 0 0 (g0, rng) = Ok (g, rng1) /\
    findEnd g w h = Ok e /\
    trapLoop 100 g w h e (trapCountOf w h d) [] 0 rng1 = Ok (ts, att, rng2) /\
    bfsPath g w h e = Ok path /\
    m = mkMaze g w h (mkPoint 0 0) e ts (safeZonesOnPath path (safeZoneCountOf d)).
Proof.
  unfold generateMaze.
  intros (g0 & Hnew & H)%bind_Ok.
  apply bind_Ok in H as ([g rng1] & Hwalk & H).
  apply bind_Ok in H as (e & He & H).
  apply bind_Ok in H as ([[ts att] rng2] & Hts & H).
  apply bind_Ok in H as (path & Hpath & H).
  rewrite (bfsPath_nonempty _ _ _ _ _ Hpath), mbind_Ok in H. injection H as <-.
  by exists g0, g, rng1, e, ts, att, rng2, path.
Qed.

(** on positive dimensions the carve returns a well-formed grid *)
Lemma generateMaze_parts fuel rng w h d m :
  1 <= w -> 1 <= h -> generateMaze fuel rng w h d = Ok m ->
  exists rng1 att rng2 path,
    walk (S (Z.to_nat (w * h))) w h 0 0
      (replicate (Z.to_nat h) (replicate (Z.to_nat w) 1), rng) = Ok (grid m, rng1) /\
    findEnd (grid m) w h = Ok (end_ m) /\
    trapLoop 100 (grid m) w h (end_ m) (trapCountOf w h d) [] 0 rng1
      = Ok (traps m, att, rng2) /\
    bfsPath (grid m) w h (end_ m) = Ok path /\
    safeZones m = safeZonesOnPath path (safeZoneCountOf d) /\
    width m = w /\ height m = h /\ start m = mkPoint 0 0 /\
    dims (grid m) w h /\ binary (grid m) /\ bounded (grid m) w h /\
    connected (grid m) (0, 0) /\ isFloor (grid m) (0, 0) /\
    isFloor (grid m) (key (end_ m)) /\ inBounds w h (px (end_ m)) (py (end_ m)) = true /\
    head path = Some (mkPoint 0 0) /\ last path = Some (end_ m) /\ NoDup path.
Proof.
  intros Hw Hh Hgen.
  destruct (generateMaze_spec fuel rng w h d Hw Hh)
    as (g & e & ts & path & Hgen' & Hd & Hb & Hbd & Hc & H00 & Hfe & Hbe & _ & _ & Hp & Hhd & Hl & Hnd).
  rewrite Hgen in Hgen'. injection Hgen' as ->.
  destruct (generateMaze_inv _ _ _ _ _ _ Hgen)
    as (g0 & g1 & rng1 & e1 & ts1 & att & rng2 & path1 & Hnew & Hwalk & He & Hts & Hp1 & Hm).
  injection Hm as -> -> -> Hz. cbn [grid end_ traps safeZones width height start].
  rewrite Hp in Hp1. injection Hp1 as <-.
  rewrite newArr2_total in Hnew by lia. injection Hnew as <-.
  exists rng1, att, rng2, path. split_and!; done.
Qed.

(** ** The traps *)

Lemma trapLoop_placed g w h e n fuel : forall ts att rng ts' att' rng',
  trapLoop fuel g w h e n ts att rng = Ok (ts', att', rng') ->
  1 <= w -> 1 <= h ->
  Forall (trapPlaced g w h) ts -> NoDup ((fun t => (trapX t, trapY t)) <$> ts) ->
  Z.of_nat (length ts) <= Z.max 0 n -> Z.of_nat (length ts) <= att ->
  Forall (trapPlaced g w h) ts' /\ NoDup ((fun t => (trapX t, trapY t)) <$> ts') /\
  Z.of_nat (length ts') <= Z.max 0 n /\ Z.of_nat (length ts') <= att'.
Proof.
  intros ts att rng ts' att' rng' Hrun Hw Hh. revert ts att rng Hrun.
  induction fuel as [|fuel IH]; intros ts att rng; unfold trapLoop; fold trapLoop.
  - destruct ((Z.of_nat (length ts) <? n) && (att <? 100)); [discriminate|].
    by intros [= <- <- <-].
  - destruct ((Z.of_nat (length ts) <? n) && (att <? 100)) eqn:Hc.
    2:{ by intros [= <- <- <-]. }
    apply andb_true_iff in Hc as [Hlen%Z.ltb_lt _].
    pose proof (randBelow_range w rng ltac:(lia)) as Hx.
    destruct (randBelow w rng) as [tx rng1].
    pose proof (randBelow_range h rng1 ltac:(lia)) as Hy.
    destruct (randBelow h rng1) as [ty rng2]. cbn [fst] in Hx, Hy.
    intros (b & Hb%cellIs_Ok & Hrec)%bind_Ok Hts Hnd Hn Hatt.
    destruct (b && negb ((tx =? 0) && (ty =? 0)) && negb ((tx =? px e) && (ty =? py e))
              && negb (existsb (trapAt tx ty) ts)) eqn:Hguard.
    2:{ apply IH in Hrec; [done | done | done | done | lia]. }
    apply IH in Hrec; [done | | | rewrite length_app; simpl; lia
                      | rewrite length_app; simpl; lia].
    + apply Forall_app. split; [done|]. apply Forall_singleton.
      apply andb_true_iff in Hguard as [Hguard _].
      apply andb_true_iff in Hguard as [Hguard _].
      apply andb_true_iff in Hguard as [Hbt _].
      unfold trapPlaced, newTrap. cbn [trapX trapY trapId trapState].
      split_and!; [apply inBounds_spec; lia | by apply Hb | done | done].
    + rewrite fmap_app. cbn [fmap list_fmap]. apply NoDup_app. split; [done|]. split.
      * intros p Hp ->%list_elem_of_singleton.
        apply andb_true_iff in Hguard as [_ Hex%negb_true_iff].
        apply list_elem_of_fmap in Hp as (t & Ht & Hin). injection Ht as -> ->.
        assert (existsb (trapAt (trapX t) (trapY t)) ts = true); [|congruence].
        apply existsb_exists. exists t. split; [by apply list_elem_of_In|].
        unfold trapAt. by rewrite !Z.eqb_refl.
      * apply NoDup_singleton.
Qed.

(** ** The end cell *)

Lemma findEnd_nearest g w h e c :
  1 <= w -> 1 <= h -> findEnd g w h = Ok e ->
  inBounds w h c.1 c.2 = true -> isFloor g c ->
  isFloor g (key e) /\ inBounds w h (px e) (py e) = true /\
  ringOf w h (key e) <= ringOf w h c.
Proof.
  intros Hw Hh. unfold findEnd. intros (r & Hr & [= <-])%bind_Ok Hc%inBounds_spec Hfl.
  destruct r as [p|]; cbn [from_option id].
  - apply findFirst_Some in Hr as (i & d0 & Hi & Hring & Hbefore).
    apply lookup_seqZ in Hi as [-> Hi].
    apply scanRing_Some in Hring as (Hx & Hy & Hp & _).
    split; [done|]. split; [apply inBounds_spec; lia|].
    destruct (Z.lt_ge_cases (ringOf w h c) (0 + Z.of_nat i)) as [Hlt|Hge];
      [|unfold ringOf, key in *; cbn [fst snd] in *; lia].
    exfalso. unfold ringOf in Hlt.
    assert (Hk : (Z.to_nat (ringOf w h c) < i)%nat) by (unfold ringOf; lia).
    specialize (Hbefore (Z.to_nat (ringOf w h c)) (ringOf w h c) Hk).
    rewrite lookup_seqZ in Hbefore.
    unfold ringOf in Hbefore.
    specialize (Hbefore ltac:(lia)).
    eapply (scanRing_None _ _ _ _ Hbefore c.1 c.2); [lia | lia |]. by destruct c.
  - exfalso. pose proof (findFirst_None _ _ Hr (ringOf w h c)) as Hnone.
    unfold ringOf in Hnone. rewrite elem_of_seqZ in Hnone. specialize (Hnone ltac:(lia)).
    eapply (scanRing_None _ _ _ _ Hnone c.1 c.2); [lia | lia |]. by destruct c.
Qed.

(** ** The lattice of the carve *)

Lemma fresh_grid w h :
  0 <= w -> 0 <= h ->
  let g := replicate (Z.to_nat h) (replicate (Z.to_nat w) 1) in
  dims g w h /\ binary g /\ forall p, ~ isFloor g p.
Proof.
  intros Hw Hh g. split_and!.
  - apply (dims_newArr2 w h 1). by apply newArr2_total.
  - intros x y c ->%cell_replicate. by right.
  - intros [x y] Hp. by apply cell_replicate in Hp.
Qed.

Lemma carved_lattice g w h :
  isFloor g (0, 0) ->
  (forall c, onLattice c -> isFloor g c -> carvedAround g w h c) ->
  forall n x y, Z.to_nat (x + y) = n -> onLattice (x, y) -> inBounds w h x y = true ->
                isFloor g (x, y).
Proof.
  intros H00 Hcl n. induction (lt_wf n) as [n _ IH]. intros x y Hn [Hx Hy] Hin.
  cbn [fst snd] in *. apply inBounds_spec in Hin.
  apply Z.even_spec in Hx as [a ->]. apply Z.even_spec in Hy as [b ->].
  destruct (decide (a = 0)) as [->|Ha]; [destruct (decide (b = 0)) as [->|Hb]|]; [done | |].
  - assert (Hp : isFloor g (2 * 0, 2 * (b - 1))).
    { apply (IH (Z.to_nat (2 * 0 + 2 * (b - 1)))); [lia | done | |apply inBounds_spec; lia].
      split; cbn [fst snd]; apply Z.even_spec; by eexists. }
    specialize (Hcl (2 * 0, 2 * (b - 1))). unfold carvedAround in Hcl. cbn [fst snd] in Hcl.
    replace (2 * 0, 2 * b) with (2 * 0 + (0, 2).1, 2 * (b - 1) + (0, 2).2)
      by (cbn [fst snd]; f_equal; lia).
    apply Hcl; [|done| |cbn [fst snd]; apply inBounds_spec; lia].
    + split; cbn [fst snd]; apply Z.even_spec; by eexists.
    + unfold directions. rewrite !elem_of_cons. auto 6.
  - assert (Hp : isFloor g (2 * (a - 1), 2 * b)).
    { apply (IH (Z.to_nat (2 * (a - 1) + 2 * b))); [lia | done | |apply inBounds_spec; lia].
      split; cbn [fst snd]; apply Z.even_spec; by eexists. }
    specialize (Hcl (2 * (a - 1), 2 * b)). unfold carvedAround in Hcl. cbn [fst snd] in Hcl.
    replace (2 * a, 2 * b) with (2 * (a - 1) + (2, 0).1, 2 * b + (2, 0).2)
      by (cbn [fst snd]; f_equal; lia).
    apply Hcl; [|done| |cbn [fst snd]; apply inBounds_spec; lia].
    + split; cbn [fst snd]; apply Z.even_spec; by eexists.
    + unfold directions. rewrite !elem_of_cons. auto 6.
Qed.

(** the grid of a generated maze on the lattice and off it *)
Lemma generated_lattice fuel rng w h d m :
  1 <= w -> 1 <= h -> generateMaze fuel rng w h d = Ok m ->
  (forall c, onLattice c -> inBounds w h c.1 c.2 = true -> isFloor (grid m) c) /\
  (forall c, isFloor (grid m) c -> ~ (Z.odd c.1 = true /\ Z.odd c.2 = true)).
Proof.
  intros Hw Hh Hgen.
  destruct (generateMaze_parts _ _ _ _ _ _ Hw Hh Hgen) as (rng1 & _ & _ & _ & Hwalk & _).
  destruct (fresh_grid w h ltac:(lia) ltac:(lia)) as (Hd & Hb & Hnone).
  apply walk_lattice in Hwalk as (_ & _ & _ & H00 & Hodd & Hroot & Hnew);
    [|done|done|apply inBounds_spec; lia|done].
  split.
  - intros [x y] Hc Hin. apply (carved_lattice (grid m) w h H00) with (n := Z.to_nat (x + y));
      [|done|done|done].
    intros c Hlc Hfc. apply Hnew; [done | done | apply Hnone].
  - intros c Hc. destruct (Hodd c Hc) as [?|?]; [by destruct (Hnone c) | done].
Qed.
End MazeLemmas.

(** * The generator against its specification *)

Module MazeSpec.
Import Maze MazeFacts GenFacts TrapFacts MazeLemmas MazeSamples.

(** C2: for every width and height of at least 2 and every difficulty of
    at least 0 [generateMaze] returns a maze whose start cell is a floor
    cell, and in it the floor cells are exactly the cells reachable from
    the start cell by 4-directional steps through floor cells; among
    them are the end cell and every cell of the grid with two even
    coordinates. *)
Theorem generateMaze_floor_reachable fuel rng w h d :
  2 <= w -> 2 <= h -> (0 <= d)%Q ->
  exists m, generateMaze fuel rng w h d = Ok m /\
    isFloor (grid m) (px (start m), py (start m)) /\
    (forall p, isFloor (grid m) p <-> reach (grid m) (px (start m), py (start m)) p) /\
    reach (grid m) (px (start m), py (start m)) (px (end_ m), py (end_ m)) /\
    (forall x y, inBounds w h x y = true -> Z.even x = true -> Z.even y = true ->
                 reach (grid m) (px (start m), py (start m)) (x, y)).
Proof.
  intros Hw Hh _.
  destruct (generateMaze_spec fuel rng w h d ltac:(lia) ltac:(lia))
    as (g & e & ts & path & Hgen & _ & _ & _ & Hc & H00 & He & _).
  destruct (generated_lattice fuel rng w h d _ ltac:(lia) ltac:(lia) Hgen) as [Hlat _].
  eexists. split; [exact Hgen|]. cbn [grid start end_ px py] in *.
  split; [exact H00|]. split; [|split; [by apply Hc|]].
  - intros p. split; [apply Hc | apply reach_floor].
  - intros x y Hin Hx Hy. apply Hc. by apply (Hlat (x, y)).
Qed.

Lemma generateMaze_floor_reachable_witness :
  exists m, generateMaze 0 [] 3 3 1 = Ok m /\
    isFloor (grid m) (px (start m), py (start m)) /\
    (forall p, isFloor (grid m) p <-> reach (grid m) (px (start m), py (start m)) p) /\
    reach (grid m) (px (start m), py (start m)) (px (end_ m), py (end_ m)) /\
    (forall x y, inBounds 3 3 x y = true -> Z.even x = true -> Z.even y = true ->
                 reach (grid m) (px (start m), py (start m)) (x, y)).
Proof. apply (generateMaze_floor_reachable 0 [] 3 3 1); [lia | lia | discriminate]. Defined.

(** C3, as stated, fails: the 2 x 2 maze has a single floor cell, which is
    its start cell, its end cell and each of its safe zones. *)
Lemma start_is_end_at_2x2 :
  2 <= 2 /\ (0 <= 1)%Q /\
  exists m, generateMaze 0 [] 2 2 1 = Ok m /\
    start m = end_ m /\ start m ∈ safeZones m /\ end_ m ∈ safeZones m.
Proof.
  split; [lia|]. split; [discriminate|].
  eexists. split; [vm_compute; reflexivity|]. cbn [start end_ safeZones].
  split; [reflexivity|]. split; left.
Qed.

(** C3, amended: in the maze [generateMaze] returns for a width and height
    of at least 2, no trap is on the start cell or on the end cell; the
    start cell and the end cell are distinct when the width or the height
    is at least 3; every safe zone is a cell of the path the breadth-first
    search finds from the start cell to the end cell, and when that path
    has at least [safeZoneCount + 2] cells no safe zone is the start cell
    or the end cell. *)
Theorem start_end_traps_zones fuel rng w h d :
  2 <= w -> 2 <= h -> (0 <= d)%Q ->
  exists m path,
    generateMaze fuel rng w h d = Ok m /\
    Forall (fun t => (trapX t, trapY t) <> (px (start m), py (start m)) /\
                     (trapX t, trapY t) <> (px (end_ m), py (end_ m))) (traps m) /\
    (3 <= w \/ 3 <= h -> start m <> end_ m) /\
    bfsPath (grid m) w h (end_ m) = Ok path /\
    Forall (fun z => z ∈ path) (safeZones m) /\
    (safeZoneCountOf d + 2 <= Z.of_nat (length path) ->
     Forall (fun z => z <> start m /\ z <> end_ m) (safeZones m)).
Proof.
  intros Hw Hh _.
  destruct (generateMaze_spec fuel rng w h d ltac:(lia) ltac:(lia))
    as (g & e & ts & path & Hgen & _ & _ & _ & _ & _ & _ & _ & Hne & Hts & Hpath & Hhd & Hl & Hnd).
  eexists _, path. split; [exact Hgen|]. cbn [grid start end_ traps safeZones px py].
  split_and!.
  - exact Hts.
  - intros H3 E. apply (Hne H3). by rewrite <- E.
  - exact Hpath.
  - apply safeZonesOnPath_on_path. by destruct path.
  - intros HL. apply safeZonesOnPath_interior; try done. apply safeZoneCountOf_pos.
Qed.

Lemma start_end_traps_zones_witness :
  exists m path,
    generateMaze 0 draws 13 13 1 = Ok m /\
    length (traps m) = 8%nat /\ length path = 37%nat /\
    start m <> end_ m /\
    Forall (fun t => (trapX t, trapY t) <> (px (start m), py (start m)) /\
                     (trapX t, trapY t) <> (px (end_ m), py (end_ m))) (traps m) /\
    Forall (fun z => z ∈ path /\ z <> start m /\ z <> end_ m) (safeZones m).
Proof.
  destruct (start_end_traps_zones 0 draws 13 13 1 ltac:(lia) ltac:(lia) ltac:(discriminate))
    as (m & path & Hgen & Htr & Hne & Hp & Hon & Hint).
  exists m, path.
  assert (Hm : exists m0, generateMaze 0 draws 13 13 1 = Ok m0 /\ length (traps m0) = 8%nat /\
            exists p0, bfsPath (grid m0) 13 13 (end_ m0) = Ok p0 /\ length p0 = 37%nat).
  { eexists. split; [vm_compute; reflexivity|]. split; [reflexivity|].
    eexists. split; [vm_compute; reflexivity | reflexivity]. }
  destruct Hm as (m0 & Hgen0 & Hlen0 & p0 & Hp0 & Hl0).
  rewrite Hgen in Hgen0. injection Hgen0 as <-.
  rewrite Hp in Hp0. injection Hp0 as <-.
  split; [exact Hgen|]. split; [exact Hlen0|]. split; [exact Hl0|].
  split; [apply Hne; lia|]. split; [exact Htr|].
  apply Forall_and. split; [exact Hon|]. apply Hint. rewrite Hl0. vm_compute. discriminate.
Defined.

(** C9: [generateMaze] terminates on every input.  No loop runs out of the
    bound computed for it: the recursive carve within [w * h + 1] nested
    calls, the breadth-first search and the walk along the parent
    pointers within the number of cells, the trap loop within its 100
    attempts; and the fallback loop for the safe zones, the only loop
    without an attempt bound, is never entered, so the fuel handed to it
    does not matter.  For positive dimensions the result is a maze (for
    others the call may end by an exception). *)
Theorem generateMaze_terminates fuel rng w h d :
  generateMaze fuel rng w h d <> OutOfFuel /\
  generateMaze fuel rng w h d = generateMaze 0 rng w h d /\
  (forall g e n rng0,
     match trapLoop 100 g w h e n [] 0 rng0 with
     | Ok (_, attempts, _) => 0 <= attempts <= 100
     | Throw _ => True
     | OutOfFuel => False
     end) /\
  (1 <= w -> 1 <= h -> exists m, generateMaze fuel rng w h d = Ok m).
Proof.
  split_and!.
  - apply generateMaze_fuel.
  - apply generateMaze_fuel_irrelevant.
  - intros g e n rng0.
    pose proof (trapLoop_fuel g w h e n 100 [] 0 rng0 ltac:(lia)) as Hf.
    pose proof (trapLoop_inv g w h e n 100 [] 0 rng0) as Hi.
    destruct (trapLoop 100 g w h e n [] 0 rng0) as [[[ts att] rng1]| |]; [|done..].
    apply (Hi ts att rng1 eq_refl); [constructor | lia].
  - intros Hw Hh.
    destruct (generateMaze_spec fuel rng w h d Hw Hh) as (g & e & ts & path & Hgen & _).
    eauto.
Qed.
End MazeSpec.

(** * The collision test against its specification *)

Module CollisionSpec.
Import Collision CollisionFacts MazeSamples.


(** why the corner sums must be exact: the position 27.999999999999996 is
    in cell 0, and so is its exact sum with the margin, but the double
    nearest to that sum is 40, in cell 1; and at that position of the
    maze [[0, 1], [1, 1]] the corners of [corners] all lie in the floor
    cell, while the rounded sum lies in the wall next to it. *)
Lemma corner_sum_rounds :
  let x := Double.round64 (27999999999999996 # 1000000000000000) in
  cellOf (x + 12) = 0 /\ Double.add x 12 == 40 /\ cellOf (Double.add x 12) = 1 /\
  ~ exactCorners x 20 /\
  checkCollision x 20 (mkMaze [[0; 1]; [1; 1]] 2 2 (mkPoint 0 0) (mkPoint 0 0) [] []) = Ok false.
Proof.
  split_and!; [by vm_compute.. | | by vm_compute].
  intros (_ & H & _). vm_compute in H. discriminate H.
Qed.


End CollisionSpec.

(** * The session against its specification *)

Module GameSpec.
Import Game GameFacts GameSamples RaceSamples.

(** C4, as stated, fails: when the practice timer expires the maze is
    replaced. *)
Lemma practice_expiry_changes_maze :
  gameState practiceEnding = practice /\
  Qle_bool (practiceTimer practiceEnding) tenth = true /\
  gameState (step practiceEnding (Tick [])) = playing /\
  maze (step practiceEnding (Tick [])) <> maze practiceEnding.
Proof.
  split_and!; [done..|].
  intros E.
  assert (H1 : (maze practiceEnding ≫= fun m => cell (grid m) 1 0) = Some 0)
    by (vm_compute; reflexivity).
  assert (H2 : (maze (step practiceEnding (Tick [])) ≫= fun m => cell (grid m) 1 0) = Some 1)
    by (vm_compute; reflexivity).
  rewrite E, H1 in H2. discriminate.
Qed.

(** C4, amended: when the practice timer expires in state [practice], the
    100 ms timer calls [initGame]: the session goes to [playing] with the
    same difficulty and with a maze that [generateMaze] makes anew, from
    the random draws that follow the at most one draw of the trap timer,
    and the player is put on its start cell. *)
Theorem practice_expiry_regenerates s rng :
  reachable s -> gameState s = practice -> Qle_bool (practiceTimer s) tenth = true ->
  exists k m,
    (k <= 1)%nat /\
    Maze.generateMaze fallbackFuel (drop k rng)
      (12 + Qfloor (difficulty s * (15 # 10))) (12 + Qfloor (difficulty s * (15 # 10)))
      (difficulty s) = Ok m /\
    gameState (step s (Tick rng)) = playing /\
    difficulty (step s (Tick rng)) = difficulty s /\
    maze (step s (Tick rng)) = Some m /\
    myPos (step s (Tick rng)) = startPos m.
Proof.
  intros Hs Hgs Hpt.
  pose proof (difficulty_bounds s Hs) as [Hd _].
  pose proof (size_bound _ Hd) as Hsz.
  destruct (tick_before_practice rng s) as [Hd1 Hp1].
  destruct (tickTrap_rng rng s (tickWipe s s)) as (k & Hk & Hrng).
  cbn [step]. unfold tick. rewrite Hgs.
  destruct (tickTrap rng s (tickWipe s s)) as [s1 rng1]. cbn [fst snd] in *. subst rng1.
  unfold tickPractice. rewrite Hp1, Hpt. unfold initGame. rewrite Hd1.
  destruct (GenFacts.generateMaze_spec fallbackFuel (drop k rng)
              (12 + Qfloor (difficulty s * (15 # 10))) (12 + Qfloor (difficulty s * (15 # 10)))
              (difficulty s) ltac:(lia) ltac:(lia)) as (g & e & ts & path & Hgen & _).
  exists k. eexists. split; [exact Hk|]. split; [exact Hgen|].
  cbv zeta. rewrite Hgen. by cbn.
Qed.

Lemma practice_expiry_regenerates_witness :
  exists k m,
    (k <= 1)%nat /\
    Maze.generateMaze fallbackFuel (drop k [])
      (12 + Qfloor (difficulty practiceEnding * (15 # 10)))
      (12 + Qfloor (difficulty practiceEnding * (15 # 10)))
      (difficulty practiceEnding) = Ok m /\
    gameState (step practiceEnding (Tick [])) = playing /\
    difficulty (step practiceEnding (Tick [])) = difficulty practiceEnding /\
    maze (step practiceEnding (Tick [])) = Some m /\
    myPos (step practiceEnding (Tick [])) = startPos m.
Proof.
  apply (practice_expiry_regenerates practiceEnding []).
  - apply reachable_run. constructor.
  - reflexivity.
  - reflexivity.
Defined.

(** C5 does not hold of the code: the one-shot timer of a shop purchase
    sets the state to [distractor] whatever the state has become.  When
    it fires after the distractor that followed the shop of phase 2 has
    ended, the session is in the distractor again with its timer at 0,
    and the next tick raises the phase from 3 to 4; the game is then over
    when the clock of phase 4 expires. *)
Theorem phase_reaches_four :
  reachable (run initial lateShopConfirm) /\
  phase (run initial (take 22 lateShopConfirm)) = 3 /\
  phase (run initial (take 24 lateShopConfirm)) = 4 /\
  gameState (run initial (take 24 lateShopConfirm)) = playing /\
  phase (run initial lateShopConfirm) = 4 /\
  gameState (run initial lateShopConfirm) = gameover.
Proof.
  split; [apply reachable_run; constructor|].
  split_and!; vm_compute; reflexivity.
Qed.

(** C6: for every tick (of the 100 ms timer, of the movement or of the
    pursuer) in state [playing] after which the player's grid cell is the
    end cell of the maze, the state becomes [won] and the coins grow by
    [max(1, min(5, floor(30 / (elapsed + 1))))], [elapsed] being the race
    time at that tick. *)
Theorem win_awards_coins s e m :
  reachable s -> isTick e -> gameState s = playing -> maze s = Some m ->
  gridCell (myPos (step s e)) = (px (end_ m), py (end_ m)) ->
  gameState (step s e) = won /\
  coins (step s e) = coins s + Z.max 1 (Z.min 5 (Qfloor (30 / (time s + 1)))).
Proof.
  intros Hs He Hgs Hmz Hend. pose proof (reachable_inv s Hs) as Hinv.
  assert (Hpos : gridCell (myPos s) <> (px (end_ m), py (end_ m))).
  { destruct Hinv as (_ & _ & _ & Hpos). apply Hpos; [by rewrite Hgs | done]. }
  destruct e; try done; cbn [step] in *.
  - destruct (tick_playing_pos rng s Hgs) as [E _]. by rewrite E in Hend.
  - by apply (moveTick_win isMoving dx dy s m).
  - by rewrite aiTick_pos in Hend.
Qed.

Lemma win_awards_coins_witness :
  exists m, maze (run initial approach) = Some m /\
    time (run initial approach) == 5066549580791799 # 562949953421312 /\
    gameState (step (run initial approach) (MoveTick true 0 4)) = won /\
    coins (step (run initial approach) (MoveTick true 0 4)) = coins (run initial approach) + 3.
Proof.
  assert (Hm : exists m, maze (run initial approach) = Some m /\
            gridCell (myPos (step (run initial approach) (MoveTick true 0 4)))
              = (px (end_ m), py (end_ m))).
  { eexists. split; [vm_compute; reflexivity | vm_compute; reflexivity]. }
  destruct Hm as (m & Hmz & Hend). exists m. split; [exact Hmz|].
  split; [vm_compute; reflexivity|].
  assert (Ht : Z.max 1 (Z.min 5 (Qfloor (30 / (time (run initial approach) + 1)))) = 3)
    by (vm_compute; reflexivity).
  rewrite <- Ht.
  apply (win_awards_coins (run initial approach) (MoveTick true 0 4) m).
  - apply reachable_run. constructor.
  - exact I.
  - vm_compute; reflexivity.
  - exact Hmz.
  - exact Hend.
Defined.

(** C10: the difficulty starts at 1, every raise of it is clamped to 10,
    and in every reachable state of the session it is at most 10. *)
Theorem difficulty_at_most_ten s :
  reachable s ->
  (difficulty s <= 10)%Q /\ difficulty initial = 1%Q /\
  forall b d, (raiseDifficulty b d <= 10)%Q.
Proof.
  intros Hs. split; [apply (difficulty_bounds s Hs)|]. split; [done|].
  intros b d. unfold raiseDifficulty.
  destruct (Qle_bool (d + b) 10) eqn:E; [by apply Qle_bool_iff | lra].
Qed.

Lemma difficulty_at_most_ten_witness :
  (difficulty (run initial manyWins) <= 10)%Q /\ difficulty (run initial manyWins) == 10.
Proof.
  split; [|vm_compute; reflexivity].
  apply (difficulty_at_most_ten (run initial manyWins)).
  apply reachable_run. constructor.
Defined.
End GameSpec.

(** * Further properties of the relay *)

Module RelayMore.
Import Relay RelayRun RelaySamples.

Lemma elem_of_broadcastToRoom srv rid message excludeWs to msg :
  (to, msg) ∈ broadcastToRoom srv rid message excludeWs <->
  msg = message /\ Some to <> excludeWs /\
  exists c, c ∈ clients srv /\ connId c = to /\ isOpen c = true.
Proof.
  unfold broadcastToRoom. rewrite list_elem_of_omap. split.
  - intros (c & Hc & Hsome). destruct (isOpen c) eqn:Ho; [|done]. simpl in Hsome.
    case_bool_decide as Hex; [done|]. simpl in Hsome. injection Hsome as <- <-.
    split; [done|]. split; [done|]. by exists c.
  - intros (-> & Hex & c & Hc & <- & Ho). exists c. split; [done|].
    by rewrite Ho, bool_decide_eq_false_2.
Qed.

Lemma findConn_updConn ws g srv :
  (forall c, connId (g c) = connId c) ->
  findConn (updConn ws g srv) ws = g <$> findConn srv ws.
Proof.
  intros Hg. unfold findConn, updConn. simpl.
  induction (clients srv) as [|c cs IH]; [done|]. simpl.
  destruct (Nat.eqb (connId c) ws) eqn:E.
  - by rewrite Hg, E.
  - by rewrite E.
Qed.

Lemma clients_updConn ws g srv c :
  c ∈ clients (updConn ws g srv) ->
  exists c0, c0 ∈ clients srv /\ c = if Nat.eqb (connId c0) ws then g c0 else c0.
Proof.
  unfold updConn. simpl. intros (c0 & -> & Hc0)%list_elem_of_fmap. eauto.
Qed.

(** X1: in every state the relay reaches, a room whose players object
    still has its original prototype has at least one player: a room is
    created by the JOIN_ROOM that puts its first player in, and the close
    handler deletes the room with its last player.  (A JOIN_ROOM under
    the player name ["__proto__"] replaces the prototype and adds no
    player; only such a room can be empty.) *)
Theorem rooms_never_empty srv rid room :
  reachable srv -> rooms srv !! rid = Some room -> playersProto room = None ->
  players room <> ∅.
Proof.
  intros Hr. revert rid room.
  induction Hr as [|srv ws _ IH _|srv ws c data r _ IH Hc Ho Hm|srv ws c _ IH Hc Ho];
    intros rid room.
  - unfold Relay.empty. cbn [rooms]. by rewrite lookup_empty.
  - apply IH.
  - unfold onMessage in Hm. rewrite Hc in Hm.
    destruct data as [[|type f]|]; [done| |done].
    repeat case_bool_decide.
    + injection Hm as <-. unfold joinRoom. cbn [fst rooms updConn].
      destruct (decide (rid = fRoomId f)) as [->|Hne].
      * rewrite lookup_insert_eq. intros [= <-]. unfold setPlayer.
        destruct (String.eqb _ _); cbn [players playersProto]; [done|].
        intros _. apply insert_non_empty.
      * rewrite lookup_insert_ne by done. apply IH.
    + unfold updatePosition in Hm.
      destruct (currentRoomId c) as [r0|]; [|injection Hm as <-; apply IH].
      destruct (playerId c) as [p0|]; [|injection Hm as <-; apply IH].
      destruct (_ && _); [|injection Hm as <-; apply IH].
      destruct (rooms srv !! r0) as [room0|] eqn:Hroom; [|injection Hm as <-; apply IH].
      destruct (getPlayer srv room0 p0) as [e|e| | |[|]|];
        try discriminate Hm; injection Hm as <-; cbn [fst rooms]; try apply IH.
      * destruct (decide (rid = r0)) as [->|Hne].
        -- rewrite lookup_insert_eq. intros [= <-]. cbn [players playersProto].
           intros _. apply insert_non_empty.
        -- rewrite lookup_insert_ne by done. apply IH.
      * destruct (decide (rid = r0)) as [->|Hne].
        -- rewrite lookup_insert_eq. by intros [= <-].
        -- rewrite lookup_insert_ne by done. apply IH.
    + injection Hm as <-. unfold win. destruct (currentRoomId c); [|apply IH].
      destruct (truthy _); apply IH.
    + injection Hm as <-. apply IH.
  - unfold onClose. rewrite Hc.
    destruct (currentRoomId c) as [r0|]; [|apply IH].
    destruct (playerId c) as [p0|]; [|apply IH].
    destruct (_ && _); [|apply IH]. cbn [rooms updConn].
    destruct (rooms srv !! r0) as [room0|] eqn:Hroom; [|apply IH].
    case_bool_decide as Hsz; cbn [fst rooms].
    + destruct (decide (rid = r0)) as [->|Hne].
      * by rewrite lookup_delete_eq.
      * rewrite lookup_delete_ne by done. apply IH.
    + destruct (decide (rid = r0)) as [->|Hne].
      * rewrite lookup_insert_eq. intros [= <-]. cbn [players].
        intros _ E. apply Hsz. by rewrite E, map_size_empty.
      * rewrite lookup_insert_ne by done. apply IH.
Qed.

Lemma rooms_never_empty_witness :
  exists room, rooms afterJoinB !! "A" = Some room /\ playersProto room = None /\
               players room <> ∅.
Proof.
  assert (Hr : reachable afterJoinB).
  { apply (reach_message afterJoinA 1 (mkConn 1 None None true)
             (Some (JValue (Some "JOIN_ROOM") joinB)) (joinRoom 1 joinB afterJoinA));
      [|reflexivity..].
    apply (reach_message twoClients 0 (mkConn 0 None None true)
             (Some (JValue (Some "JOIN_ROOM") joinA)) (joinRoom 0 joinA twoClients));
      [|reflexivity..].
    apply reach_connection.
    - apply reach_connection; [apply reach_start|]. by intros c ?%elem_of_nil.
    - intros c Hc E. apply list_elem_of_singleton in Hc as ->. discriminate. }
  assert (Hl : exists room, rooms afterJoinB !! "A" = Some room /\ playersProto room = None).
  { eexists. split; vm_compute; reflexivity. }
  destruct Hl as (room & Hl & Hp). exists room. split; [exact Hl|]. split; [exact Hp|].
  exact (rooms_never_empty afterJoinB "A" room Hr Hl Hp).
Defined.

(** all open connections, before and after [ws] is marked *)
Lemma open_all ws g srv to :
  (forall c, connId (g c) = connId c) -> (forall c, isOpen (g c) = isOpen c) ->
  (exists c, c ∈ clients (updConn ws g srv) /\ connId c = to /\ isOpen c = true)
  <-> (exists c, c ∈ clients srv /\ connId c = to /\ isOpen c = true).
Proof.
  intros Hg Ho. unfold updConn. cbn [clients]. split.
  - intros (c & (c0 & -> & Hc0)%list_elem_of_fmap & Hid & Hop). exists c0.
    destruct (Nat.eqb (connId c0) ws); [by rewrite Hg, Ho in * | done].
  - intros (c & Hc & Hid & Hop).
    exists (if Nat.eqb (connId c) ws then g c else c). split.
    + apply list_elem_of_fmap. by exists c.
    + destruct (Nat.eqb (connId c) ws); [by rewrite Hg, Ho | done].
Qed.

(** X2: JOIN_ROOM.  After a connection has joined, the room named in the
    message exists; its maze is the one of the message only if the room
    did not exist before (the first player sends the maze).  Under any
    player name but ["__proto__"] the room lists the player under that
    name with the position and colour of the message and angle 0, its
    other players being as before.  Under ["__proto__"] no player is
    added: the entry becomes the prototype of the players object, and a
    room this creates has no player.  Every other room is as before, and
    PLAYER_JOINED with the players and the maze of the room goes to
    exactly the open connections. *)
Theorem join_then_lookup ws f srv :
  exists room,
    rooms (joinRoom ws f srv).1 !! fRoomId f = Some room /\
    roomMaze room = match rooms srv !! fRoomId f with
                    | Some old => roomMaze old
                    | None => fMaze f
                    end /\
    (if decide (fPlayerId f = "__proto__")
     then players room = from_option players ∅ (rooms srv !! fRoomId f) /\
          playersProto room = Some (mkEntry (fPlayerId f) (fX f) (fY f) 0 (fColor f))
     else players room
            = <[fPlayerId f := mkEntry (fPlayerId f) (fX f) (fY f) 0 (fColor f)]>
                (from_option players ∅ (rooms srv !! fRoomId f)) /\
          playersProto room = rooms srv !! fRoomId f ≫= playersProto) /\
    (forall rid, rid <> fRoomId f ->
       rooms (joinRoom ws f srv).1 !! rid = rooms srv !! rid) /\
    (forall to msg, (to, msg) ∈ (joinRoom ws f srv).2 <->
       msg = PLAYER_JOINED (players room) (roomMaze room) /\
       exists c, c ∈ clients srv /\ connId c = to /\ isOpen c = true).
Proof.
  unfold joinRoom. cbn [fst snd rooms updConn]. eexists.
  split; [apply lookup_insert_eq|].
  split; [unfold setPlayer; destruct (String.eqb _ _), (rooms srv !! fRoomId f); done|].
  split.
  { unfold setPlayer. destruct (decide (fPlayerId f = "__proto__")) as [E|E].
    - rewrite (proj2 (String.eqb_eq _ _) E). cbn [players playersProto].
      by destruct (rooms srv !! fRoomId f).
    - rewrite (proj2 (String.eqb_neq _ _) E). cbn [players playersProto].
      by destruct (rooms srv !! fRoomId f). }
  split; [intros rid Hne; by rewrite lookup_insert_ne|].
  intros to msg. rewrite elem_of_broadcastToRoom.
  set (g := fun c0 : Conn =>
              mkConn (connId c0) (Some (fRoomId f)) (Some (fPlayerId f)) (isOpen c0)).
  change (clients (mkServer _ ?cs _)) with (clients (updConn ws g srv)).
  rewrite (open_all ws g srv to) by done.
  split; [intros (-> & _ & Hex); by split | intros (-> & Hex); by split_and!].
Qed.

(** at the player name ["__proto__"] on a fresh room: the room exists
    without a player, and PLAYER_JOINED reaches the open connections with
    no player in it *)
Lemma join_under_proto :
  rooms (joinRoom 0 (mkFields "A" "__proto__" None 20 20 0 "red" 0) twoClients).1 !! "A"
    = Some (mkRoom ∅ (Some (mkEntry "__proto__" 20 20 0 "red")) None) /\
  (joinRoom 0 (mkFields "A" "__proto__" None 20 20 0 "red" 0) twoClients).2
    = [(0%nat, PLAYER_JOINED ∅ None); (1%nat, PLAYER_JOINED ∅ None)].
Proof. split; vm_compute; reflexivity. Qed.

(** an UPDATE_POSITION from a connection whose player name is a method of
    [Object.prototype] and whose room no longer lists it still sends
    STATE_UPDATE to the other open connections *)
Lemma update_under_inherited_name :
  let srv := mkServer {[ "A" := mkRoom playersOfB None None ]}
               [mkConn 0 (Some "A") (Some "toString") true; mkConn 1 None None true] None in
  onMessage srv 0 (Some (JValue (Some "UPDATE_POSITION") joinA))
    = Ok (srv, [(1%nat, STATE_UPDATE playersOfB)]).
Proof. vm_compute. reflexivity. Qed.

(** X3: joining and leaving.  When a connection joins a room that did not
    exist, under non-empty room and player identifiers, and then closes,
    the rooms are again what they were before the join, and the close
    sends nothing. *)
Theorem join_then_close ws f srv c :
  findConn srv ws = Some c ->
  rooms srv !! fRoomId f = None ->
  fRoomId f <> EmptyString -> fPlayerId f <> EmptyString ->
  rooms (onClose (joinRoom ws f srv).1 ws).1 = rooms srv /\
  (onClose (joinRoom ws f srv).1 ws).2 = [].
Proof.
  intros Hc Hroom Hr Hp.
  assert (Hf : findConn (joinRoom ws f srv).1 ws
               = Some (mkConn (connId c) (Some (fRoomId f)) (Some (fPlayerId f)) (isOpen c))).
  { unfold joinRoom. cbn [fst].
    change (findConn (mkServer ?r ?cs ?o) ws) with (findConn (mkServer (rooms srv) cs o) ws).
    etrans; [apply (findConn_updConn ws _ srv); done|]. by rewrite Hc. }
  unfold onClose. rewrite Hf. cbn [currentRoomId playerId].
  assert (Ht : truthy (Some (fRoomId f)) && truthy (Some (fPlayerId f)) = true).
  { unfold truthy. apply andb_true_iff. split; apply negb_true_iff, String.eqb_neq; done. }
  rewrite Ht. unfold joinRoom. cbn [fst rooms clients updConn]. rewrite lookup_insert_eq.
  rewrite Hroom. cbn [default from_option id].
  assert (E : delete (fPlayerId f)
                (players (setPlayer (mkRoom ∅ None (fMaze f)) (fPlayerId f)
                   (mkEntry (fPlayerId f) (fX f) (fY f) 0 (fColor f)))) = ∅).
  { unfold setPlayer. destruct (String.eqb _ _); cbn [players].
    - apply delete_empty.
    - by rewrite delete_insert_eq, delete_empty. }
  rewrite E. rewrite bool_decide_eq_true_2 by apply map_size_empty. cbn [fst snd rooms].
  split; [|done]. rewrite delete_insert_eq. by apply delete_id.
Qed.

Lemma join_then_close_witness :
  rooms (onClose (joinRoom 1 joinB afterJoinA).1 1).1 = rooms afterJoinA /\
  (onClose (joinRoom 1 joinB afterJoinA).1 1).2 = [].
Proof.
  apply (join_then_close 1 joinB afterJoinA (mkConn 1 None None true));
    [reflexivity | reflexivity | discriminate | discriminate].
Defined.

(** X4: whatever the message handler sends goes to a connection of the
    relay that is open, and a STATE_UPDATE never goes back to the
    connection whose UPDATE_POSITION caused it. *)
Theorem messages_go_to_open_connections srv ws data srv' out to msg :
  onMessage srv ws data = Ok (srv', out) -> (to, msg) ∈ out ->
  (exists c, c ∈ clients srv' /\ connId c = to /\ isOpen c = true) /\
  (forall ps, msg = STATE_UPDATE ps -> to <> ws).
Proof.
  intros Hm Hin. change srv' with (srv', out).1. change out with (srv', out).2 in Hin.
  revert Hm Hin. generalize (srv', out). intros r. unfold onMessage.
  destruct (findConn srv ws) as [c|].
  2:{ intros [= <-] H. by apply elem_of_nil in H. }
  destruct data as [[|type f]|]; [done| |done].
  repeat case_bool_decide.
  - intros [= <-]. unfold joinRoom. cbn [fst snd].
    intros (-> & _ & Hex)%elem_of_broadcastToRoom. split; [exact Hex | done].
  - unfold updatePosition.
    destruct (currentRoomId c) as [r0|]; [|by intros [= <-] ?%elem_of_nil].
    destruct (playerId c) as [p0|]; [|by intros [= <-] ?%elem_of_nil].
    destruct (_ && _); [|by intros [= <-] ?%elem_of_nil].
    destruct (rooms srv !! r0) as [room0|]; [|by intros [= <-] ?%elem_of_nil].
    destruct (getPlayer srv room0 p0) as [e|e| | |[|]|]; try done;
      intros [= <-]; cbn [fst snd]; try (by intros ?%elem_of_nil);
      (intros (-> & Hne & Hex)%elem_of_broadcastToRoom; split; [exact Hex|];
       intros ps _ ->; done).
  - intros [= <-]. unfold win. destruct (currentRoomId c); [|by intros ?%elem_of_nil].
    destruct (truthy _); [|by intros ?%elem_of_nil]. cbn [fst snd].
    intros (-> & _ & Hex)%elem_of_broadcastToRoom. split; [exact Hex | done].
  - intros [= <-]. by intros ?%elem_of_nil.
Qed.

Lemma messages_go_to_open_connections_witness :
  (exists c, c ∈ clients afterJoinB /\ connId c = 0%nat /\ isOpen c = true) /\
  (forall ps, PLAYER_JOINED playersOfB None = STATE_UPDATE ps -> 0%nat <> 1%nat).
Proof.
  apply (messages_go_to_open_connections afterJoinA 1
           (Some (JValue (Some "JOIN_ROOM") joinB)) afterJoinB
           (joinRoom 1 joinB afterJoinA).2 0%nat (PLAYER_JOINED playersOfB None)).
  - reflexivity.
  - vm_compute. left.
Defined.

Lemma truthy_nonempty s : s <> EmptyString -> truthy (Some s) = true.
Proof. intros Hs. unfold truthy. by apply negb_true_iff, String.eqb_neq. Qed.

(** the open connections other than [ws], before and after [ws] is marked *)
Lemma open_others ws g srv to :
  (forall c, connId (g c) = connId c) ->
  ((exists c, c ∈ clients (updConn ws g srv) /\ connId c = to /\ isOpen c = true) /\ to <> ws)
  <-> ((exists c, c ∈ clients srv /\ connId c = to /\ isOpen c = true) /\ to <> ws).
Proof.
  intros Hg. unfold updConn. cbn [clients]. split.
  - intros [(c & (c0 & -> & Hc0)%list_elem_of_fmap & Hid & Ho) Hne]. split; [|done].
    destruct (Nat.eqb (connId c0) ws) eqn:E.
    + rewrite Hg in Hid. apply Nat.eqb_eq in E. congruence.
    + by exists c0.
  - intros [(c & Hc & Hid & Ho) Hne]. split; [|done]. exists c. split; [|done].
    apply list_elem_of_fmap. exists c. split; [|done].
    rewrite (proj2 (Nat.eqb_neq (connId c) ws)); [done | congruence].
Qed.

(** X5: UPDATE_POSITION followed by a look-up.  When the connection has
    joined under non-empty identifiers and its room still lists its
    player, the entry takes the position and angle of the message and
    keeps its identifier and colour, the other players and the maze of
    the room stay, and the STATE_UPDATE with the room's players goes to
    exactly the open connections other than the sender. *)
Theorem update_then_lookup srv ws c f rid pid room e :
  findConn srv ws = Some c -> currentRoomId c = Some rid -> playerId c = Some pid ->
  rid <> EmptyString -> pid <> EmptyString ->
  rooms srv !! rid = Some room -> players room !! pid = Some e ->
  exists srv' out room',
    onMessage srv ws (Some (JValue (Some "UPDATE_POSITION") f)) = Ok (srv', out) /\
    rooms srv' !! rid = Some room' /\
    players room' !! pid = Some (mkEntry (entryId e) (fX f) (fY f) (fAngle f) (entryColor e)) /\
    (forall pid', pid' <> pid -> players room' !! pid' = players room !! pid') /\
    roomMaze room' = roomMaze room /\
    forall to msg, (to, msg) ∈ out <->
      msg = STATE_UPDATE (players room') /\ to <> ws /\
      exists c', c' ∈ clients srv /\ connId c' = to /\ isOpen c' = true.
Proof.
  intros Hc Hrid Hpid Hr Hp Hroom He.
  unfold onMessage. rewrite Hc. rewrite bool_decide_eq_false_2 by discriminate.
  rewrite bool_decide_eq_true_2 by done.
  unfold updatePosition. rewrite Hrid, Hpid, (truthy_nonempty _ Hr), (truthy_nonempty _ Hp).
  cbn [andb]. rewrite Hroom. unfold getPlayer. rewrite He.
  eexists _, _, _. split; [reflexivity|]. cbn [rooms]. split; [apply lookup_insert_eq|].
  cbn [players roomMaze]. split_and!.
  - apply lookup_insert_eq.
  - intros pid' Hne. by rewrite lookup_insert_ne.
  - done.
  - intros to msg. rewrite elem_of_broadcastToRoom. cbn [clients].
    split; intros (-> & Hne & Hex); (split; [done|]); (split; [congruence | done]).
Qed.

Lemma update_then_lookup_witness :
  exists srv' out room',
    onMessage afterJoinB 1 (Some (JValue (Some "UPDATE_POSITION") joinA)) = Ok (srv', out) /\
    rooms srv' !! "B" = Some room' /\
    players room' !! "p2" = Some (mkEntry "p2" (fX joinA) (fY joinA) (fAngle joinA) "blue") /\
    (forall pid', pid' <> "p2" -> players room' !! pid' = None) /\
    roomMaze room' = None /\
    forall to msg, (to, msg) ∈ out <->
      msg = STATE_UPDATE (players room') /\ to <> 1%nat /\
      exists c', c' ∈ clients afterJoinB /\ connId c' = to /\ isOpen c' = true.
Proof.
  destruct (update_then_lookup afterJoinB 1 (mkConn 1 (Some "B") (Some "p2") true) joinA
              "B" "p2" (mkRoom playersOfB None None) (mkEntry "p2" 20 20 0 "blue"))
    as (srv' & out & room' & H1 & H2 & H3 & H4 & H5 & H6);
    [reflexivity | reflexivity | reflexivity | discriminate | discriminate
    | vm_compute; reflexivity | vm_compute; reflexivity |].
  exists srv', out, room'. split_and!; [exact H1 | exact H2 | exact H3 | | exact H5 | exact H6].
  intros pid' Hne. rewrite (H4 pid' Hne). cbn [players]. unfold playersOfB.
  by rewrite lookup_singleton_ne.
Defined.

(** X6: the close handler.  When the connection has joined under
    non-empty identifiers and its room exists, closing removes its player
    from that room and touches no other room; if no player is left the
    room is deleted and nothing is sent, otherwise PLAYER_LEFT with the
    player's identifier goes to exactly the open connections other than
    the one that closed. *)
Theorem close_leaves_room srv ws c rid pid room :
  findConn srv ws = Some c -> currentRoomId c = Some rid -> playerId c = Some pid ->
  rid <> EmptyString -> pid <> EmptyString -> rooms srv !! rid = Some room ->
  (forall rid', rid' <> rid -> rooms (onClose srv ws).1 !! rid' = rooms srv !! rid') /\
  (if decide (delete pid (players room) = ∅)
   then rooms (onClose srv ws).1 !! rid = None /\ (onClose srv ws).2 = []
   else rooms (onClose srv ws).1 !! rid
          = Some (mkRoom (delete pid (players room)) (playersProto room) (roomMaze room)) /\
        forall to msg, (to, msg) ∈ (onClose srv ws).2 <->
          msg = PLAYER_LEFT (Some pid) /\ to <> ws /\
          exists c', c' ∈ clients srv /\ connId c' = to /\ isOpen c' = true).
Proof.
  intros Hc Hrid Hpid Hr Hp Hroom.
  unfold onClose. rewrite Hc, Hrid, Hpid, (truthy_nonempty _ Hr), (truthy_nonempty _ Hp).
  cbn [andb rooms updConn]. rewrite Hroom.
  destruct (decide (delete pid (players room) = ∅)) as [E|E].
  - rewrite bool_decide_eq_true_2 by (by rewrite E, map_size_empty). cbn [fst snd rooms].
    split; [|split; [apply lookup_delete_eq | done]].
    intros rid' Hne. by rewrite lookup_delete_ne.
  - rewrite bool_decide_eq_false_2 by (by intros ?%map_size_empty_inv). cbn [fst snd rooms].
    split; [|split; [apply lookup_insert_eq|]].
    + intros rid' Hne. by rewrite lookup_insert_ne.
    + intros to msg. rewrite elem_of_broadcastToRoom.
      set (g := fun c0 : Conn => mkConn (connId c0) (currentRoomId c0) (playerId c0) false).
      change (clients (mkServer _ ?cs _)) with (clients (updConn ws g srv)).
      split.
      * intros (-> & _ & c' & Hc' & Hid & Ho). split; [done|].
        assert (Hne : to <> ws).
        { apply clients_updConn in Hc' as (c0 & Hc0 & ->).
          destruct (Nat.eqb (connId c0) ws) eqn:E0; [done|].
          apply Nat.eqb_neq in E0. congruence. }
        split; [done|]. apply (open_others ws g srv to); [done|]. eauto.
      * intros (-> & Hne & Hex). split; [done|]. split; [done|].
        apply (open_others ws g srv to); [done|]. eauto.
Qed.

Lemma close_leaves_room_witness :
  (forall rid', rid' <> "B" -> rooms (onClose afterJoinB 1).1 !! rid' = rooms afterJoinB !! rid') /\
  rooms (onClose afterJoinB 1).1 !! "B" = None /\ (onClose afterJoinB 1).2 = [].
Proof.
  pose proof (close_leaves_room afterJoinB 1 (mkConn 1 (Some "B") (Some "p2") true)
                "B" "p2" (mkRoom playersOfB None None)) as H.
  assert (E : delete "p2" (players (mkRoom playersOfB None None)) = ∅)
    by (unfold playersOfB; cbn [players]; apply delete_singleton_eq).
  rewrite (decide_True (P := delete "p2" (players (mkRoom playersOfB None None)) = ∅)) in H
    by exact E.
  apply H; [reflexivity | reflexivity | reflexivity | discriminate | discriminate
           | vm_compute; reflexivity].
Defined.
End RelayMore.

(** * Further properties of the generator *)

Module MazeMore.
Import Maze MazeFacts EndFacts TrapFacts BfsFacts GenFacts CarveMore MazeLemmas.

#[local] Arguments walk : simpl never.
#[local] Arguments trapLoop : simpl never.
#[local] Arguments bfsPath : simpl never.
#[local] Arguments findEnd : simpl never.

(** ** The path of the search *)

Lemma bfsVisit_parents g w h curr s d s' :
  d ∈ dirs4 -> bfsVisit g w h curr s d = Ok s' ->
  parentsLinked g w h (parent s) -> parentsLinked g w h (parent s').
Proof.
  intros Hd. unfold bfsVisit.
  destruct (inBounds w h (px curr + d.1) (py curr + d.2)) eqn:Hin; [|by intros [= <-]].
  intros ([|] & Hb%cellIs_Ok & Hr)%bind_Ok; [|by injection Hr as <-].
  apply bind_Ok in Hr as ([|] & _ & Hr); [by injection Hr as <-|].
  apply bind_Ok in Hr as (v & _ & [= <-]). cbn [parent].
  intros Hpar k p. destruct (decide (k = (px curr + d.1, py curr + d.2))) as [->|Hne].
  - rewrite lookup_insert_eq. intros [= <-]. split_and!; [|by apply Hb|done].
    unfold adjacent, key. cbn [fst snd]. unfold dirs4 in Hd.
    rewrite !elem_of_cons, elem_of_nil in Hd.
    destruct Hd as [->|[->|[->|[->|[]]]]]; cbn [fst snd]; lia.
  - rewrite lookup_insert_ne by done. apply Hpar.
Qed.

Lemma bfsLoop_parents g w h e fuel : forall s s',
  bfsLoop fuel g w h e s = Ok s' ->
  parentsLinked g w h (parent s) -> parentsLinked g w h (parent s').
Proof.
  induction fuel as [|fuel IH]; intros [v par q] s'.
  - destruct q; simpl; [by intros [= <-] | discriminate].
  - destruct q as [|curr rest]; [simpl; by intros [= <-]|].
    rewrite bfsLoop_cons. destruct (_ && _); [by intros [= <-]|].
    intros (s1 & Hvisit & Hrec)%bind_Ok Hpar. apply (IH _ _ Hrec).
    apply (forEach_inv (fun s => parentsLinked g w h (parent s)) _ _ _ _) in Hvisit; [done| |done].
    intros s2 d s3 Hd Hs2 Hb. by eapply bfsVisit_parents.
Qed.

Lemma chain_steps par fuel : forall c l,
  chain fuel par c = Ok l ->
  head l = Some c /\
  forall i a b, l !! i = Some a -> l !! S i = Some b -> par !! key a = Some b.
Proof.
  induction fuel as [|fuel IH]; intros c l; simpl; [discriminate|].
  destruct (par !! key c) as [p|] eqn:Hp.
  - intros (rest & Hrest & [= <-])%bind_Ok. destruct (IH _ _ Hrest) as [Hhd Hst].
    split; [done|]. intros [|i] a b; simpl.
    + intros [= <-] Hb. destruct rest; [done|]. simpl in *. congruence.
    + apply Hst.
  - intros [= <-]. split; [done|]. by intros [|i] a b.
Qed.

Lemma adjacent_sym p q : adjacent p q -> adjacent q p.
Proof. unfold adjacent. lia. Qed.

(** the path is a walk through floor cells of the grid *)
Lemma bfsPath_walk g w h e path :
  bfsPath g w h e = Ok path -> isFloor g (0, 0) -> 1 <= w -> 1 <= h ->
  head path = Some (mkPoint 0 0) ->
  linked path /\
  Forall (fun p => inBounds w h (px p) (py p) = true /\ isFloor g (key p)) path.
Proof.
  unfold bfsPath. intros (v0 & _ & H)%bind_Ok H00 Hw Hh Hhd.
  apply bind_Ok in H as (v & _ & H). apply bind_Ok in H as (s & Hloop & H).
  apply bind_Ok in H as (c & Hchain & [= <-]).
  apply bfsLoop_parents in Hloop; [|intros k p; cbn [parent]; by rewrite lookup_empty].
  destruct (chain_steps _ _ _ _ Hchain) as [_ Hst].
  assert (Hlen : forall i a, reverse c !! i = Some a ->
            (i < length c)%nat /\ c !! (length c - S i)%nat = Some a).
  { intros i a Hi. pose proof (lookup_lt_Some _ _ _ Hi) as Hlt. rewrite length_reverse in Hlt.
    split; [done|]. by rewrite reverse_lookup in Hi. }
  split.
  - intros i a b [Hi Ha]%Hlen [Hi' Hb]%Hlen.
    replace (length c - S i)%nat with (S (length c - S (S i))) in Ha by lia.
    destruct (Hloop _ _ (Hst _ _ _ Hb Ha)) as (Hadj & _). exact Hadj.
  - apply Forall_forall. intros p Hp. apply list_elem_of_lookup in Hp as [i Hi].
    destruct i as [|i].
    + rewrite <- head_lookup, Hhd in Hi. injection Hi as <-.
      split; [apply inBounds_spec; cbn; lia | done].
    + pose proof Hi as [Hlt Hp]%Hlen.
      assert (Hq : is_Some (reverse c !! i)) by (apply lookup_lt_is_Some; rewrite length_reverse; lia).
      destruct Hq as [q [_ Hq]%Hlen].
      replace (length c - S i)%nat with (S (length c - S (S i))) in Hq by lia.
      destruct (Hloop _ _ (Hst _ _ _ Hp Hq)) as (_ & Hfl & Hin). by destruct p.
Qed.

(** ** What the generator returns *)

(** X7: on positive dimensions the grid of the maze is a full rectangle:
    the maze records the width and height it was asked for and starts at
    (0, 0), every cell inside the rectangle holds 0 or 1, there is no cell
    outside it, and the start cell is floor. *)
Theorem generated_grid_shape fuel rng w h d :
  1 <= w -> 1 <= h ->
  exists m, generateMaze fuel rng w h d = Ok m /\
    width m = w /\ height m = h /\ start m = mkPoint 0 0 /\
    (forall x y, inBounds w h x y = true ->
       cell (grid m) x y = Some 0 \/ cell (grid m) x y = Some 1) /\
    (forall x y, inBounds w h x y = false -> cell (grid m) x y = None) /\
    cell (grid m) 0 0 = Some 0.
Proof.
  intros Hw Hh.
  destruct (generateMaze_spec fuel rng w h d Hw Hh) as (g & e & ts & path & Hgen & _).
  destruct (generateMaze_parts _ _ _ _ _ _ Hw Hh Hgen)
    as (_ & _ & _ & _ & _ & _ & _ & _ & _ & _ & _ & _ & Hd & Hb & Hbd & _ & H00 & _).
  eexists. split; [exact Hgen|]. cbn [grid width height start] in *. split_and!; try done.
  - intros x y Hin. destruct (dims_cell _ _ _ _ _ Hd Hin) as [c Hc].
    rewrite Hc. destruct (Hb _ _ _ Hc) as [->| ->]; auto.
  - intros x y Hout. destruct (cell g x y) as [c|] eqn:Hc; [|done].
    apply Hbd in Hc. congruence.
Qed.

Lemma generated_grid_shape_witness :
  exists m, generateMaze 0 [] 3 3 1 = Ok m /\
    width m = 3 /\ height m = 3 /\ start m = mkPoint 0 0 /\
    (forall x y, inBounds 3 3 x y = true ->
       cell (grid m) x y = Some 0 \/ cell (grid m) x y = Some 1) /\
    (forall x y, inBounds 3 3 x y = false -> cell (grid m) x y = None) /\
    cell (grid m) 0 0 = Some 0.
Proof. apply (generated_grid_shape 0 [] 3 3 1); lia. Defined.

(** X8: the carve works on the lattice of cells with even coordinates:
    in the maze returned for positive dimensions every cell of the grid
    with two even coordinates is floor and every cell with two odd
    coordinates is a wall. *)
Theorem carve_lattice fuel rng w h d :
  1 <= w -> 1 <= h ->
  exists m, generateMaze fuel rng w h d = Ok m /\
    forall x y, inBounds w h x y = true ->
      (Z.even x = true -> Z.even y = true -> cell (grid m) x y = Some 0) /\
      (Z.odd x = true -> Z.odd y = true -> cell (grid m) x y = Some 1).
Proof.
  intros Hw Hh.
  destruct (generateMaze_spec fuel rng w h d Hw Hh) as (g & e & ts & path & Hgen & _).
  destruct (generateMaze_parts _ _ _ _ _ _ Hw Hh Hgen)
    as (_ & _ & _ & _ & _ & _ & _ & _ & _ & _ & _ & _ & Hd & Hb & _).
  destruct (generated_lattice _ _ _ _ _ _ Hw Hh Hgen) as [Heven Hodd].
  eexists. split; [exact Hgen|]. cbn [grid] in *. intros x y Hin. split.
  - intros Hx Hy. by apply (Heven (x, y)).
  - intros Hx Hy. destruct (dims_cell _ _ _ _ _ Hd Hin) as [c Hc].
    rewrite Hc. destruct (Hb _ _ _ Hc) as [->| ->]; [|done].
    by destruct (Hodd (x, y) Hc).
Qed.

Lemma carve_lattice_witness :
  exists m, generateMaze 0 MazeSamples.draws 13 13 1 = Ok m /\
    forall x y, inBounds 13 13 x y = true ->
      (Z.even x = true -> Z.even y = true -> cell (grid m) x y = Some 0) /\
      (Z.odd x = true -> Z.odd y = true -> cell (grid m) x y = Some 1).
Proof. apply (carve_lattice 0 MazeSamples.draws 13 13 1); lia. Defined.

(** X9: the end cell is a floor cell of the grid nearest to the
    bottom-right corner: no floor cell lies on a ring of the scan closer
    to the corner.  It is at most one ring away from the corner, and it
    is the corner itself when the width and the height are odd. *)
Theorem end_cell_nearest fuel rng w h d :
  1 <= w -> 1 <= h ->
  exists m, generateMaze fuel rng w h d = Ok m /\
    inBounds w h (px (end_ m)) (py (end_ m)) = true /\
    cell (grid m) (px (end_ m)) (py (end_ m)) = Some 0 /\
    (forall c, inBounds w h c.1 c.2 = true -> cell (grid m) c.1 c.2 = Some 0 ->
               ringOf w h (key (end_ m)) <= ringOf w h c) /\
    ringOf w h (key (end_ m)) <= 1 /\
    (Z.odd w = true -> Z.odd h = true -> end_ m = mkPoint (w - 1) (h - 1)).
Proof.
  intros Hw Hh.
  destruct (generateMaze_spec fuel rng w h d Hw Hh) as (g & e & ts & path & Hgen & _).
  destruct (generateMaze_parts _ _ _ _ _ _ Hw Hh Hgen)
    as (_ & _ & _ & _ & _ & He & _ & _ & _ & _ & _ & _ & _ & _ & _ & _ & _ & Hfe & Hbe & _).
  destruct (generated_lattice _ _ _ _ _ _ Hw Hh Hgen) as [Heven _].
  eexists. split; [exact Hgen|]. cbn [grid end_] in *.
  assert (Hnear : forall c, inBounds w h c.1 c.2 = true -> cell g c.1 c.2 = Some 0 ->
                    ringOf w h (key e) <= ringOf w h c).
  { intros c Hin Hc. by apply (findEnd_nearest g w h e c). }
  set (c := (2 * ((w - 1) / 2), 2 * ((h - 1) / 2))).
  assert (Hcin : inBounds w h c.1 c.2 = true).
  { apply inBounds_spec. unfold c. cbn [fst snd].
    pose proof (Z.div_mod (w - 1) 2 ltac:(lia)). pose proof (Z.mod_pos_bound (w - 1) 2 ltac:(lia)).
    pose proof (Z.div_mod (h - 1) 2 ltac:(lia)). pose proof (Z.mod_pos_bound (h - 1) 2 ltac:(lia)).
    lia. }
  assert (Hcf : cell g c.1 c.2 = Some 0).
  { apply (Heven c); [|done]. split; unfold c; cbn [fst snd]; apply Z.even_spec; by eexists. }
  pose proof (Hnear c Hcin Hcf) as Hc.
  apply inBounds_spec in Hbe.
  split_and!; [by apply inBounds_spec | done | done | |].
  - etrans; [exact Hc|]. unfold ringOf, c. cbn [fst snd].
    pose proof (Z.div_mod (w - 1) 2 ltac:(lia)). pose proof (Z.mod_pos_bound (w - 1) 2 ltac:(lia)).
    pose proof (Z.div_mod (h - 1) 2 ltac:(lia)). pose proof (Z.mod_pos_bound (h - 1) 2 ltac:(lia)).
    lia.
  - intros Hwo Hho. apply Z.odd_spec in Hwo as [a ->]. apply Z.odd_spec in Hho as [b ->].
    unfold ringOf, c, key in Hc. cbn [fst snd] in Hc.
    replace (2 * a + 1 - 1) with (a * 2) in Hc by lia.
    replace (2 * b + 1 - 1) with (b * 2) in Hc by lia.
    rewrite !Z.div_mul in Hc by lia. destruct e as [ex ey]. cbn [px py] in *. f_equal; lia.
Qed.

Lemma end_cell_nearest_witness :
  exists m, generateMaze 0 MazeSamples.draws 13 13 1 = Ok m /\
    inBounds 13 13 (px (end_ m)) (py (end_ m)) = true /\
    cell (grid m) (px (end_ m)) (py (end_ m)) = Some 0 /\
    (forall c, inBounds 13 13 c.1 c.2 = true -> cell (grid m) c.1 c.2 = Some 0 ->
               ringOf 13 13 (key (end_ m)) <= ringOf 13 13 c) /\
    ringOf 13 13 (key (end_ m)) <= 1 /\
    (Z.odd 13 = true -> Z.odd 13 = true -> end_ m = mkPoint (13 - 1) (13 - 1)).
Proof. apply (end_cell_nearest 0 MazeSamples.draws 13 13 1); lia. Defined.

(** X10: the traps.  Every trap of the maze returned for positive
    dimensions lies on a floor cell inside the grid, is named after its
    cell ([x-y]) and is in state [safe]; no two traps share a cell; and
    there are at most [trapCountOf width height difficulty] of them, the
    floor of the product as the code computes it in doubles. *)
Theorem traps_placed fuel rng w h d :
  1 <= w -> 1 <= h ->
  exists m, generateMaze fuel rng w h d = Ok m /\
    Forall (trapPlaced (grid m) w h) (traps m) /\
    NoDup ((fun t => (trapX t, trapY t)) <$> traps m) /\
    Z.of_nat (length (traps m)) <= Z.max 0 (trapCountOf w h d).
Proof.
  intros Hw Hh.
  destruct (generateMaze_spec fuel rng w h d Hw Hh) as (g & e & ts & path & Hgen & _).
  destruct (generateMaze_parts _ _ _ _ _ _ Hw Hh Hgen) as (rng1 & att & rng2 & _ & _ & _ & Hts & _).
  eexists. split; [exact Hgen|]. cbn [grid traps end_] in *.
  apply trapLoop_placed in Hts as (Hpl & Hnd & Hlen & _);
    [done | done | done | constructor | constructor | cbn; lia | cbn; lia].
Qed.

Lemma traps_placed_witness :
  exists m, generateMaze 0 MazeSamples.draws 13 13 1 = Ok m /\
    Forall (trapPlaced (grid m) 13 13) (traps m) /\
    NoDup ((fun t => (trapX t, trapY t)) <$> traps m) /\
    Z.of_nat (length (traps m)) <= Z.max 0 (trapCountOf 13 13 1).
Proof. apply (traps_placed 0 MazeSamples.draws 13 13 1); lia. Defined.

(** X11: the path for the safe zones.  On positive dimensions the search
    finds a path that starts at the start cell, ends at the end cell,
    visits no cell twice, goes from each cell to a neighbour of it, and
    stays on floor cells inside the grid. *)
Theorem path_is_a_walk fuel rng w h d :
  1 <= w -> 1 <= h ->
  exists m path, generateMaze fuel rng w h d = Ok m /\
    bfsPath (grid m) w h (end_ m) = Ok path /\
    head path = Some (start m) /\ last path = Some (end_ m) /\ NoDup path /\
    linked path /\
    Forall (fun p => inBounds w h (px p) (py p) = true /\
                     cell (grid m) (px p) (py p) = Some 0) path.
Proof.
  intros Hw Hh.
  destruct (generateMaze_spec fuel rng w h d Hw Hh) as (g & e & ts & path & Hgen & _).
  destruct (generateMaze_parts _ _ _ _ _ _ Hw Hh Hgen)
    as (_ & _ & _ & path' & _ & _ & _ & Hp & _ & _ & _ & _ & _ & _ & _ & _ & H00 & _ & _ & Hhd & Hl & Hnd).
  cbn [grid end_ start] in *.
  destruct (bfsPath_walk _ _ _ _ _ Hp H00 Hw Hh Hhd) as [Hlk Hfl].
  eexists _, path'. split; [exact Hgen|]. by cbn [grid end_ start].
Qed.

Lemma path_is_a_walk_witness :
  exists m path, generateMaze 0 MazeSamples.draws 13 13 1 = Ok m /\
    bfsPath (grid m) 13 13 (end_ m) = Ok path /\
    head path = Some (start m) /\ last path = Some (end_ m) /\ NoDup path /\
    linked path /\
    Forall (fun p => inBounds 13 13 (px p) (py p) = true /\
                     cell (grid m) (px p) (py p) = Some 0) path.
Proof. apply (path_is_a_walk 0 MazeSamples.draws 13 13 1); lia. Defined.

Lemma safeZoneCountOf_range d : (0 <= d)%Q -> 1 <= safeZoneCountOf d <= 4.
Proof.
  intros Hd. unfold safeZoneCountOf.
  assert (0 <= Qfloor (d / inject_Z 3)); [|lia].
  change 0 with (Qfloor 0). apply Qfloor_resp_le.
  change (inject_Z 3) with 3%Q. unfold Qdiv. change (/ 3)%Q with (1 # 3)%Q. lra.
Qed.

(** X12: the safe zones.  For positive dimensions and a difficulty of at
    least 0 the maze has exactly [max(1, 4 - floor(difficulty / 3))] safe
    zones, between one and four, and each is a floor cell inside the
    grid. *)
Theorem safe_zones_on_floor fuel rng w h d :
  1 <= w -> 1 <= h -> (0 <= d)%Q ->
  exists m, generateMaze fuel rng w h d = Ok m /\
    Z.of_nat (length (safeZones m)) = Z.max 1 (4 - Qfloor (d / 3)) /\
    (1 <= length (safeZones m) <= 4)%nat /\
    Forall (fun z => inBounds w h (px z) (py z) = true /\
                     cell (grid m) (px z) (py z) = Some 0) (safeZones m).
Proof.
  intros Hw Hh Hd0.
  destruct (generateMaze_spec fuel rng w h d Hw Hh) as (g & e & ts & path & Hgen & _).
  destruct (generateMaze_parts _ _ _ _ _ _ Hw Hh Hgen)
    as (_ & _ & _ & path' & _ & _ & _ & Hp & Hz & _ & _ & _ & _ & _ & _ & _ & H00 & _ & _ & Hhd & _).
  cbn [grid end_ start safeZones] in *.
  destruct (bfsPath_walk _ _ _ _ _ Hp H00 Hw Hh Hhd) as [_ Hfl].
  pose proof (safeZoneCountOf_range d Hd0) as Hn.
  eexists. split; [exact Hgen|]. cbn [grid safeZones]. rewrite Hz.
  assert (Hlen : length (safeZonesOnPath path' (safeZoneCountOf d))
                 = Z.to_nat (safeZoneCountOf d)).
  { unfold safeZonesOnPath. by rewrite length_fmap, length_seqZ. }
  split_and!.
  - rewrite Hlen. unfold safeZoneCountOf in *. change (inject_Z 3) with 3%Q in *. lia.
  - lia.
  - lia.
  - assert (Hne : path' <> []) by (by destruct path').
    pose proof (safeZonesOnPath_on_path path' (safeZoneCountOf d) Hne) as Hon.
    rewrite Forall_forall in *. intros z Hzin. apply Hfl, Hon, Hzin.
Qed.

Lemma safe_zones_on_floor_witness :
  exists m, generateMaze 0 MazeSamples.draws 13 13 1 = Ok m /\
    Z.of_nat (length (safeZones m)) = Z.max 1 (4 - Qfloor (1 / 3)) /\
    (1 <= length (safeZones m) <= 4)%nat /\
    Forall (fun z => inBounds 13 13 (px z) (py z) = true /\
                     cell (grid m) (px z) (py z) = Some 0) (safeZones m).
Proof.
  apply (safe_zones_on_floor 0 MazeSamples.draws 13 13 1); [lia | lia | discriminate].
Defined.

(** ** Degenerate dimensions *)

Lemma findFirst_all_None {A B : Type} (f : A -> Res (option B)) l :
  (forall a, a ∈ l -> f a = Ok None) -> findFirst f l = Ok None.
Proof.
  induction l as [|a l IH]; intros Hf; simpl; [done|].
  rewrite (Hf a) by left. rewrite mbind_Ok. apply IH. intros b Hb. apply Hf. by right.
Qed.

Lemma forEach_id {A S : Type} (body : S -> A -> Res S) (ds : list A) s :
  (forall s a, body s a = Ok s) -> forEach body ds s = Ok s.
Proof. intros Hb. induction ds as [|d ds IH]; simpl; [done|]. by rewrite Hb, mbind_Ok. Qed.

Lemma trapLoop_none g w h e n fuel rng :
  n <= 0 -> trapLoop fuel g w h e n [] 0 rng = Ok ([], 0, rng).
Proof.
  intros Hn. assert (Hc : (Z.of_nat (length (@nil TrapSquare)) <? n) = false)
    by (apply Z.ltb_ge; simpl; lia).
  destruct fuel; unfold trapLoop; by rewrite Hc.
Qed.

Lemma zero_width fuel rng h d :
  1 <= h ->
  exists rng',
    generateMaze fuel rng 0 h d
    = Ok (mkMaze (<[0%nat := [0]]> (replicate (Z.to_nat h) [])) 0 h (mkPoint 0 0)
            (mkPoint (-1) (h - 1)) []
            (safeZonesOnPath [mkPoint (-1) (h - 1)] (safeZoneCountOf d))) /\
    rng' = (shuffle directions rng).2.
Proof.
  intros Hh. eexists. split; [|reflexivity]. unfold generateMaze.
  rewrite newArr2_total by lia. rewrite mbind_Ok. change (Z.to_nat 0) with 0%nat.
  change (replicate 0 1) with (@nil Z). change (0 * h) with 0.
  set (g0 := replicate (Z.to_nat h) (@nil Z)).
  set (g := <[0%nat := [0]]> g0).
  assert (Hrow : g0 !! 0%nat = Some []).
  { unfold g0. apply lookup_replicate. split; [done | lia]. }
  assert (Hwalk : walk 1 0 h 0 0 (g0, rng) = Ok (g, (shuffle directions rng).2)).
  { change (walk 1 0 h 0 0 (g0, rng))
      with (g1 ← writeCell gridHole g0 0 0 0;
            let '(dirs, rng') := shuffle directions rng in
            forEach (walkStep (walk 0 0 h) 0 h 0 0) dirs (g1, rng')).
    rewrite (writeCell_in gridHole g0 0 0 0 [] ltac:(lia) Hrow), mbind_Ok.
    change (setRow gridHole [] 0 0) with [0]. fold g.
    destruct (shuffle directions rng) as [dirs rng1]. cbn [snd].
    destruct (forEach_total (fun st => st = (g, rng1))
                (walkStep (walk 0 0 h) 0 h 0 0) dirs (g, rng1))
      as (st & Hrun & ->); [|done|exact Hrun].
    intros st [dx dy] _ ->. exists (g, rng1). split; [|done].
    unfold walkStep. assert (Hout : inBounds 0 h (0 + dx) (0 + dy) = false).
    { apply not_true_is_false. rewrite inBounds_spec. lia. }
    by rewrite Hout. }
  change (S (Z.to_nat 0)) with 1%nat. rewrite Hwalk, mbind_Ok.
  assert (Hend : findEnd g 0 h = Ok (mkPoint (-1) (h - 1))).
  { unfold findEnd. rewrite findFirst_all_None; [done|].
    intros k Hk%elem_of_seqZ. unfold scanRing. apply findFirst_all_None.
    intros ty _. unfold scanRow.
    replace (Z.max 0 (0 - 1 - k)) with 0 by lia. done. }
  rewrite Hend, mbind_Ok.
  rewrite trapLoop_none by (unfold trapCountOf; by change (0 * h) with 0).
  rewrite mbind_Ok.
  assert (Hpath : bfsPath g 0 h (mkPoint (-1) (h - 1)) = Ok [mkPoint (-1) (h - 1)]).
  { unfold bfsPath. rewrite newArr2_total by lia. rewrite mbind_Ok.
    change (Z.to_nat 0) with 0%nat. change (replicate 0 false) with (@nil bool).
    assert (Hrow' : replicate (Z.to_nat h) (@nil bool) !! 0%nat = Some []).
    { apply lookup_replicate. split; [done | lia]. }
    rewrite (writeCell_in false _ 0 0 true [] ltac:(lia) Hrow'), mbind_Ok.
    change (0 * h) with 0. change (Z.to_nat 0) with 0%nat.
    assert (Hvisit : forall curr s dir, bfsVisit g 0 h curr s dir = Ok s).
    { intros curr s dir. unfold bfsVisit.
      assert (Hout : inBounds 0 h (px curr + dir.1) (py curr + dir.2) = false).
      { apply not_true_is_false. rewrite inBounds_spec. lia. }
      by rewrite Hout. }
    rewrite bfsLoop_cons. cbn [px py]. change (0 =? -1) with false. cbn [andb].
    rewrite (forEach_id _ _ _ (Hvisit _)), mbind_Ok.
    cbn [bfsLoop queue]. rewrite mbind_Ok. cbn [parent chain].
    by rewrite lookup_empty. }
  rewrite Hpath, mbind_Ok. done.
Qed.

(** X13: dimensions that are not positive.  A negative height, or a
    negative width with a positive height, makes the call throw a
    RangeError, and a height of 0 a TypeError.  A width of 0 with a
    positive height makes it return a maze whose end cell (-1, height - 1)
    is not a cell of the grid, without traps, and whose safe zones are
    all that end cell. *)
Theorem degenerate_dimensions fuel rng w h d :
  (h < 0 -> generateMaze fuel rng w h d = Throw RangeError) /\
  (h = 0 -> generateMaze fuel rng w h d = Throw TypeError) /\
  (1 <= h -> w < 0 -> generateMaze fuel rng w h d = Throw RangeError) /\
  (1 <= h -> w = 0 ->
   exists m, generateMaze fuel rng w h d = Ok m /\
     end_ m = mkPoint (-1) (h - 1) /\ cell (grid m) (px (end_ m)) (py (end_ m)) = None /\
     traps m = [] /\ safeZones m <> [] /\ Forall (fun z => z = end_ m) (safeZones m)).
Proof.
  split_and!.
  - intros Hh. unfold generateMaze, newArr2. by rewrite (proj2 (Z.ltb_lt h 0) Hh).
  - intros ->. unfold generateMaze, newArr2. cbn. done.
  - intros Hh Hw. unfold generateMaze, newArr2.
    rewrite (proj2 (Z.ltb_ge h 0)) by lia.
    by rewrite (proj2 (Z.ltb_lt 0 h)), (proj2 (Z.ltb_lt w 0)) by lia.
  - intros Hh ->. destruct (zero_width fuel rng h d Hh) as (rng' & Hgen & _).
    eexists. split; [exact Hgen|]. cbn [end_ grid traps safeZones px py].
    pose proof (safeZoneCountOf_pos d) as Hn.
    split_and!; [done | done | done | |].
    + unfold safeZonesOnPath. intros E%fmap_nil_inv.
      assert (Hl : length (seqZ 1 (safeZoneCountOf d)) = 0%nat) by (by rewrite E).
      rewrite length_seqZ in Hl. lia.
    + apply Forall_forall. intros z (i & Hi & ->)%safeZonesOnPath_elem.
      unfold safeIdx. cbn [length]. change (Z.of_nat 1) with 1.
      rewrite Z.div_small by lia. by replace (Z.min (i * 0) (1 - 1)) with 0 by lia.
Qed.
End MazeMore.

(** * The number of floor cells *)

Module CountMore.
Import Maze MazeFacts GenFacts CarveMore.

Lemma filter_length_same {A : Type} (P Q : A -> Prop)
    `{!forall x, Decision (P x)} `{!forall x, Decision (Q x)} (l : list A) :
  (forall x, x ∈ l -> (P x <-> Q x)) -> length (filter P l) = length (filter Q l).
Proof.
  induction l as [|a l IH]; intros Hl; [done|].
  assert (IH' : length (filter P l) = length (filter Q l)).
  { apply IH. intros x Hx. apply Hl. by right. }
  assert (Ha : P a <-> Q a) by (apply Hl; left).
  rewrite !filter_cons. destruct (decide (P a)) as [Hp|Hp], (decide (Q a)) as [Hq|Hq];
    simpl; try (by rewrite IH'); tauto.
Qed.

Lemma filter_length_flip {A : Type} (P Q : A -> Prop)
    `{!forall x, Decision (P x)} `{!forall x, Decision (Q x)} (l : list A) r :
  NoDup l -> r ∈ l -> ~ P r -> Q r ->
  (forall x, x ∈ l -> x <> r -> (P x <-> Q x)) ->
  length (filter Q l) = S (length (filter P l)).
Proof.
  induction l as [|a l IH]; intros Hnd Hr Hp Hq Hl; [by apply elem_of_nil in Hr|].
  apply NoDup_cons in Hnd as [Ha Hnd]. rewrite !filter_cons.
  apply elem_of_cons in Hr as [->|Hr].
  - rewrite decide_True by done. rewrite decide_False by done. simpl. f_equal.
    symmetry. apply filter_length_same. intros x Hx. apply Hl; [by right|].
    intros ->. done.
  - assert (Hne : a <> r) by (intros ->; done).
    assert (Hpa : P a <-> Q a) by (apply Hl; [left | done]).
    assert (IH' : length (filter Q l) = S (length (filter P l))).
    { apply IH; try done. intros x Hx. apply Hl. by right. }
    destruct (decide (P a)) as [Hp'|Hp'], (decide (Q a)) as [Hq'|Hq']; simpl;
      try (by rewrite IH'); tauto.
Qed.

Lemma elem_of_latticeCells w h c :
  c ∈ latticeCells w h <-> onLattice c /\ inBounds w h c.1 c.2 = true.
Proof.
  unfold latticeCells, onLattice. rewrite list_elem_of_bind, inBounds_spec.
  pose proof (Z.div_mod (w + 1) 2 ltac:(lia)) as Hw.
  pose proof (Z.mod_pos_bound (w + 1) 2 ltac:(lia)) as Hw'.
  pose proof (Z.div_mod (h + 1) 2 ltac:(lia)) as Hh.
  pose proof (Z.mod_pos_bound (h + 1) 2 ltac:(lia)) as Hh'.
  split.
  - intros (y & (x & -> & Hx%elem_of_seqZ)%list_elem_of_fmap & Hy%elem_of_seqZ).
    cbn [fst snd]. split; [|lia].
    split; apply Z.even_spec; by eexists.
  - intros [[[a Ha]%Z.even_spec [b Hb]%Z.even_spec] Hin]. destruct c as [x y].
    cbn [fst snd] in *. subst x y. exists b. split.
    + apply list_elem_of_fmap. exists a. split; [done|]. apply elem_of_seqZ. lia.
    + apply elem_of_seqZ. lia.
Qed.

Lemma NoDup_latticeCells w h : NoDup (latticeCells w h).
Proof.
  unfold latticeCells. apply NoDup_bind; [| |apply NoDup_seqZ].
  - intros y1 y2 c _ _ (x1 & -> & _)%list_elem_of_fmap (x2 & E & _)%list_elem_of_fmap.
    injection E as _ E. lia.
  - intros y _. apply NoDup_fmap_2_strong; [|apply NoDup_seqZ].
    intros x1 x2 _ _ E. injection E as E. lia.
Qed.

Lemma length_latticeCells w h :
  length (latticeCells w h) = (Z.to_nat ((h + 1) / 2) * Z.to_nat ((w + 1) / 2))%nat.
Proof.
  unfold latticeCells. rewrite <- (length_seqZ 0 ((h + 1) / 2)).
  induction (seqZ 0 ((h + 1) / 2)) as [|y l IH]; [done|].
  rewrite bind_cons, length_app, IH, length_fmap, length_seqZ. simpl. lia.
Qed.

(** writing off the lattice, and writing a wall cell of the lattice *)
Lemma latticeFloors_off g g' w h x y :
  (forall x' y', cell g' x' y' = if decide (x' = x /\ y' = y) then Some 0 else cell g x' y') ->
  ~ onLattice (x, y) -> latticeFloors g' w h = latticeFloors g w h.
Proof.
  intros Hc Hn. unfold latticeFloors. apply filter_length_same.
  intros c [Hl _]%elem_of_latticeCells. rewrite Hc. case_decide as E; [|done].
  destruct E as [<- <-]. by destruct c.
Qed.

Lemma latticeFloors_on g g' w h x y :
  (forall x' y', cell g' x' y' = if decide (x' = x /\ y' = y) then Some 0 else cell g x' y') ->
  onLattice (x, y) -> inBounds w h x y = true -> cell g x y <> Some 0 ->
  latticeFloors g' w h = S (latticeFloors g w h).
Proof.
  intros Hc Hl Hin Hw. unfold latticeFloors.
  apply (filter_length_flip _ _ _ (x, y)).
  - apply NoDup_latticeCells.
  - by apply elem_of_latticeCells.
  - done.
  - cbn [fst snd]. rewrite Hc. by rewrite decide_True.
  - intros c _ Hne. rewrite Hc. rewrite decide_False; [done|].
    intros [<- <-]. by destruct c.
Qed.

Lemma floors_carve g g' x y :
  cell g x y = Some 1 -> writeCell gridHole g x y 0 = Ok g' -> floors g' = S (floors g).
Proof.
  intros Hc Hw. pose proof (count2_write_in gridHole isZero _ _ _ _ _ _ Hc Hw) as H.
  unfold floors. cbn in H. lia.
Qed.

(** the middle of a step determines the step, up to its direction *)
Lemma corridor_ends c d x y dx dy :
  onLattice c -> onLattice (x, y) -> d ∈ directions -> (dx, dy) ∈ directions ->
  (c.1 + d.1 / 2, c.2 + d.2 / 2) = (x + dx / 2, y + dy / 2) ->
  (c = (x, y) /\ (c.1 + d.1, c.2 + d.2) = (x + dx, y + dy)) \/
  (c = (x + dx, y + dy) /\ (c.1 + d.1, c.2 + d.2) = (x, y)).
Proof.
  intros [[a Ha]%Z.even_spec [b Hb]%Z.even_spec] [[a' Ha']%Z.even_spec [b' Hb']%Z.even_spec].
  destruct c as [cx cy], d as [ex ey]. cbn [fst snd] in *. subst.
  unfold directions. rewrite !elem_of_cons, !elem_of_nil.
  intros [[= -> ->]|[[= -> ->]|[[= -> ->]|[[= -> ->]|[]]]]]
         [[= -> ->]|[[= -> ->]|[[= -> ->]|[[= -> ->]|[]]]]];
    change (0 / 2) with 0; change (-2 / 2) with (-1); change (2 / 2) with 1;
    intros [= E1 E2]; first [lia | left; split; f_equal; lia | right; split; f_equal; lia].
Qed.

(** a successful carve from a wall cell of the lattice carves two cells
    for each further lattice cell it reaches *)
Lemma walk_count w h fuel : forall x y g rng g' rng' g0,
  walk fuel w h x y (g, rng) = Ok (g', rng') ->
  dims g w h -> binary g -> inBounds w h x y = true -> onLattice (x, y) ->
  cell g x y = Some 1 -> writeCell gridHole g x y 0 = Ok g0 -> corridors g0 ->
  corridors g' /\
  (floors g' + 1 + 2 * latticeFloors g w h = floors g + 2 * latticeFloors g' w h)%nat.
Proof.
  induction fuel as [|fuel IH]; intros x y g rng g' rng' g0; simpl; [discriminate|].
  intros (g0' & Hw & Hrun)%bind_Ok Hd Hb Hxy Hlat Hroot Hw0 Hcor0.
  rewrite Hw in Hw0. injection Hw0 as ->.
  pose proof (shuffle_Permutation directions rng) as Hperm.
  destruct (shuffle directions rng) as [dirs rng1]. simpl in Hperm.
  destruct (write_in_range gridHole g x y 0) as (g0' & Hw' & Hcell0); [by eexists|].
  rewrite Hw in Hw'. injection Hw' as <-.
  pose proof (floor_written g g0 x y Hcell0) as Hfl0.
  pose proof (floors_carve g g0 x y Hroot Hw) as Hf0.
  pose proof (latticeFloors_on g g0 w h x y Hcell0 Hlat Hxy ltac:(by rewrite Hroot)) as Hl0.
  pose (I := fun (st : list (list Z) * Rng) =>
    dims st.1 w h /\ binary st.1 /\ (forall p, isFloor g0 p -> isFloor st.1 p) /\
    corridors st.1 /\
    (floors st.1 + 2 * latticeFloors g0 w h = floors g0 + 2 * latticeFloors st.1 w h)%nat).
  apply (forEach_inv I) in Hrun.
  - destruct Hrun as (_ & _ & _ & Hcor & Hcount). cbn [fst] in *. split; [done | lia].
  - intros [gi ri] [dx dy] [gj rj] Hdir (Hdi & Hbi & Hsub & Hcor & Hcount).
    cbn [fst snd] in *. rewrite Hperm in Hdir.
    destruct (directions_mid dx dy Hdir x y) as (_ & _ & Hne & _ & Hmid).
    destruct (directions_lattice dx dy x y Hdir Hlat) as (Hlat' & Hnl & _).
    unfold walkStep. cbn [fst snd].
    destruct (inBounds w h (x + dx) (y + dy)) eqn:Hn; [|by intros [= <- <-]].
    rewrite (cellIs_in gi w h) by done. rewrite mbind_Ok.
    case_bool_decide as Hone; [|by intros [= <- <-]].
    specialize (Hmid w h Hxy Hn).
    assert (Hm1 : cell gi (x + dx / 2) (y + dy / 2) = Some 1).
    { destruct (dims_cell gi w h _ _ Hdi Hmid) as [c Hc].
      destruct (Hbi _ _ _ Hc) as [->| ->]; [|done].
      destruct (Hcor (x, y) (dx, dy) Hlat Hdir Hc) as [_ Hfn].
      unfold isFloor in Hfn. cbn [fst snd] in Hfn. congruence. }
    destruct (write_in_range gridHole gi (x + dx / 2) (y + dy / 2) 0)
      as (g1 & Hw1 & Hcell1); [by eexists|].
    rewrite Hw1, mbind_Ok. intros Hrec.
    pose proof (floor_written gi g1 _ _ Hcell1) as Hf1.
    assert (Hc1 : cell g1 (x + dx) (y + dy) = Some 1).
    { rewrite Hcell1. case_decide as E; [|done]. destruct E as [E1 E2].
      destruct Hne. by rewrite E1, E2. }
    destruct (write_in_range gridHole g1 (x + dx) (y + dy) 0)
      as (g2 & Hw2 & Hcell2); [by eexists|].
    pose proof (floor_written g1 g2 _ _ Hcell2) as Hf2.
    assert (Hd1 : dims g1 w h) by (by eapply dims_write).
    assert (Hb1 : binary g1) by (by eapply binary_written).
    assert (Hcor2 : corridors g2).
    { intros c d Hc Hdin Hfm. apply Hf2 in Hfm as [Hfm|Hfm].
      { exfalso. destruct (directions_lattice d.1 d.2 c.1 c.2) as (_ & Hnl' & _);
          [by destruct d | by destruct c|].
        apply Hnl'. by rewrite Hfm. }
      apply Hf1 in Hfm as [Hfm|Hfm].
      - destruct (corridor_ends c d x y dx dy Hc Hlat Hdin Hdir Hfm) as [[-> ->]|[-> ->]].
        + split; apply Hf2; [right; apply Hf1; right; apply Hsub, Hfl0; by left | by left].
        + split; apply Hf2; [by left | right; apply Hf1; right; apply Hsub, Hfl0; by left].
      - destruct (Hcor c d Hc Hdin Hfm) as [H1 H2].
        split; apply Hf2; right; apply Hf1; by right. }
    pose proof Hrec as Hrec'.
    apply walk_lattice in Hrec' as (Hd3 & Hb3 & Hsub3 & _); [|done..].
    apply (IH _ _ _ _ _ _ g2) in Hrec as [Hcor3 Hcount3]; [|done..].
    pose proof (floors_carve gi g1 _ _ Hm1 Hw1) as Hfc.
    pose proof (latticeFloors_off gi g1 w h _ _ Hcell1 Hnl) as Hlc.
    unfold I. cbn [fst]. split_and!; [done | done | | done | lia].
    intros p Hp. apply Hsub3, Hf1. right. by apply Hsub.
  - unfold I. cbn [fst]. split_and!; [by eapply dims_write | by eapply binary_written | done | done | lia].
Qed.

Lemma filter_none {A : Type} (P : A -> Prop) `{!forall x, Decision (P x)} (l : list A) :
  (forall x, x ∈ l -> ~ P x) -> filter P l = [].
Proof.
  induction l as [|a l IH]; intros Hl; [done|].
  rewrite filter_cons_False by (apply Hl; left). apply IH. intros x Hx. apply Hl. by right.
Qed.

Lemma filter_all {A : Type} (P : A -> Prop) `{!forall x, Decision (P x)} (l : list A) :
  (forall x, x ∈ l -> P x) -> filter P l = l.
Proof.
  induction l as [|a l IH]; intros Hl; [done|].
  rewrite filter_cons_True by (apply Hl; left). f_equal. apply IH.
  intros x Hx. apply Hl. by right.
Qed.

(** X14: the maze is perfect.  On positive dimensions the grid has
    exactly [2 * ceil(width / 2) * ceil(height / 2) - 1] floor cells: the
    lattice cells and one carved cell between two of them for each
    lattice cell but the first, as many as it takes to connect the
    lattice cells without a cycle. *)
Theorem floor_count fuel rng w h d :
  1 <= w -> 1 <= h ->
  exists m, generateMaze fuel rng w h d = Ok m /\
    Z.of_nat (floors (grid m)) = 2 * (((w + 1) / 2) * ((h + 1) / 2)) - 1.
Proof.
  intros Hw Hh.
  destruct (generateMaze_spec fuel rng w h d Hw Hh) as (g & e & ts & path & Hgen & _).
  destruct (MazeLemmas.generateMaze_parts _ _ _ _ _ _ Hw Hh Hgen) as (rng1 & _ & _ & _ & Hwalk & _).
  destruct (MazeLemmas.generated_lattice _ _ _ _ _ _ Hw Hh Hgen) as [Heven _].
  eexists. split; [exact Hgen|]. cbn [grid] in *.
  destruct (MazeLemmas.fresh_grid w h ltac:(lia) ltac:(lia)) as (Hd & Hb & Hnone).
  set (g0 := replicate (Z.to_nat h) (replicate (Z.to_nat w) 1)) in *.
  assert (H00 : inBounds w h 0 0 = true) by (apply inBounds_spec; lia).
  assert (Hc0 : cell g0 0 0 = Some 1).
  { destruct (dims_cell g0 w h 0 0 Hd H00) as [c Hc]. rewrite Hc.
    by apply cell_replicate in Hc as ->. }
  destruct (write_in_range gridHole g0 0 0 0) as (g1 & Hw1 & Hcell1); [by eexists|].
  pose proof (floor_written g0 g1 0 0 Hcell1) as Hf1.
  destruct (walk_count w h _ 0 0 g0 rng g rng1 g1 Hwalk) as [_ Hcount]; try done.
  { intros c dir Hc Hdir [Hm|Hm]%Hf1; [|by destruct (Hnone _ Hm)].
    destruct (directions_lattice dir.1 dir.2 c.1 c.2) as (_ & Hnl & _);
      [by destruct dir | by destruct c|].
    destruct Hnl. by rewrite Hm. }
  assert (Hz : floors g0 = 0%nat).
  { unfold floors, g0. rewrite count2_replicate, countRow_replicate. cbn. lia. }
  assert (Hl0 : latticeFloors g0 w h = 0%nat).
  { unfold latticeFloors. rewrite filter_none; [done|]. intros c _. apply Hnone. }
  assert (Hl : latticeFloors g w h = length (latticeCells w h)).
  { unfold latticeFloors. rewrite filter_all; [done|].
    intros c [Hc Hin]%elem_of_latticeCells. by apply (Heven c). }
  rewrite length_latticeCells in Hl.
  assert (0 <= (w + 1) / 2) by (apply Z.div_pos; lia).
  assert (0 <= (h + 1) / 2) by (apply Z.div_pos; lia).
  nia.
Qed.

Lemma floor_count_witness :
  exists m, generateMaze 0 MazeSamples.draws 13 13 1 = Ok m /\ Z.of_nat (floors (grid m)) = 97.
Proof. apply (floor_count 0 MazeSamples.draws 13 13 1); lia. Defined.
End CountMore.

(** * Further properties of the collision test *)

Module CollisionMore.
Import Collision MazeFacts CollisionFacts.

Lemma cellOf_mono a b : (a <= b)%Q -> cellOf a <= cellOf b.
Proof.
  intros Hab. unfold cellOf. apply Qfloor_resp_le.
  change (inject_Z CELL_SIZE) with 40%Q. unfold Qdiv. change (/ 40)%Q with (1 # 40)%Q. lra.
Qed.

Lemma cellOf_next c : cellOf (c + 40) = cellOf c + 1.
Proof.
  apply cellOf_spec. rewrite cell_shift.
  destruct (proj1 (cellOf_spec c (cellOf c)) eq_refl) as [H1 H2]. split; lra.
Qed.

(** a point within the margin of [c] lies in the column of one of the
    two corners *)
Lemma cellOf_near c d :
  (-12 <= d)%Q -> (d <= 12)%Q ->
  cellOf (c + d) = cellOf (c - 12) \/ cellOf (c + d) = cellOf (c + 12).
Proof.
  intros Hlo Hhi.
  pose proof (cellOf_mono (c - 12) (c + d) ltac:(lra)) as H1.
  pose proof (cellOf_mono (c + d) (c + 12) ltac:(lra)) as H2.
  pose proof (cellOf_mono (c + 12) (c - 12 + 40) ltac:(lra)) as H3.
  rewrite cellOf_next in H3. lia.
Qed.

Lemma cellOf_centre c : cellOf c = cellOf (c - 12) \/ cellOf c = cellOf (c + 12).
Proof.
  pose proof (cellOf_mono (c - 12) c ltac:(lra)) as H1.
  pose proof (cellOf_mono c (c + 12) ltac:(lra)) as H2.
  pose proof (cellOf_mono (c + 12) (c - 12 + 40) ltac:(lra)) as H3.
  rewrite cellOf_next in H3. lia.
Qed.

(** an accepted position has no corner in a wall or outside *)
Lemma unblocked_corners m x y gx gy :
  wellFormed m -> checkCollision x y m = Ok false ->
  gx = cellOf (x - 12) \/ gx = cellOf (x + 12) ->
  gy = cellOf (y - 12) \/ gy = cellOf (y + 12) ->
  inBounds (width m) (height m) gx gy = true /\ cell (grid m) gx gy <> Some 1.
Proof.
  intros Hwf Hc Hgx Hgy.
  destruct (checkCollision_spec m x y Hwf) as (b & Hr & Hb).
  rewrite Hc in Hr. injection Hr as <-.
  assert (Hno : forall p, p ∈ corners x y -> ~ cornerHits m p).
  { intros p Hp Hhit. assert (false = true); [|done]. apply Hb. eauto. }
  assert (Hcell : forall px py, (px, py) ∈ corners x y ->
            inBounds (width m) (height m) (cellOf px) (cellOf py) = true /\
            cell (grid m) (cellOf px) (cellOf py) <> Some 1).
  { intros px py Hp. specialize (Hno _ Hp). unfold cornerHits in Hno. cbn [fst snd] in Hno.
    split; [apply inBounds_spec; lia | tauto]. }
  unfold corners in Hcell. change (inject_Z margin) with 12%Q in Hcell.
  destruct Hgx as [-> | ->], Hgy as [-> | ->]; apply Hcell;
    rewrite !elem_of_cons; auto 6.
Qed.

(** X15: a position the collision test accepts lies inside the grid with
    its whole inflated footprint, and the cell around its centre is a
    cell of the grid that is not a wall.  So every position whose
    footprint crosses the border of the grid is blocked. *)
Theorem unblocked_is_inside m x y :
  wellFormed m -> checkCollision x y m = Ok false ->
  (12 <= x /\ x + 12 < inject_Z (CELL_SIZE * width m) /\
   12 <= y /\ y + 12 < inject_Z (CELL_SIZE * height m))%Q /\
  inBounds (width m) (height m) (cellOf x) (cellOf y) = true /\
  cell (grid m) (cellOf x) (cellOf y) <> Some 1.
Proof.
  intros Hwf Hc.
  assert (Hcorner : forall gx gy,
            gx = cellOf (x - 12) \/ gx = cellOf (x + 12) ->
            gy = cellOf (y - 12) \/ gy = cellOf (y + 12) ->
            inBounds (width m) (height m) gx gy = true /\ cell (grid m) gx gy <> Some 1)
    by (intros; by eapply unblocked_corners).
  split; [|apply Hcorner; [apply cellOf_centre | apply cellOf_centre]].
  destruct (Hcorner _ _ (or_introl eq_refl) (or_introl eq_refl)) as [[Hx1 Hy1]%inBounds_spec _].
  destruct (Hcorner _ _ (or_intror eq_refl) (or_intror eq_refl)) as [[Hx2 Hy2]%inBounds_spec _].
  destruct (proj1 (cellOf_spec (x - 12) _) eq_refl) as [Ha _].
  destruct (proj1 (cellOf_spec (y - 12) _) eq_refl) as [Hb _].
  destruct (proj1 (cellOf_spec (x + 12) _) eq_refl) as [_ Hc'].
  destruct (proj1 (cellOf_spec (y + 12) _) eq_refl) as [_ Hd].
  unfold CELL_SIZE in *.
  assert (0 <= inject_Z (40 * cellOf (x - 12)))%Q
    by (change 0%Q with (inject_Z 0); rewrite <- Zle_Qle; lia).
  assert (0 <= inject_Z (40 * cellOf (y - 12)))%Q
    by (change 0%Q with (inject_Z 0); rewrite <- Zle_Qle; lia).
  assert (inject_Z (40 * cellOf (x + 12)) + 40 <= inject_Z (40 * width m))%Q.
  { change 40%Q with (inject_Z 40) at 1. rewrite <- inject_Z_plus, <- Zle_Qle. lia. }
  assert (inject_Z (40 * cellOf (y + 12)) + 40 <= inject_Z (40 * height m))%Q.
  { change 40%Q with (inject_Z 40) at 1. rewrite <- inject_Z_plus, <- Zle_Qle. lia. }
  split_and!; lra.
Qed.

Lemma unblocked_is_inside_witness :
  (12 <= 60 /\ 60 + 12 < inject_Z (CELL_SIZE * 3) /\
   12 <= 60 /\ 60 + 12 < inject_Z (CELL_SIZE * 3))%Q /\
  inBounds 3 3 (cellOf 60) (cellOf 60) = true /\
  cell (grid MazeSamples.island) (cellOf 60) (cellOf 60) <> Some 1.
Proof.
  apply (unblocked_is_inside MazeSamples.island 60 60).
  - split; [reflexivity|]. repeat constructor.
  - reflexivity.
Defined.

(** one movement step: the position tried along each axis is taken when
    the test accepts it *)
Lemma step_on_floor m x y dx dy bx by_ :
  wellFormed m -> binary (grid m) ->
  checkCollision (x + dx) y m = Ok bx -> checkCollision x (y + dy) m = Ok by_ ->
  (-12 <= dx /\ dx <= 12)%Q \/ (-12 <= dy /\ dy <= 12)%Q ->
  onFloor m (x, y) ->
  onFloor m (if bx then x else (x + dx)%Q, if by_ then y else (y + dy)%Q).
Proof.
  intros Hwf Hb Hcx Hcy Hgentle Hpos.
  assert (Hfl : forall gx gy, inBounds (width m) (height m) gx gy = true /\
                              cell (grid m) gx gy <> Some 1 ->
                inBounds (width m) (height m) gx gy = true /\ cell (grid m) gx gy = Some 0).
  { intros gx gy [Hin Hne]. split; [done|].
    destruct (dims_cell _ _ _ _ _ Hwf Hin) as [c Hc]. rewrite Hc in *.
    destruct (Hb _ _ _ Hc) as [->| ->]; done. }
  unfold onFloor, Game.gridCell in *. cbn [fst snd] in *.
  destruct bx, by_; [done | | |].
  - apply Hfl. apply (unblocked_corners m x (y + dy)); [done | done | |];
      apply cellOf_centre.
  - apply Hfl. apply (unblocked_corners m (x + dx) y); [done | done | |];
      apply cellOf_centre.
  - apply Hfl. destruct Hgentle as [[Hlo Hhi]|[Hlo Hhi]].
    + apply (unblocked_corners m x (y + dy)); [done | done | | apply cellOf_centre].
      by apply cellOf_near.
    + apply (unblocked_corners m (x + dx) y); [done | done | apply cellOf_centre |].
      by apply cellOf_near.
Qed.
End CollisionMore.

(** * Further properties of the session *)

Module GameMore.
Import Game GameFacts.

#[local] Arguments gridCell : simpl never.

(** ** The player stays on the floor *)

Lemma size_range d : (1 <= d <= 10)%Q -> 13 <= 12 + Qfloor (d * (15 # 10)) <= 27.
Proof.
  intros [Hlo Hhi].
  pose proof (Qfloor_resp_le 1 (d * (15 # 10)) ltac:(lra)) as H1.
  pose proof (Qfloor_resp_le (d * (15 # 10)) 15 ltac:(lra)) as H2.
  change (Qfloor 1) with 1 in H1. change (Qfloor 15) with 15 in H2. lia.
Qed.

Lemma sessionMaze_facts m :
  sessionMaze m ->
  wellFormed m /\ binary (grid m) /\ start m = mkPoint 0 0 /\
  onFloor m (inject_Z 20, inject_Z 20).
Proof.
  intros (fuel & rng & n & d & Hn & Hgen).
  destruct (MazeLemmas.generateMaze_parts fuel rng n n d m ltac:(lia) ltac:(lia) Hgen)
    as (_ & _ & _ & _ & _ & _ & _ & _ & _ & Hw & Hh & Hs & Hd & Hb & _ & _ & H00 & _).
  unfold wellFormed, onFloor. rewrite Hw, Hh.
  change (gridCell (inject_Z 20, inject_Z 20)) with (0, 0). cbn [fst snd].
  split_and!; try done. apply MazeFacts.inBounds_spec. lia.
Qed.

Lemma startPos_generated m : sessionMaze m -> startPos m = (inject_Z 20, inject_Z 20).
Proof.
  intros (_ & _ & Hs & _)%sessionMaze_facts. unfold startPos. by rewrite Hs.
Qed.

Lemma arena_same s s' :
  gameState s' = gameState s -> maze s' = maze s -> myPos s' = myPos s ->
  pendingRespawns s' = pendingRespawns s -> arenaInv s -> arenaInv s'.
Proof. unfold arenaInv. by intros -> -> -> ->. Qed.

Ltac same_arena s := apply (arena_same s); [reflexivity..|].

Lemma arena_leave s gs pos :
  arenaInv s -> isRunning gs = false -> arenaCore gs (maze s) pos (pendingRespawns s).
Proof.
  intros (Hm & Hp & Hpos) Hgs. unfold arenaCore. rewrite Hgs. split_and!; [|done|done].
  intros [?|?]; [auto | done].
Qed.

Lemma arena_leave_state s gs :
  arenaInv s -> isRunning gs = false -> arenaInv (set_gameState gs s).
Proof. intros Hinv Hgs. unfold arenaInv. simpl. by apply arena_leave. Qed.

Lemma arena_respawn ref s :
  arenaInv s -> isRunning (gameState s) = true -> arenaInv (respawn ref s).
Proof.
  intros (Hm & Hp & Hpos) Hrun. unfold respawn.
  destruct (Hm ltac:(by right)) as (m & Hmz & Hgen). rewrite Hmz.
  unfold arenaInv, arenaCore. simpl. rewrite Hmz. split_and!; [| |done].
  - intros _. by exists m.
  - apply Forall_app. split; [done|]. apply Forall_singleton. simpl.
    by apply startPos_generated.
Qed.

Lemma arena_initGame rng t s : sessionInv s -> arenaInv s -> arenaInv (initGame rng t s).
Proof.
  intros (Hd & _) (Hm & Hp & Hpos). unfold initGame.
  destruct (Maze.generateMaze _ _ _ _ _) as [m| |] eqn:Hgen; [|done..].
  assert (Hsm : sessionMaze m).
  { eexists _, _, _, _. split; [|exact Hgen]. by apply size_range. }
  unfold arenaInv, arenaCore. simpl. split_and!; [|done|].
  - intros _. by exists m.
  - intros _ m' [= <-]. rewrite (startPos_generated _ Hsm).
    by apply sessionMaze_facts.
Qed.

Lemma arena_tickWipe s : arenaInv s -> isRunning (gameState s) = true ->
  arenaInv (tickWipe s s).
Proof.
  intros Hinv Hrun. unfold tickWipe. destruct (phase s =? 3); [|done].
  destruct (Qle_bool _ _); [|by same_arena s].
  destruct (inSafeZone s); [by same_arena s|].
  apply (arena_same (respawn (gameState s) s)); [reflexivity..|].
  by apply arena_respawn.
Qed.

Lemma arena_tickTrap rng s0 s : arenaInv s -> arenaInv (tickTrap rng s0 s).1.
Proof.
  intros Hinv. unfold tickTrap. destruct (Qle_bool _ _); [|by same_arena s].
  destruct (phase s0 =? 2); [|by same_arena s].
  destruct (randCoin rng) as [c rng']. by same_arena s.
Qed.

Lemma arena_tickPhaseClock s0 s : arenaInv s -> arenaInv (tickPhaseClock s0 s).
Proof.
  intros Hinv. unfold tickPhaseClock. destruct (Qle_bool _ _); [|by same_arena s].
  destruct (phase s0 <? 3).
  - apply (arena_same (set_gameState shop s)); [reflexivity..|]. by apply arena_leave_state.
  - apply (arena_same (set_gameState gameover s)); [reflexivity..|].
    by apply arena_leave_state.
Qed.

(** the timer handlers before the practice and the phase clock leave the
    difficulty alone *)
Lemma sessionInv_same_core s s' :
  gameState s' = gameState s -> maze s' = maze s -> myPos s' = myPos s ->
  difficulty s' = difficulty s -> pendingRespawns s' = pendingRespawns s ->
  sessionInv s -> sessionInv s'.
Proof. unfold sessionInv. by intros -> -> -> -> ->. Qed.

Lemma arena_tick rng s : sessionInv s -> arenaInv s -> arenaInv (tick rng s).
Proof.
  intros Hs Hinv. unfold tick. destruct (gameState s) eqn:Hgs; try done.
  - pose proof (arena_tickTrap rng s _ (arena_tickWipe s Hinv ltac:(by rewrite Hgs))) as H1.
    pose proof (inv_tickTrap rng s _ (inv_tickWipe s Hs ltac:(by rewrite Hgs))) as H2.
    destruct (tickTrap rng s (tickWipe s s)) as [s1 rng1]. simpl in H1, H2.
    unfold tickPractice. destruct (Qle_bool _ _); [|by same_arena s1].
    apply (arena_same (initGame rng1 playing s1)); [reflexivity..|]. by apply arena_initGame.
  - pose proof (arena_tickTrap rng s _ (arena_tickWipe s Hinv ltac:(by rewrite Hgs))) as H1.
    destruct (tickTrap rng s (tickWipe s s)) as [s1 rng1]. simpl in H1.
    apply arena_tickPhaseClock. by same_arena s1.
  - unfold tickShop. destruct (Qle_bool _ _); [|by same_arena s].
    apply (arena_same (set_gameState distractor s)); [reflexivity..|].
    by apply arena_leave_state.
  - unfold tickDistractor. destruct (Qle_bool _ _); [|by same_arena s].
    destruct (phase s + 1 =? 2); [|destruct (phase s + 1 =? 3)].
    + apply (arena_same (set_gameState tutorial s)); [reflexivity..|].
      by apply arena_leave_state.
    + apply (arena_same (set_gameState tutorial s)); [reflexivity..|].
      by apply arena_leave_state.
    + apply arena_initGame; [by apply (sessionInv_same_core s) | by same_arena s].
Qed.

Lemma arena_moveTick isMoving dx dy s :
  (-12 <= dx /\ dx <= 12)%Q \/ (-12 <= dy /\ dy <= 12)%Q ->
  arenaInv s -> arenaInv (moveTick isMoving dx dy s).
Proof.
  intros Hgentle Hinv. pose proof Hinv as (Hm & Hp & Hpos). unfold moveTick.
  destruct (isRunning (gameState s)) eqn:Hrun; [|done].
  destruct (maze s) as [m|] eqn:Hmz; [|done]. destruct isMoving; [|done].
  destruct (Hm ltac:(by right)) as (m' & [= <-] & Hgen).
  destruct (sessionMaze_facts m Hgen) as (Hwf & Hb & _ & _).
  destruct (myPos s) as [x y] eqn:Hxy.
  destruct (Collision.checkCollision (x + dx) y m) as [bx| |] eqn:Hcx; [|done..].
  destruct (Collision.checkCollision x (y + dy) m) as [by_| |] eqn:Hcy; [|done..].
  destruct (_ && _); [by apply arena_respawn|].
  pose proof (CollisionMore.step_on_floor m x y dx dy bx by_ Hwf Hb Hcx Hcy Hgentle
                (Hpos eq_refl m eq_refl)) as Hnext.
  set (next := (if bx then x else (x + dx)%Q, if by_ then y else (y + dy)%Q)) in *.
  unfold winCheck. destruct (gridCell next) as [gx gy] eqn:Hcell.
  destruct ((gx =? px (end_ m)) && (gy =? py (end_ m))) eqn:Hend.
  - destruct (gameState s) eqn:Hgs; try done.
    + pose proof (arena_respawn practice s Hinv ltac:(by rewrite Hgs)) as Hr.
      unfold respawn in *. rewrite Hmz in *.
      unfold arenaInv. simpl. exact (arena_leave _ respawning next Hr eq_refl).
    + unfold arenaInv. simpl. by apply arena_leave.
  - unfold arenaInv, arenaCore. simpl. rewrite Hmz.
    split_and!; [intros _; by exists m | done |].
    by intros _ m' [= <-].
Qed.

Lemma arena_step s e : sessionInv s -> gentle e -> arenaInv s -> arenaInv (step s e).
Proof.
  intros Hs Hg Hinv. pose proof Hinv as (Hm & Hp & Hpos).
  destruct e; simpl.
  - by apply arena_tick.
  - by apply arena_moveTick.
  - unfold aiTick. destruct (_ && _) eqn:Hc; [|done].
    apply andb_true_iff in Hc as [[Hrun _]%andb_true_iff _].
    destruct (decide _); [by apply arena_respawn | by apply arena_leave_state].
  - unfold trapCheck. destruct (maze s); [|done].
    destruct (_ && _) eqn:Hc; [|done]. apply andb_true_iff in Hc as [Hrun _].
    destruct (gridCell (myPos s)). destruct (_ && _); [by apply arena_respawn | done].
  - unfold respawnFire. destruct (pendingRespawns s) as [|[t pos] rest] eqn:Hpend; [done|].
    destruct (Hm ltac:(by left)) as (m & Hmz & Hgen).
    apply Forall_cons in Hp as [Hpos0 Hrest]. simpl in Hpos0.
    unfold arenaInv, arenaCore. simpl. rewrite Hmz. split_and!; [| done |].
    + intros _. by exists m.
    + intros _ m' [= <-]. rewrite Hpos0. by apply sessionMaze_facts.
  - unfold shopConfirmFire. destruct (pendingShopConfirms s); [done|].
    apply (arena_same (set_gameState distractor s)); [reflexivity..|].
    by apply arena_leave_state.
  - unfold shopFixed. destruct (_ && _); [by same_arena s | done].
  - unfold shopGamble. destruct (_ && _); [|done].
    destruct (randCoin rng). by same_arena s.
  - unfold setSubjectId. destruct (bool_decide _); [by same_arena s | done].
  - unfold startSession. destruct (_ && _); [|done].
    apply (arena_same (set_gameState tutorial s)); [reflexivity..|].
    by apply arena_leave_state.
  - unfold tutorialButton. destruct (bool_decide _); [|done].
    destruct (tutorialStep s); try (by same_arena s).
    all: try (apply (arena_same (initGame rng practice s)); [reflexivity..|]).
    all: by apply arena_initGame.
  - unfold surveyComplete. destruct (_ && _); [|done].
    apply arena_initGame; [by apply (sessionInv_same_core s) | by same_arena s].
  - unfold nextIteration. destruct (_ || _); [by apply arena_initGame | done].
  - unfold netGameOver. destruct winnerIsMe.
    + unfold arenaInv. simpl. by apply arena_leave.
    + by apply arena_leave_state.
  - unfold netPlayerJoined. destruct m as [m'|]; [|done].
    destruct (maze s) eqn:Hmz; [done|].
    unfold arenaInv, arenaCore. simpl. split_and!; [| done |].
    + intros Hpre. destruct (Hm Hpre) as (m & ? & _). congruence.
    + intros Hrun. destruct (Hm ltac:(by right)) as (m & ? & _). congruence.
  - unfold debugSkip. destruct (gameState s); by try same_arena s.
  - unfold debugCoins. by same_arena s.
  - unfold externalSkip. destruct (gameState s); by try same_arena s.
Qed.

Lemma arena_run es : forall s,
  reachable s -> arenaInv s -> Forall gentle es -> arenaInv (run s es).
Proof.
  induction es as [|e es IH]; intros s Hr Hinv Hg; [done|].
  apply Forall_cons in Hg as [He Hes]. simpl. apply IH; [by constructor | | done].
  apply arena_step; [by apply reachable_inv | done | done].
Qed.

(** X16: the player stays on the floor.  In every run of the session
    whose movement ticks displace the player by at most 12 along one of
    the axes (the client's speed is at most 5.8), whenever the session is
    in [practice] or [playing] its maze is one that [generateMaze]
    returned for a side between 13 and 27, and the cell the player is in
    is a floor cell of that maze. *)
Theorem player_stays_on_floor es m :
  Forall gentle es ->
  isRunning (gameState (run initial es)) = true -> maze (run initial es) = Some m ->
  sessionMaze m /\ onFloor m (myPos (run initial es)).
Proof.
  intros Hg Hrun Hmz.
  destruct (arena_run es initial) as (Hm & _ & Hpos); [constructor| |done|].
  { unfold arenaInv, arenaCore. simpl. split_and!; [|done|done]. intros [?|?]; done. }
  destruct (Hm ltac:(by right)) as (m' & Hmz' & Hgen).
  rewrite Hmz in Hmz'. injection Hmz' as <-. split; [done|]. by apply Hpos.
Qed.

Lemma approach_gentle : Forall gentle RaceSamples.approach.
Proof.
  assert (Hm : forall n dx dy, (-12 <= dx /\ dx <= 12)%Q ->
            Forall gentle (RaceSamples.moves n dx dy)).
  { intros n dx dy Hdx. apply Forall_replicate. by left. }
  assert (H0 : (-12 <= 0 /\ 0 <= 12)%Q) by (split; discriminate).
  assert (H4 : (-12 <= 4 /\ 4 <= 12)%Q) by (split; discriminate).
  assert (Hlap : Forall gentle RaceSamples.lap).
  { unfold RaceSamples.lap. rewrite !Forall_app. split_and!; by apply Hm. }
  unfold RaceSamples.approach. rewrite !Forall_app. split_and!; try done.
  - unfold RaceSamples.toPlaying. repeat constructor.
  - by apply Forall_replicate.
  - by apply Hm.
Qed.

Lemma player_stays_on_floor_witness :
  exists m, maze (run initial RaceSamples.approach) = Some m /\
    sessionMaze m /\ onFloor m (myPos (run initial RaceSamples.approach)).
Proof.
  assert (Hm : exists m, maze (run initial RaceSamples.approach) = Some m).
  { eexists. vm_compute. reflexivity. }
  destruct Hm as [m Hm]. exists m. split; [exact Hm|].
  apply (player_stays_on_floor RaceSamples.approach m).
  - exact approach_gentle.
  - vm_compute. reflexivity.
  - exact Hm.
Defined.

(** ** Coins, phases and rewards *)

Lemma earned_pos t : 1 <= earned t <= 5.
Proof. unfold earned. lia. Qed.

Lemma step_coins s e : 0 <= coins s -> 0 <= coins (step s e).
Proof.
  intros Hc.
  assert (He : forall t, 0 <= coins s + earned t) by (intros t; pose proof (earned_pos t); lia).
  destruct e; unfold_handlers; split_cases; try done; try lia; try apply He.
  all: repeat match goal with
         | H : _ && _ = true |- _ => apply andb_true_iff in H as [? ?]
         | H : (_ <=? _) = true |- _ => apply Z.leb_le in H
         end; simpl; lia.
Qed.

(** X17: the coin count is never negative: the shop buttons act only
    when the price can be paid, the gamble leaves the double or nothing,
    a win adds between 1 and 5 coins and the debug key adds 10. *)
Theorem coins_never_negative s : reachable s -> 0 <= coins s.
Proof. induction 1 as [|s e _ IH]; [done | by apply step_coins]. Qed.

Lemma coins_never_negative_witness : 0 <= coins (run initial GameSamples.lateShopConfirm).
Proof.
  apply (coins_never_negative (run initial GameSamples.lateShopConfirm)).
  apply reachable_run. constructor.
Defined.

(** X18: the phase never decreases.  A step of the session leaves the
    phase as it is or raises it by one; it changes only when the timer
    of the distractor expires; so along every run it can only grow. *)
Theorem phase_never_decreases s e es :
  (phase (step s e) = phase s \/ phase (step s e) = phase s + 1) /\
  (phase (step s e) <> phase s ->
     (exists rng, e = Tick rng) /\ gameState s = distractor /\
     Qle_bool (distractorTimer s) tenth = true) /\
  phase s <= phase (run s es).
Proof.
  split_and!.
  - destruct (step_phase s e) as [->|(_ & _ & _ & ->)]; auto.
  - intros Hne. destruct (step_phase s e) as [E|(H1 & H2 & H3 & _)]; [done | auto].
  - apply phase_monotone.
Qed.

(** X19: game over comes from the phase clock.  From a reachable state
    other than [gameover] a step leads to [gameover] only if it is a tick
    of the 100 ms timer in state [playing] with the phase clock expired
    and the phase at least 3. *)
Theorem game_over_by_phase_clock s e :
  reachable s -> gameState s <> gameover -> gameState (step s e) = gameover ->
  (exists rng, e = Tick rng) /\ gameState s = playing /\
  Qle_bool (phaseTime s) tenth = true /\ 3 <= phase s.
Proof. intros Hr. apply gameover_entry. by apply reachable_inv. Qed.

Lemma game_over_by_phase_clock_witness :
  (exists rng, Tick [] = Tick rng) /\
  gameState (run initial (take 25 GameSamples.lateShopConfirm)) = playing /\
  Qle_bool (phaseTime (run initial (take 25 GameSamples.lateShopConfirm))) tenth = true /\
  3 <= phase (run initial (take 25 GameSamples.lateShopConfirm)).
Proof.
  apply (game_over_by_phase_clock (run initial (take 25 GameSamples.lateShopConfirm)) (Tick [])).
  - apply reachable_run. constructor.
  - vm_compute. discriminate.
  - vm_compute. reflexivity.
Defined.

(** X20: the reward schedule.  A win pays between 1 and 5 coins; it pays
    5 when the race took at most 5 seconds and 1 when it took more than
    14; and a slower race never pays more than a faster one. *)
Theorem reward_schedule t t' :
  (0 <= t)%Q -> (t <= t')%Q ->
  1 <= earned t <= 5 /\
  ((t <= 5)%Q -> earned t = 5) /\
  ((14 < t)%Q -> earned t = 1) /\
  earned t' <= earned t.
Proof.
  intros H0 Hle. unfold earned. split_and!; [lia | lia | | |].
  - intros H5. assert (5 <= Qfloor (30 / (t + 1))); [|lia].
    change 5 with (Qfloor 5). apply Qfloor_resp_le. apply Qle_shift_div_l; lra.
  - intros H14. assert (Qfloor (30 / (t + 1)) < 2); [|lia].
    assert (30 / (t + 1) < 2)%Q by (apply Qlt_shift_div_r; lra).
    pose proof (Qfloor_le (30 / (t + 1))) as Hf.
    rewrite Zlt_Qlt. change (inject_Z 2) with 2%Q. lra.
  - assert (Qfloor (30 / (t' + 1)) <= Qfloor (30 / (t + 1))); [|lia].
    apply Qfloor_resp_le. apply Qle_shift_div_l; [lra|].
    assert (E : (30 / (t' + 1) * (t + 1) == 30 * (t + 1) / (t' + 1))%Q)
      by (unfold Qdiv; ring).
    rewrite E.
    apply Qle_shift_div_r; lra.
Qed.

Lemma reward_schedule_witness :
  1 <= earned 9 <= 5 /\ ((9 <= 5)%Q -> earned 9 = 5) /\
  ((14 < 9)%Q -> earned 9 = 1) /\ earned 20 <= earned 9.
Proof. apply (reward_schedule 9 20); discriminate. Defined.

(** X21: practice does not count.  In state [practice] no tick of the
    100 ms timer, of the movement or of the pursuer changes the coins,
    the difficulty, the phase or the counts of completed mazes: reaching
    the end cell or being caught only sends the player back to the
    start. *)
Theorem practice_does_not_count s e :
  isTick e -> gameState s = practice ->
  coins (step s e) = coins s /\ difficulty (step s e) = difficulty s /\
  phase (step s e) = phase s /\ mazesCompleted (step s e) = mazesCompleted s /\
  phaseMazes (step s e) = phaseMazes s.
Proof.
  intros He Hgs. destruct e; try done; unfold_handlers; rewrite Hgs; split_cases; done.
Qed.

Lemma practice_does_not_count_witness :
  coins (step GameSamples.practiceEnding (Tick [])) = coins GameSamples.practiceEnding /\
  difficulty (step GameSamples.practiceEnding (Tick [])) = difficulty GameSamples.practiceEnding /\
  phase (step GameSamples.practiceEnding (Tick [])) = phase GameSamples.practiceEnding /\
  mazesCompleted (step GameSamples.practiceEnding (Tick []))
    = mazesCompleted GameSamples.practiceEnding /\
  phaseMazes (step GameSamples.practiceEnding (Tick [])) = phaseMazes GameSamples.practiceEnding.
Proof. apply (practice_does_not_count GameSamples.practiceEnding (Tick [])); [exact I | reflexivity]. Defined.

(** X22: one purchase per shop.  After a click on a shop button a second
    click on the same button, or on the gamble after the fixed-price
    button, changes nothing; neither does a click on the fixed-price
    button after the gamble, unless the gamble was out of reach (fewer
    than 5 coins).  The purchase sets [shopChoiceTime], which disables
    both buttons until the next maze. *)
Theorem shop_buys_once s rng rng' :
  step (step s ShopFixed) ShopFixed = step s ShopFixed /\
  step (step s ShopFixed) (ShopGamble rng') = step s ShopFixed /\
  step (step s (ShopGamble rng)) (ShopGamble rng') = step s (ShopGamble rng) /\
  (coins s < 5 \/ step (step s (ShopGamble rng)) ShopFixed = step s (ShopGamble rng)).
Proof.
  split_and!.
  - cbn [step]. unfold shopFixed at 2 3.
    destruct (_ && _) eqn:E.
    + unfold shopFixed. simpl. by rewrite !andb_false_r.
    + unfold shopFixed. by rewrite E.
  - cbn [step]. unfold shopFixed.
    destruct (_ && _) eqn:E.
    + unfold shopGamble. simpl. by rewrite !andb_false_r.
    + unfold shopGamble. destruct (bool_decide _ && (5 <=? coins s) && _) eqn:E'; [|done].
      exfalso. apply andb_true_iff in E' as [[H1 H2]%andb_true_iff H3].
      rewrite H1, H3, !andb_true_r in E. cbn in E. apply Z.leb_le in H2.
      apply Z.leb_gt in E. lia.
  - cbn [step]. unfold shopGamble at 2 3.
    destruct (_ && _) eqn:E.
    + destruct (randCoin rng) as [win rng1]. unfold shopGamble. simpl.
      by rewrite !andb_false_r.
    + unfold shopGamble. by rewrite E.
  - destruct (Z.lt_ge_cases (coins s) 5) as [Hlt|Hge]; [by left | right].
    cbn [step]. unfold shopGamble.
    destruct (bool_decide _ && (5 <=? coins s) && _) eqn:E.
    + destruct (randCoin rng) as [win rng1]. unfold shopFixed. simpl.
      by rewrite !andb_false_r.
    + unfold shopFixed. destruct (bool_decide _ && (2 <=? coins s) && _) eqn:E'; [|done].
      exfalso. apply andb_true_iff in E' as [[H1 H2]%andb_true_iff H3].
      rewrite H1, H3, !andb_true_r in E. cbn in E. apply Z.leb_gt in E. lia.
Qed.

(** X23: the stems of the music and the flow track.  At the win that
    brings the number of mazes completed in the phase to [next]
    (at least 0), between 0 and 4 stems are made active, and the flow
    track is triggered exactly when all four are: from the fourth win
    in phase 1, the second in phase 2 and the first in any other
    phase. *)
Theorem flow_when_all_stems ph next :
  0 <= next ->
  0 <= activeStems ph next <= 4 /\
  (triggerFlow ph next = true <-> activeStems ph next = 4) /\
  (triggerFlow ph next = true <->
     (if ph =? 1 then 4 else if ph =? 2 then 2 else 1) <= next).
Proof.
  intros Hn. unfold activeStems, triggerFlow, stemThreshold. rewrite Z.leb_le.
  destruct (ph =? 1); [|destruct (ph =? 2)];
    [change (4 / 4) with 1 | change (4 / 2) with 2 | change (4 / 1) with 4]; lia.
Qed.

Lemma flow_when_all_stems_witness :
  0 <= activeStems 2 1 <= 4 /\
  (triggerFlow 2 1 = true <-> activeStems 2 1 = 4) /\
  (triggerFlow 2 1 = true <-> (if 2 =? 1 then 4 else if 2 =? 2 then 2 else 1) <= 1).
Proof. apply (flow_when_all_stems 2 1). lia. Defined.
End GameMore.

(** * The audio survey: what the form hands over *)

Module SurveyMore.
Import Survey.

Lemma values_forall (p : Z -> bool) (r : Scores) :
  forallb p (values r) = true <-> forall g, p (r g) = true.
Proof.
  unfold values, GENRES. cbn [fmap list_fmap forallb].
  rewrite !andb_true_iff. split.
  - intros H g. destruct g; tauto.
  - intros H. repeat split; apply H.
Qed.

Lemma all_genres g : g ∈ GENRES.
Proof. unfold GENRES. rewrite !elem_of_cons. destruct g; auto 7. Qed.

Lemma NoDup_GENRES : NoDup GENRES.
Proof. apply (bool_decide_unpack _). by vm_compute. Qed.

Lemma length_remove_dups_le {A} `{EqDecision A} (l : list A) :
  (length (remove_dups l) <= length l)%nat.
Proof.
  induction l as [|x l IH]; [done|]. cbn [remove_dups].
  destruct (decide_rel _ _ _); cbn [length]; lia.
Qed.

Lemma length_remove_dups_NoDup {A} `{EqDecision A} (l : list A) :
  length (remove_dups l) = length l <-> NoDup l.
Proof.
  induction l as [|x l IH].
  - split; [constructor | done].
  - cbn [remove_dups]. rewrite NoDup_cons.
    pose proof (length_remove_dups_le l).
    destruct (decide_rel _ _ _) as [Hin|Hin]; cbn [length].
    + split; [lia | tauto].
    + split.
      * intros E. split; [done|]. apply IH. lia.
      * intros [_ E]. apply IH in E. lia.
Qed.

Lemma values_NoDup (r : Scores) :
  NoDup (values r) <-> forall g g', r g = r g' -> g = g'.
Proof.
  split.
  - intros H g g' E.
    destruct (proj1 (list_elem_of_lookup GENRES g) (all_genres g)) as [i Hi].
    destruct (proj1 (list_elem_of_lookup GENRES g') (all_genres g')) as [j Hj].
    assert (i = j) as ->.
    { eapply (proj1 (NoDup_alt (values r)) H i j (r g)); unfold values;
        rewrite list_lookup_fmap; [by rewrite Hi | by rewrite Hj, E]. }
    congruence.
  - intros H. unfold values. apply NoDup_fmap_2_strong; [|apply NoDup_GENRES].
    intros x y _ _. apply H.
Qed.

Lemma complete_parts (r : Scores) :
  isRankingComplete r = true <-> (forall g, 0 < r g) /\ NoDup (values r).
Proof.
  unfold isRankingComplete. rewrite andb_true_iff, values_forall, Nat.eqb_eq.
  rewrite <- length_remove_dups_NoDup.
  assert (length (values r) = length GENRES) as -> by (unfold values; by rewrite length_fmap).
  split; intros [H1 H2]; (split; [|done]); intros g; specialize (H1 g); lia.
Qed.

(** a complete ranking within 1..6 uses every rank *)
Lemma complete_onto (r : Scores) k :
  isRankingComplete r = true -> (forall g, 0 <= r g <= 6) -> 1 <= k <= 6 ->
  exists g, r g = k.
Proof.
  intros [Hpos Hnd]%complete_parts Hrange Hk.
  assert (Hperm : values r ≡ₚ seqZ 1 6).
  { apply submseteq_length_Permutation.
    - apply NoDup_submseteq; [done|].
      intros x (g & -> & _)%list_elem_of_fmap. apply elem_of_seqZ.
      specialize (Hpos g). specialize (Hrange g). lia.
    - unfold values. rewrite length_fmap, length_seqZ. done. }
  assert (Hin : k ∈ values r) by (rewrite Hperm; apply elem_of_seqZ; lia).
  apply list_elem_of_fmap in Hin as (g & -> & _). by exists g.
Qed.

Lemma insertBy_perm {A} (cmp : A -> A -> Z) x l : insertBy cmp x l ≡ₚ x :: l.
Proof.
  induction l as [|y l IH]; [done|]. cbn [insertBy].
  destruct (_ <=? _); [done|]. rewrite IH. apply Permutation_swap.
Qed.

Lemma sort_perm {A} (cmp : A -> A -> Z) l : sort cmp l ≡ₚ l.
Proof.
  induction l as [|x l IH]; [done|]. unfold sort. cbn [foldr].
  rewrite insertBy_perm. by f_equiv.
Qed.

Lemma insertBy_sorted {A} (key : A -> Z) x l :
  ordered key l -> ordered key (insertBy (fun a b => key a - key b) x l).
Proof.
  induction l as [|y l IH]; cbn [insertBy ordered].
  - by split.
  - intros [Hy Hl]. destruct (Z.leb_spec (key x - key y) 0) as [Hle|Hgt]; cbn [ordered].
    + split; [|done]. constructor; [lia|].
      eapply Forall_impl; [exact Hy|]. cbn. intros; lia.
    + split; [|by apply IH].
      rewrite (insertBy_perm _ x l). constructor; [lia | done].
Qed.

Lemma sort_sorted {A} (key : A -> Z) l :
  ordered key (sort (fun a b => key a - key b) l).
Proof.
  induction l as [|x l IH]; [done|]. unfold sort. cbn [foldr].
  by apply insertBy_sorted.
Qed.

Lemma sorted_lookup {A} (key : A -> Z) l i j a b :
  ordered key l -> l !! i = Some a -> l !! j = Some b -> (i < j)%nat -> key a <= key b.
Proof.
  revert i j. induction l as [|x l IH]; intros i j Hxl Hi Hj Hlt; [done|].
  destruct Hxl as [Hx Hl].
  destruct j as [|j]; [lia|]. destruct i as [|i].
  - cbn in Hi, Hj. injection Hi as <-.
    eapply (proj1 (Forall_forall _ _) Hx). by eapply list_elem_of_lookup_2.
  - cbn in Hi, Hj. eapply IH; [done..|lia].
Qed.

Lemma sort_ends {A} (key : A -> Z) (l : list A) n b w x :
  length l = S n ->
  sort (fun a b => key a - key b) l !! 0%nat = Some b ->
  sort (fun a b => key a - key b) l !! n = Some w ->
  x ∈ l -> key b <= key x <= key w.
Proof.
  intros Hlen Hb Hw Hx.
  pose proof (sort_sorted key l) as Hs.
  rewrite <- (sort_perm (fun a b => key a - key b) l) in Hx, Hlen.
  apply list_elem_of_lookup in Hx as [j Hj].
  pose proof (lookup_lt_Some _ _ _ Hj) as Hjl. split.
  - destruct j as [|j]; [by simplify_eq|].
    eapply (sorted_lookup key _ 0 (S j)); [done..|lia].
  - destruct (decide (j = n)) as [->|Hne]; [by simplify_eq|].
    eapply (sorted_lookup key _ j n); [done..|lia].
Qed.

Lemma finalize_defined (r t : Scores) :
  exists b w, best (finalize r t) = Some b /\ worst (finalize r t) = Some w.
Proof.
  unfold finalize. cbn [best worst].
  set (l := sort (fun a b => r a - r b) GENRES).
  assert (Hlen : length l = 6%nat) by (unfold l; by rewrite sort_perm).
  change (length GENRES - 1)%nat with 5%nat.
  destruct (lookup_lt_is_Some_2 l 0) as [b Hb]; [lia|].
  destruct (lookup_lt_is_Some_2 l 5) as [w Hw]; [lia|].
  by exists b, w.
Qed.

Lemma click_inv f c : formInv f -> formInv (click f c).1.
Proof.
  intros Hf. pose proof Hf as (Hr & Ht & Hs).
  destruct c as [genre k| |genre k|]; cbn [click].
  - destruct (bool_decide (step f = ranking)) eqn:E1; [|exact Hf].
    destruct (bool_decide (k ∈ _)) eqn:E2; [|exact Hf]. cbn [andb fst].
    apply bool_decide_eq_true in E1, E2. split_and!; [|done|cbn; congruence].
    intros g. cbn [rankingsOf]. unfold handleRank, assign.
    destruct (decide (g = genre)); [|done].
    rewrite !elem_of_cons, elem_of_nil in E2. lia.
  - destruct (bool_decide (step f = ranking)); [|exact Hf].
    destruct (isRankingComplete _) eqn:E; [|exact Hf]. cbn [andb fst]. by split_and!.
  - destruct (bool_decide (step f = rating)) eqn:E1; [|exact Hf].
    destruct (bool_decide (k ∈ _)) eqn:E2; [|exact Hf]. cbn [andb fst].
    apply bool_decide_eq_true in E1, E2. split_and!; [done| |cbn; done].
    intros g. cbn [ratingsOf]. unfold handleRate, assign.
    destruct (decide (g = genre)); [|done].
    rewrite !elem_of_cons, elem_of_nil in E2. lia.
  - by destruct (_ && _).
Qed.

Lemma click_data f c d :
  (click f c).2 = Some d ->
  d = finalize (rankingsOf f) (ratingsOf f) /\ step f = rating /\
  isRatingComplete (ratingsOf f) = true.
Proof.
  destruct c as [genre k| |genre k|]; cbn [click];
    try (by destruct (_ && _)).
  destruct (bool_decide (step f = rating)) eqn:E1; [|done].
  destruct (isRatingComplete _) eqn:E2; [|done]. cbn.
  apply bool_decide_eq_true in E1. by intros [= <-].
Qed.

Lemma session_data f cs d :
  formInv f -> session f cs = Some d ->
  exists f', formInv f' /\ d = finalize (rankingsOf f') (ratingsOf f') /\
    step f' = rating /\ isRatingComplete (ratingsOf f') = true.
Proof.
  revert f. induction cs as [|c cs IH]; intros f Hf; [done|]. cbn [session].
  pose proof (click_inv f c Hf) as Hf'. pose proof (click_data f c) as Hd.
  destruct (click f c) as [f' [d'|]]; cbn in Hf', Hd.
  - intros [= <-]. exists f. split; [done|]. by apply Hd.
  - by apply IH.
Qed.

Lemma initialForm_inv : formInv initialForm.
Proof. split_and!; [by cbn; unfold unset; lia..|done]. Qed.

(** X24: [finalize] orders the genres by rank.  Whatever the rankings,
    [best] and [worst] are defined, no genre has a smaller rank than
    [best] and none a greater rank than [worst]. *)
Theorem finalize_extremes (r t : Scores) :
  exists b w, best (finalize r t) = Some b /\ worst (finalize r t) = Some w /\
    forall g, r b <= r g <= r w.
Proof.
  destruct (finalize_defined r t) as (b & w & Hb & Hw).
  exists b, w. split; [done|]. split; [done|]. intros g.
  by apply (sort_ends r GENRES 5 b w g); [|exact Hb|exact Hw|apply all_genres].
Qed.

(** X25: the continue button.  The ranking is complete exactly when every
    genre has a positive rank and no two genres share a rank. *)
Theorem ranking_complete_iff (r : Scores) :
  isRankingComplete r = true <->
  (forall g, 0 < r g) /\ (forall g g', g <> g' -> r g <> r g').
Proof.
  rewrite complete_parts, values_NoDup. split; intros [H1 H2]; (split; [done|]).
  - intros g g' Hne E. by apply Hne, H2.
  - intros g g' E. destruct (decide (g = g')) as [|Hne]; [done|].
    by destruct (H2 g g' Hne).
Qed.

(** X26: the neutral genre.  Whatever the ratings, [neutral] is defined,
    no genre has a rating closer to 3, and every genre listed before it in
    [GENRES] has a rating strictly farther from 3. *)
Theorem neutral_closest_to_three (r t : Scores) :
  exists n, neutral (finalize r t) = Some n /\
    (forall g, Z.abs (t n - 3) <= Z.abs (t g - 3)) /\
    (forall i j g, GENRES !! i = Some n -> GENRES !! j = Some g -> (j < i)%nat ->
       Z.abs (t n - 3) < Z.abs (t g - 3)).
Proof.
  unfold finalize. cbn [neutral]. unfold reduce, GENRES. cbn [foldl].
  repeat match goal with
  | |- context [Z.ltb ?a ?b] =>
      lazymatch a with
      | context [if _ then _ else _] => fail
      | _ => lazymatch b with
             | context [if _ then _ else _] => fail
             | _ => destruct (Z.ltb_spec a b)
             end
      end
  end;
  (eexists; split; [reflexivity|]; split;
    [ intros g; destruct g; lia
    | intros i j g Hi Hj Hlt;
      destruct i as [|[|[|[|[|[|i]]]]]]; simplify_eq/=;
      destruct j as [|[|[|[|[|[|j]]]]]]; simplify_eq/=; lia ]).
Qed.

(** X27: what a completed survey hands over.  Whatever is clicked, the
    data that reaches [onComplete] ranks the genres with each of the ranks
    1 to 6 on exactly one genre, rates every genre between 1 and 5, and
    names as [best] the genre of rank 1 and as [worst] the genre of
    rank 6. *)
Theorem completed_survey (cs : list Click) (d : AudioSurveyData) :
  session initialForm cs = Some d ->
  (forall k, 1 <= k <= 6 ->
     exists g, rankings d g = k /\ forall g', rankings d g' = k -> g' = g) /\
  (forall g, 1 <= ratings d g <= 5) /\
  (exists b w, best d = Some b /\ worst d = Some w /\
     rankings d b = 1 /\ rankings d w = 6).
Proof.
  intros (f & (Hr & Ht & Hs) & -> & Hstep & Hrate)%session_data;
    [|apply initialForm_inv].
  specialize (Hs Hstep).
  pose proof (proj1 (complete_parts _) Hs) as [Hpos Hnd].
  pose proof (proj1 (values_NoDup _) Hnd) as Hinj.
  split_and!.
  - intros k Hk. destruct (complete_onto _ k Hs Hr Hk) as [g Hg].
    exists g. split; [done|]. intros g' Hg'. apply Hinj. cbn in *. congruence.
  - intros g. cbn [finalize ratings].
    pose proof (proj1 (values_forall _ _) Hrate g) as H1. cbn in H1.
    apply Z.ltb_lt in H1. specialize (Ht g). lia.
  - destruct (finalize_defined (rankingsOf f) (ratingsOf f)) as (b & w & Hb & Hw).
    exists b, w. split; [done|]. split; [done|].
    destruct (complete_onto _ 1 Hs Hr) as [g1 H1]; [lia|].
    destruct (complete_onto _ 6 Hs Hr) as [g6 H6]; [lia|].
    pose proof (sort_ends (rankingsOf f) GENRES 5 b w g1 eq_refl Hb Hw (all_genres _)).
    pose proof (sort_ends (rankingsOf f) GENRES 5 b w g6 eq_refl Hb Hw (all_genres _)).
    pose proof (Hpos b). pose proof (Hr w). cbn [finalize rankings]. lia.
Qed.

Lemma completed_survey_witness :
  exists d, session initialForm sampleClicks = Some d /\
    (forall k, 1 <= k <= 6 ->
       exists g, rankings d g = k /\ forall g', rankings d g' = k -> g' = g) /\
    (forall g, 1 <= ratings d g <= 5) /\
    (exists b w, best d = Some b /\ worst d = Some w /\
       rankings d b = 1 /\ rankings d w = 6).
Proof.
  destruct (session initialForm sampleClicks) as [d|] eqn:E.
  - exists d. split; [reflexivity|]. exact (completed_survey sampleClicks d E).
  - vm_compute in E. discriminate E.
Defined.

End SurveyMore.

